(** * Shopify app starter: rate limiter, webhook helpers, insights, formatters,
      environment, migrations, authentication, logging

    A shallow embedding of the utility functions under [app/utils] and the
    properties the design notes state about them.

    - JavaScript numbers that only ever hold counters, limits and millisecond
      timestamps are integers ([Z]); the two places where the source multiplies
      by a decimal fraction ([0.7], [0.4]) are computed on binary64 floats, and
      what [parseInt] reads from a header is the binary64 number nearest to
      the numeral.
    - A function returns or throws ([Js.completion]). That holds for the
      logger too: [JSON.stringify] throws for a value it cannot serialise.
    - Runtime built-ins whose text output is not at stake ([toISOString],
      [toFixed], [Intl.NumberFormat], the HMAC primitive) are [Variable]s of
      the section that embeds the function using them.
    - The [lru-cache] package is embedded as a recency-ordered association
      list with its [max] and [ttl] options. *)

From Stdlib Require Import ZArith List String Ascii Bool Lia Floats.
From Stdlib Require Import DecimalString Sorted.
Import ListNotations.

Set Warnings "-inexact-float,-register-all".

Local Open Scope string_scope.
Local Open Scope list_scope.
Local Open Scope Z_scope.

(** ** Numbers and text *)

Module Js.

(** An integer-valued JavaScript number seen as a binary64 float. *)
Definition toFloat (z : Z) : float :=
  SF2Prim (binary_normalize prec emax z 0 false).

(** [Number.prototype.toString] on an integer. *)
Definition toString (z : Z) : string :=
  NilZero.string_of_int (Z.to_int z).

(** [Math.ceil (a / 1000)] for an integer [a]. *)
Definition ceilDiv1000 (a : Z) : Z := - ((- a) / 1000).

(** The two ways a call can end. *)
Inductive completion (A E : Type) : Type :=
| Return (a : A)
| Throw (e : E).
Arguments Return {A E} a.
Arguments Throw {A E} e.

End Js.

(** ** The LRU cache ([lru-cache], options [max] and [ttl])

    The package is not part of the repository; this is its documented
    behaviour for the two options the source sets and the three methods it
    calls. An entry is stale once more than [ttl] milliseconds have passed
    since the [set] that stored it ([get] does not refresh that time); stale
    entries stay in place until they are looked up. The time of every
    operation is passed in, the same clock as the caller's [Date.now()]. *)

Module LRU.

Section Cache.
Context {V : Type}.

(** One slot: the key, the stored object and the time of the [set] that
    stored it. *)
Record entry : Type := mkEntry { e_key : string; e_val : V; e_start : Z }.

(** Entries are kept most recently used first. *)
Record t : Type := mkCache { max : nat; ttl : Z; entries : list entry }.

Definition create (max : nat) (ttl : Z) : t := mkCache max ttl [].

Fixpoint find (k : string) (l : list entry) : option entry :=
  match l with
  | [] => None
  | e :: l' => if String.eqb k (e_key e) then Some e else find k l'
  end.

Fixpoint remove (k : string) (l : list entry) : list entry :=
  match l with
  | [] => []
  | e :: l' => if String.eqb k (e_key e) then remove k l' else e :: remove k l'
  end.

Definition isStale (c : t) (now : Z) (e : entry) : bool :=
  ttl c <? now - e_start e.

(** The stored object, without any side effect. *)
Definition peek (c : t) (k : string) : option V :=
  option_map e_val (find k (entries c)).

(** [cache.get(k)]: a stale entry is dropped and reported as missing, a
    live one becomes the most recently used. *)
Definition get (c : t) (now : Z) (k : string) : option V * t :=
  match find k (entries c) with
  | None => (None, c)
  | Some e =>
      if isStale c now e
      then (None, mkCache (max c) (ttl c) (remove k (entries c)))
      else (Some (e_val e), mkCache (max c) (ttl c) (e :: remove k (entries c)))
  end.

(** [cache.has(k)]: no side effect on recency. *)
Definition has (c : t) (now : Z) (k : string) : bool :=
  match find k (entries c) with
  | None => false
  | Some e => negb (isStale c now e)
  end.

(** [cache.set(k, v)]: an existing key is overwritten; a new key evicts
    the least recently used entry when the cache is full. *)
Definition set (c : t) (now : Z) (k : string) (v : V) : t :=
  match find k (entries c) with
  | Some _ => mkCache (max c) (ttl c) (mkEntry k v now :: remove k (entries c))
  | None =>
      let kept :=
        if (max c <=? List.length (entries c))%nat
        then removelast (entries c) else entries c in
      mkCache (max c) (ttl c) (mkEntry k v now :: kept)
  end.

(** Assignment to fields of the object that [get] returned: the cache
    holds that very object, so its slot sees the new field values while
    its position and its time stamp stay as they are. *)
Fixpoint assign (k : string) (v : V) (l : list entry) : list entry :=
  match l with
  | [] => []
  | e :: l' =>
      if String.eqb k (e_key e)
      then mkEntry (e_key e) v (e_start e) :: l'
      else e :: assign k v l'
  end.

Definition mutate (c : t) (k : string) (v : V) : t :=
  mkCache (max c) (ttl c) (assign k v (entries c)).

(** The key that a [set] of a new key would evict from a full cache. *)
Fixpoint lastKey (l : list entry) : option string :=
  match l with
  | [] => None
  | [e] => Some (e_key e)
  | _ :: l' => lastKey l'
  end.

Definition lruKey (c : t) : option string := lastKey (entries c).

End Cache.

Arguments entry : clear implicits.
Arguments t : clear implicits.

End LRU.

(** ** The rate limiter ([app/utils/rateLimiter.server.ts]) *)

Module RateLimiter.
Import Js.

Record BurstBucket : Type := mkBucket {
  burstCount : Z;
  burstReset : Z;
  sustainedCount : Z;
  sustainedReset : Z
}.

(** [new Response(body, { status, headers })]. *)
Record Response : Type := mkResponse {
  body : string;
  status : Z;
  headers : list (string * string)
}.

(** The object a successful call resolves to. *)
Record RateInfo : Type := mkRateInfo {
  remaining : Z;
  reset : string;
  burst : bool
}.

(** What the enhanced version sends to the security monitor and to the
    console. [logRateLimitExceeded] lives in
    [services/securityMonitor.server], which is not among the sources at
    hand: a call to it is recorded with its three arguments. *)
Inductive LogEvent : Type :=
| RateLimitExceeded (shop ip reason : string)
| ConsoleWarn (text : string).

(** Module state of the enhanced version: its two caches and what it has
    logged so far (newest first). *)
Record State : Type := mkState {
  rateLimitCache : LRU.t BurstBucket;
  highUsageLog : LRU.t Z;
  journal : list LogEvent
}.

Definition initialCache : LRU.t BurstBucket := LRU.create 1000 (60 * 1000).

(** Default values of the two limits. *)
Definition defaultSustainedLimit : Z := 100.
Definition defaultBurstLimit : Z := 40.

Definition initialState : State :=
  mkState initialCache (LRU.create 100 (5 * 60 * 1000)) [].

(** [count > limit * fraction], as the source computes it. *)
Definition above (count limit : Z) (fraction : float) : bool :=
  PrimFloat.ltb (PrimFloat.mul (toFloat limit) fraction) (toFloat count).

Section WithDate.

(** [new Date(t).toISOString()]. *)
Variable toISOString : Z -> string.

(** The first definition of [rateLimit]: no logging, bare 429.

    [rateLimitCache.get(key)] hands out the stored object itself, so the
    resets assigned to [bucket] before a [throw] are already in the cache
    ([LRU.mutate] when the bucket was [stored]); a bucket created by the
    object literal reaches the cache only through [set]. [now] is
    [Date.now()]; the limits default to 100 and 40 when the caller omits
    them. *)
Definition rateLimitMinimal (now : Z) (shop : string)
    (sustainedLimit burstLimit : Z) (rateLimitCache : LRU.t BurstBucket)
  : completion RateInfo Response * LRU.t BurstBucket :=
  let key := ("rate-limit:" ++ shop)%string in
  let burstWindow := 10 * 1000 in
  let sustainedWindow := 60 * 1000 in
  let (hit, cache) := LRU.get rateLimitCache now key in
  let stored := match hit with Some _ => true | None => false end in
  let bucket :=
    match hit with
    | Some b => b
    | None => mkBucket 0 (now + burstWindow) 0 (now + sustainedWindow)
    end in
  let bucket :=
    if burstReset bucket <=? now
    then mkBucket 0 (now + burstWindow)
           (sustainedCount bucket) (sustainedReset bucket)
    else bucket in
  let bucket :=
    if sustainedReset bucket <=? now
    then mkBucket (burstCount bucket) (burstReset bucket)
           0 (now + sustainedWindow)
    else bucket in
  let cache := if stored then LRU.mutate cache key bucket else cache in
  if burstLimit <=? burstCount bucket then
    (Throw (mkResponse "Too Many Requests" 429 []), cache)
  else if sustainedLimit <=? sustainedCount bucket then
    (Throw (mkResponse "Too Many Requests" 429 []), cache)
  else
    let bucket :=
      mkBucket (burstCount bucket + 1) (burstReset bucket)
        (sustainedCount bucket + 1) (sustainedReset bucket) in
    let cache := LRU.set cache now key bucket in
    (Return (mkRateInfo
               (sustainedLimit - sustainedCount bucket)
               (toISOString (sustainedReset bucket))
               (above (burstCount bucket) burstLimit 0.7)),
     cache).

(** The second definition of [rateLimit]: burst support with logging and
    rate-limit headers. The bucket is shared with the cache as above. *)
Definition rateLimit (now : Z) (shop : string)
    (sustainedLimit burstLimit : Z) (st : State)
  : completion RateInfo Response * State :=
  let key := ("rate-limit:" ++ shop)%string in
  let burstWindow := 10 * 1000 in
  let sustainedWindow := 60 * 1000 in
  let (hit, cache) := LRU.get (rateLimitCache st) now key in
  let stored := match hit with Some _ => true | None => false end in
  let bucket :=
    match hit with
    | Some b => b
    | None => mkBucket 0 (now + burstWindow) 0 (now + sustainedWindow)
    end in
  let bucket :=
    if burstReset bucket <=? now
    then mkBucket 0 (now + burstWindow)
           (sustainedCount bucket) (sustainedReset bucket)
    else bucket in
  let bucket :=
    if sustainedReset bucket <=? now
    then mkBucket (burstCount bucket) (burstReset bucket)
           0 (now + sustainedWindow)
    else bucket in
  let cache := if stored then LRU.mutate cache key bucket else cache in
  if burstLimit <=? burstCount bucket then
    (Throw (mkResponse "Too Many Requests (burst limit)" 429
              [ ("Retry-After",
                  toString (ceilDiv1000 (burstReset bucket - now)));
                ("X-RateLimit-Limit", (toString burstLimit ++ "/10s")%string);
                ("X-RateLimit-Remaining", "0");
                ("X-RateLimit-Reset", toISOString (burstReset bucket)) ]),
     mkState cache (highUsageLog st)
       (RateLimitExceeded shop "burst" "burst-limit" :: journal st))
  else if sustainedLimit <=? sustainedCount bucket then
    (Throw (mkResponse "Too Many Requests" 429
              [ ("Retry-After",
                  toString (ceilDiv1000 (sustainedReset bucket - now)));
                ("X-RateLimit-Limit",
                  (toString sustainedLimit ++ "/60s")%string);
                ("X-RateLimit-Remaining", "0");
                ("X-RateLimit-Reset", toISOString (sustainedReset bucket)) ]),
     mkState cache (highUsageLog st)
       (RateLimitExceeded shop "sustained" "sustained-limit" :: journal st))
  else
    let bucket :=
      mkBucket (burstCount bucket + 1) (burstReset bucket)
        (sustainedCount bucket + 1) (sustainedReset bucket) in
    let cache := LRU.set cache now key bucket in
    let st' :=
      if above (sustainedCount bucket) sustainedLimit 0.4
         && negb (LRU.has (highUsageLog st) now shop)
      then mkState cache
             (LRU.set (highUsageLog st) now shop (sustainedCount bucket))
             (ConsoleWarn
                ("[Rate Limit] High usage detected for shop: " ++ shop
                 ++ " (" ++ toString (sustainedCount bucket) ++ "/"
                 ++ toString sustainedLimit ++ " requests)")%string
              :: journal st)
      else mkState cache (highUsageLog st) (journal st) in
    (Return (mkRateInfo
               (sustainedLimit - sustainedCount bucket)
               (toISOString (sustainedReset bucket))
               (above (burstCount bucket) burstLimit 0.7)),
     st').

(** *** Vocabulary for the statements *)

(** Replaying the calls of one shop at the given times, from state [st]:
    the final state and the times of the calls that were let through, newest
    first. *)
Fixpoint replay (shop : string) (sustainedLimit burstLimit : Z)
    (times : list Z) (st : State) (granted : list Z) : State * list Z :=
  match times with
  | [] => (st, granted)
  | now :: later =>
      match rateLimit now shop sustainedLimit burstLimit st with
      | (Return _, st') =>
          replay shop sustainedLimit burstLimit later st' (now :: granted)
      | (Throw _, st') =>
          replay shop sustainedLimit burstLimit later st' granted
      end
  end.

End WithDate.

(** The cache key of a shop, of an IP address and of a cron endpoint. *)
Definition shopKey (shop : string) : string := ("rate-limit:" ++ shop)%string.
Definition ipKey (ip : string) : string := ("rate-limit-ip:" ++ ip)%string.
Definition cronKey (endpoint : string) : string :=
  ("rate-limit-cron:" ++ endpoint)%string.

Arguments shopKey : simpl never.
Arguments ipKey : simpl never.
Arguments cronKey : simpl never.

(** The bucket a call at [now] finds under key [k], if any. *)
Definition live (c : LRU.t BurstBucket) (now : Z) (k : string)
  : option BurstBucket :=
  fst (LRU.get c now k).

Definition freshBucket (now : Z) : BurstBucket :=
  mkBucket 0 (now + 10000) 0 (now + 60000).

(** Window resets: a counter whose reset time has come starts again from 0
    with reset time [now] plus its window. *)
Definition afterResets (now : Z) (b : BurstBucket) : BurstBucket :=
  mkBucket
    (if burstReset b <=? now then 0 else burstCount b)
    (if burstReset b <=? now then now + 10000 else burstReset b)
    (if sustainedReset b <=? now then 0 else sustainedCount b)
    (if sustainedReset b <=? now then now + 60000 else sustainedReset b).

(** The counters of a shop as a call at [now] sees them, after window
    resets. *)
Definition current (c : LRU.t BurstBucket) (now : Z) (shop : string)
  : BurstBucket :=
  afterResets now
    (match live c now (shopKey shop) with
     | Some b => b
     | None => freshBucket now
     end).

Definition bump (b : BurstBucket) : BurstBucket :=
  mkBucket (burstCount b + 1) (burstReset b)
    (sustainedCount b + 1) (sustainedReset b).

(** The limit test of a call on the counters it sees. *)
Definition overLimit (sustainedLimit burstLimit : Z) (b : BurstBucket) : bool :=
  (burstLimit <=? burstCount b) || (sustainedLimit <=? sustainedCount b).

(** What a call that is let through resolves to, [toISOString] given. *)
Definition granted (toISOString : Z -> string) (sustainedLimit burstLimit : Z)
    (b : BurstBucket) : RateInfo :=
  mkRateInfo (sustainedLimit - sustainedCount (bump b))
    (toISOString (sustainedReset b))
    (above (burstCount (bump b)) burstLimit 0.7).

(** The cache after a call, in terms of the counters the call saw: the
    stored object takes the window resets, and a call that is let through
    stores the incremented counters. *)
Definition cacheAfter (now : Z) (shop : string) (sustainedLimit burstLimit : Z)
    (c : LRU.t BurstBucket) : LRU.t BurstBucket :=
  let b := current c now shop in
  let c1 := snd (LRU.get c now (shopKey shop)) in
  let c2 :=
    match live c now (shopKey shop) with
    | Some _ => LRU.mutate c1 (shopKey shop) b
    | None => c1
    end in
  if overLimit sustainedLimit burstLimit b
  then c2
  else LRU.set c2 now (shopKey shop) (bump b).

(** Requests among [granted] that are younger than [window] at [now]. *)
Definition trailing (window now : Z) (granted : list Z) : Z :=
  Z.of_nat (List.length (filter (fun t => now - t <? window) granted)).

(** Requests among [granted] made at or after [start]. *)
Definition since (start : Z) (granted : list Z) : Z :=
  Z.of_nat (List.length (filter (fun t => start <=? t) granted)).

(** Times that never go back, starting from [last]. *)
Fixpoint ascending (last : Z) (times : list Z) : Prop :=
  match times with
  | [] => True
  | t :: later => last <= t /\ ascending t later
  end.

(** The bookkeeping behind the counters of one shop: [granted] are the times
    of its calls that were let through, [last] the time of its latest call.
    A stored bucket counts the requests granted since each of its windows
    opened (a reset time minus the window length); without a stored bucket
    every granted request lies in the past. *)
Definition tracks (c : LRU.t BurstBucket) (key : string)
    (granted : list Z) (last : Z) : Prop :=
  LRU.ttl c = 60000 /\
  match LRU.find key (LRU.entries c) with
  | None => forall t, In t granted -> t < last
  | Some e =>
      let b := LRU.e_val e in
      burstCount b = since (burstReset b - 10000) granted
      /\ sustainedCount b = since (sustainedReset b - 60000) granted
      /\ (forall t, In t granted -> t <= LRU.e_start e)
      /\ LRU.e_start e <= last
      /\ LRU.e_start e < burstReset b <= last + 10000
      /\ LRU.e_start e < sustainedReset b <= last + 60000
  end.

(** A thousand shops, to fill the cache. *)
Definition manyShops : list string :=
  map (fun i => toString (Z.of_nat i)) (seq 0 1000).

Definition isoStub (t : Z) : string := toString t.

Definition fullState : State :=
  fold_left (fun st shop => snd (rateLimit isoStub 0 shop 100 40 st))
    manyShops initialState.

End RateLimiter.


(** ** Webhook helpers ([app/utils/webhookVerification.server.ts]) *)

Module Webhook.
Import Js.

(** *** [digest('base64')] *)

Definition alphabet : string :=
  "ABCDEFGHIJKLMNOPQRSTUVWXYZabcdefghijklmnopqrstuvwxyz0123456789+/".

Definition sextet (n : Z) : ascii :=
  match String.get (Z.to_nat (Z.land n 63)) alphabet with
  | Some c => c
  | None => "="%char
  end.

(** Standard base64 of a sequence of octets, with [=] padding. *)
Fixpoint base64 (octets : list Z) : string :=
  match octets with
  | [] => ""
  | [a] =>
      let n := Z.shiftl a 16 in
      String (sextet (Z.shiftr n 18)) (String (sextet (Z.shiftr n 12)) "==")
  | [a; b] =>
      let n := Z.lor (Z.shiftl a 16) (Z.shiftl b 8) in
      String (sextet (Z.shiftr n 18))
        (String (sextet (Z.shiftr n 12)) (String (sextet (Z.shiftr n 6)) "="))
  | a :: b :: c :: rest =>
      let n := Z.lor (Z.lor (Z.shiftl a 16) (Z.shiftl b 8)) c in
      String (sextet (Z.shiftr n 18))
        (String (sextet (Z.shiftr n 12))
           (String (sextet (Z.shiftr n 6)) (String (sextet n) (base64 rest))))
  end.

(** A SHA-256 sized digest: 32 octets. *)
Record Digest : Type := mkDigest {
  octets : list Z;
  octets_length : List.length octets = 32%nat
}.

Section Verify.

(** [crypto.createHmac('sha256', secret).update(data, 'utf8')]. *)
Variable hmacSha256 : string -> string -> Digest.

(** [signature] is [string | null]; [!signature] also holds for the empty
    string. *)
Definition verifyWebhookSignature
    (rawBody : string) (signature : option string) (secret : string) : bool :=
  match signature with
  | None => false
  | Some "" => false
  | Some signature =>
      let hash := base64 (octets (hmacSha256 secret rawBody)) in
      String.eqb hash signature
  end.

End Verify.

(** *** The retry loop *)

Section Retry.

(** [W] is whatever the handler acts on, [E] what can be thrown. *)
Variables W E : Type.

(** [handler: () => Promise<void>]. *)
Definition Handler : Type := W -> completion unit E * W.

(** [logger.error(message, error)] of [utils/logger.server]. For the level
    [ERROR] that logger always formats the line, running [JSON.stringify]
    on the thrown value, before it writes it: the call returns, or it
    throws what [JSON.stringify] throws (a [TypeError] for a value with a
    cycle or a [BigInt] in it). *)
Definition ErrorLogger : Type := string -> E -> completion unit E.

(** The message of the log line of a failed attempt. *)
Definition attemptFailed (attempt : Z) : string :=
  ("Webhook processing attempt " ++ toString attempt ++ " failed:")%string.

(** What the loop does besides calling the handler. *)
Inductive Event : Type :=
| HandlerCall
| LoggerError (attempt : Z) (error : E)
| SetTimeout (ms : Z).

(** The outcome of the whole call: how it ended ([throw lastError] throws
    [undefined], here [None], when no attempt was made), the final state
    and the events, oldest first. *)
Definition Run : Type := completion unit (option E) * W * list Event.

(** The [for] loop from [attempt] on; [fuel] bounds the iterations left.
    An exception of [logger.error] leaves the [catch] block and ends the
    call. *)
Fixpoint retryLoop (loggerError : ErrorLogger) (handler : Handler)
    (maxRetries : Z) (fuel : nat)
    (attempt : Z) (lastError : option E) (w : W) (events : list Event)
  : option Run :=
  if attempt <=? maxRetries then
    match fuel with
    | O => None
    | S fuel' =>
        match handler w with
        | (Return _, w') => Some (Return tt, w', events ++ [HandlerCall])
        | (Throw error, w') =>
            let events := events ++ [HandlerCall; LoggerError attempt error] in
            match loggerError (attemptFailed attempt) error with
            | Throw thrown => Some (Throw (Some thrown), w', events)
            | Return _ =>
                let events :=
                  if attempt <? maxRetries
                  then events ++ [SetTimeout (2 ^ attempt * 1000)]
                  else events in
                retryLoop loggerError handler maxRetries fuel' (attempt + 1)
                  (Some error) w' events
            end
        end
    end
  else Some (Throw lastError, w, events).

(** [maxRetries] defaults to 3. One unit of fuel per attempt is enough. *)
Definition handleWebhookWithRetry (loggerError : ErrorLogger)
    (handler : Handler) (maxRetries : Z) (w : W)
  : option Run :=
  retryLoop loggerError handler maxRetries (Z.to_nat maxRetries) 1 None w [].

Definition defaultMaxRetries : Z := 3.

(** Specification vocabulary: the state after [n] handler calls in a row
    and the result of the call made then. *)
Fixpoint stateAfter (handler : Handler) (n : nat) (w : W) : W :=
  match n with
  | O => w
  | S n' => stateAfter handler n' (snd (handler w))
  end.

Definition resultAt (handler : Handler) (n : nat) (w : W) : completion unit E :=
  fst (handler (stateAfter handler n w)).

Definition failsAt (handler : Handler) (n : nat) (w : W) : Prop :=
  exists e, resultAt handler n w = Throw e.

(** The call made after [n] calls throws and the logger, called for
    attempt [first + n], returns. *)
Definition failsLogged (loggerError : ErrorLogger) (handler : Handler)
    (first : Z) (n : nat) (w : W) : Prop :=
  exists e u,
    resultAt handler n w = Throw e
    /\ loggerError (attemptFailed (first + Z.of_nat n)) e = Return u.

(** The call made after [n] calls throws and the logger, called for
    attempt [first + n], throws [thrown]. *)
Definition failsUnlogged (loggerError : ErrorLogger) (handler : Handler)
    (first : Z) (n : nat) (w : W) (thrown : E) : Prop :=
  exists e,
    resultAt handler n w = Throw e
    /\ loggerError (attemptFailed (first + Z.of_nat n)) e = Throw thrown.

Definition isCall (ev : Event) : bool :=
  match ev with HandlerCall => true | _ => false end.

Definition calls (events : list Event) : nat :=
  List.length (filter isCall events).

Fixpoint delays (events : list Event) : list Z :=
  match events with
  | [] => []
  | SetTimeout ms :: rest => ms :: delays rest
  | _ :: rest => delays rest
  end.

(** The timers set before the first handler call, between each two
    consecutive handler calls, and after the last one; [pending] are those
    seen since the latest call. *)
Fixpoint segments (events : list Event) (pending : list Z) : list (list Z) :=
  match events with
  | [] => [pending]
  | HandlerCall :: rest => pending :: segments rest []
  | SetTimeout ms :: rest => segments rest (pending ++ [ms])
  | LoggerError _ _ :: rest => segments rest pending
  end.

End Retry.

(** Two handlers on a call counter: one that always throws, one that
    succeeds on its second call; what they throw is text, which the logger
    can always write. *)
Definition alwaysFails : nat -> completion unit string * nat :=
  fun w => (Throw "boom", S w).

Definition secondTimeLucky : nat -> completion unit string * nat :=
  fun w => if Nat.eqb w 1 then (Return tt, S w) else (Throw "boom", S w).

Definition textLogger : string -> string -> completion unit string :=
  fun message error => Return tt.

(** Thrown values that are not text: an object that refers to itself, and
    the [TypeError] of [JSON.stringify] on it. A handler that always throws
    that object, and the logger on these values. *)
Inductive Thrown : Type :=
| Message (text : string)
| SelfReferring
| CircularStructure.

Definition throwsSelfReferring : nat -> completion unit Thrown * nat :=
  fun w => (Throw SelfReferring, S w).

Definition stringifyingLogger : string -> Thrown -> completion unit Thrown :=
  fun message error =>
    match error with
    | SelfReferring => Throw CircularStructure
    | _ => Return tt
    end.

(** A digest of 32 zero octets, and an HMAC stub returning it. *)
Definition zeroDigest : Digest := mkDigest (repeat 0 32) eq_refl.

Definition hmacStub (secret data : string) : Digest := zeroDigest.

Arguments HandlerCall {E}.
Arguments LoggerError {E} attempt error.
Arguments SetTimeout {E} ms.
Arguments retryLoop {W E}.
Arguments handleWebhookWithRetry {W E}.
Arguments stateAfter {W E}.
Arguments resultAt {W E}.
Arguments failsAt {W E}.
Arguments failsLogged {W E}.
Arguments failsUnlogged {W E}.
Arguments calls {E}.
Arguments delays {E}.
Arguments segments {E}.

End Webhook.


(** ** Insight generation ([app/utils/insights.ts]) *)

Module Insights.
Import Js.

(** [Math.floor] on a binary64 float. *)
Definition floor (x : float) : float :=
  match Prim2SF x with
  | S754_finite s m e =>
      let signed := if s then Z.neg m else Z.pos m in
      toFloat (if 0 <=? e then signed * 2 ^ e else signed / 2 ^ (- e))
  | _ => x
  end.

(** Values that occur in an insight card. An object literal is the list of
    its properties in source order. *)
Inductive value : Type :=
| Str (s : string)
| Int (z : Z)
| Obj (fields : list (string * value)).

Definition object : Type := list (string * value).

Fixpoint prop (name : string) (o : object) : option value :=
  match o with
  | [] => None
  | (k, v) :: o' => if String.eqb name k then Some v else prop name o'
  end.

(** [o.score] as the comparator reads it. *)
Definition score (o : object) : Z :=
  match prop "score" o with
  | Some (Int z) => z
  | _ => 0
  end.

(** [({ score: _score, ...rest }) => rest]. *)
Fixpoint rest (o : object) : object :=
  match o with
  | [] => []
  | (k, v) :: o' =>
      if String.eqb k "score" then rest o' else (k, v) :: rest o'
  end.

(** [Array.prototype.sort] with a comparator: stable, [a] stays in front of
    [b] unless [compare a b > 0]. *)
Section Sort.
Context {A : Type}.
Variable compare : A -> A -> Z.

Fixpoint insert (x : A) (l : list A) : list A :=
  match l with
  | [] => [x]
  | y :: l' => if compare x y <=? 0 then x :: y :: l' else y :: insert x l'
  end.

Fixpoint sort (l : list A) : list A :=
  match l with
  | [] => []
  | x :: l' => insert x (sort l')
  end.

End Sort.

Record DashboardMetrics : Type := mkMetrics {
  cartEnabled : bool;
  recommendationsVisible : bool;
  appInstalledDays : float;
  totalOrders : float;
  totalRevenue : float;
  attributedRevenue : float;
  attributedOrders : float;
  activeBundleCount : float;
  recImpressions : float;
  recClicks : float;
  recCTR : float;
  conversionRate : float;
  aiRecommendationsEnabled : bool;
  freeShippingEnabled : bool;
  freeShippingThreshold : float;
  ordersReachingFreeShipping : float;
  roi : float;
  lastMLUpdate : option float;
  mlPerformanceChange : float
}.

(** The score each kind of card is created with. *)
Definition kindScore (id : string) : option Z :=
  if String.eqb id "no-visibility" then Some 100
  else if String.eqb id "cart-disabled" then Some 95
  else if String.eqb id "no-bundles" then Some 97
  else if String.eqb id "no-clicks" then Some 85
  else if String.eqb id "low-ctr" then Some 82
  else if String.eqb id "low-conversion" then Some 80
  else if String.eqb id "shipping-low" then Some 78
  else if String.eqb id "ai-disabled" then Some 77
  else if String.eqb id "first-sale" then Some 70
  else if String.eqb id "strong-roi" then Some 65
  else if String.eqb id "high-ctr" then Some 68
  else if String.eqb id "high-conversion" then Some 66
  else if String.eqb id "getting-started" then Some 60
  else if String.eqb id "ml-improving" then Some 55
  else None.

Definition kinds : list string :=
  [ "no-visibility"; "cart-disabled"; "no-bundles"; "no-clicks"; "low-ctr";
    "low-conversion"; "shipping-low"; "ai-disabled"; "first-sale";
    "strong-roi"; "high-ctr"; "high-conversion"; "getting-started";
    "ml-improving" ].

(** The kind of a card, read from its [id], and that kind's score. *)
Definition cardKind (o : object) : string :=
  match prop "id" o with
  | Some (Str id) => id
  | _ => ""
  end.

Definition cardKindScore (o : object) : Z :=
  match kindScore (cardKind o) with
  | Some z => z
  | None => 0
  end.

(** The property names of [InsightCardProps] that the cards use. *)
Definition cardProps : list string :=
  [ "id"; "type"; "priority"; "title"; "message"; "action" ].

Section Generate.

(** [Number.prototype.toFixed] and the conversion of a number to text in a
    template literal. *)
Variable toFixed : float -> Z -> string.
Variable numberToString : float -> string.

(** The body of [generateInsights] up to its [return]: the cards pushed, in
    source order. [now] is [Date.now()]; [lastMLUpdate] holds the time value
    of the date. *)
Definition collectInsights (metrics : DashboardMetrics) (now : float)
  : list object :=
  let insights : list object := [] in
  (* 1. No Recommendations Visible *)
  let insights :=
    if negb (recommendationsVisible metrics)
       && PrimFloat.ltb 3 (appInstalledDays metrics)
    then insights ++
      [[ ("id", Str "no-visibility");
         ("type", Str "critical");
         ("priority", Int 1);
         ("title", Str "No one is seeing your recommendations");
         ("message", Str "Check your theme settings and make sure the app embed is turned on. Customers can't buy what they can't see.");
         ("action", Obj [ ("label", Str "Setup guide");
                          ("url", Str "/admin/settings") ]);
         ("score", Int 100) ]]
    else insights in
  (* 2. Cart Drawer Disabled *)
  let insights :=
    if negb (cartEnabled metrics) && PrimFloat.ltb 10 (totalOrders metrics)
    then insights ++
      [[ ("id", Str "cart-disabled");
         ("type", Str "critical");
         ("priority", Int 1);
         ("title", Str "Cart drawer is turned off");
         ("message", Str "Enable the cart drawer to show upsells and free shipping progress. You're missing opportunities on every order.");
         ("action", Obj [ ("label", Str "Enable now");
                          ("url", Str "/admin/settings") ]);
         ("score", Int 95) ]]
    else insights in
  (* 3. No Bundles Created *)
  let insights :=
    if PrimFloat.eqb (activeBundleCount metrics) 0
       && PrimFloat.ltb 7 (appInstalledDays metrics)
    then insights ++
      [[ ("id", Str "no-bundles");
         ("type", Str "critical");
         ("priority", Int 1);
         ("title", Str "Create your first FBT offer");
         ("message", Str "Start with 2-3 products that customers often buy together. Most merchants see results within 3 days.");
         ("action", Obj [ ("label", Str "Create FBT");
                          ("url", Str "/admin/bundles/new") ]);
         ("score", Int 97) ]]
    else insights in
  (* 4. Bundles Seen But Never Clicked *)
  let insights :=
    if PrimFloat.ltb 50 (recImpressions metrics)
       && PrimFloat.eqb (recClicks metrics) 0
    then insights ++
      [[ ("id", Str "no-clicks");
         ("type", Str "warning");
         ("priority", Int 2);
         ("title", Str "Customers see FBT but don't click");
         ("message", Str "Try pairing products that actually go together or offer a bigger discount to make the deal more appealing.");
         ("action", Obj [ ("label", Str "View FBT offers");
                          ("url", Str "/admin/bundles") ]);
         ("score", Int 85) ]]
    else insights in
  (* 5. Low Click-Through Rate *)
  let insights :=
    if PrimFloat.ltb (recCTR metrics) 2
       && PrimFloat.ltb 100 (recImpressions metrics)
    then insights ++
      [[ ("id", Str "low-ctr");
         ("type", Str "warning");
         ("priority", Int 2);
         ("title", Str "Low click rate on recommendations");
         ("message", Str ("Only " ++ toFixed (recCTR metrics) 1 ++ "% of people click. Try showing fewer, more relevant products or add images to make offers stand out.")%string);
         ("action", Obj [ ("label", Str "Improve FBT");
                          ("url", Str "/admin/bundles") ]);
         ("score", Int 82) ]]
    else insights in
  (* 6. Good Clicks, Low Conversions *)
  let insights :=
    if PrimFloat.ltb 3 (recCTR metrics)
       && PrimFloat.ltb (conversionRate metrics) 1
       && PrimFloat.ltb 20 (recClicks metrics)
    then insights ++
      [[ ("id", Str "low-conversion");
         ("type", Str "warning");
         ("priority", Int 2);
         ("title", Str "Good clicks, but few sales");
         ("message", Str (toFixed (recCTR metrics) 1 ++ "% click rate is great, but only " ++ toFixed (conversionRate metrics) 1 ++ "% buy. Your pricing might be too high.")%string);
         ("action", Obj [ ("label", Str "Review pricing");
                          ("url", Str "/admin/bundles") ]);
         ("score", Int 80) ]]
    else insights in
  (* 7. Free Shipping Not Reaching Many *)
  let insights :=
    if freeShippingEnabled metrics
       && PrimFloat.ltb 0 (freeShippingThreshold metrics)
    then
      let reachingRate :=
        if PrimFloat.ltb 0 (totalOrders metrics)
        then PrimFloat.mul
               (PrimFloat.div (ordersReachingFreeShipping metrics)
                  (totalOrders metrics)) 100
        else 0%float in
      if PrimFloat.ltb reachingRate 15 && PrimFloat.ltb 0 reachingRate
      then insights ++
        [[ ("id", Str "shipping-low");
           ("type", Str "warning");
           ("priority", Int 2);
           ("title", Str "Very few reach free shipping");
           ("message", Str ("Only " ++ toFixed reachingRate 0 ++ "% of shoppers reach your threshold. Try lowering it to boost order value.")%string);
           ("action", Obj [ ("label", Str "Adjust threshold");
                            ("url", Str "/admin/settings") ]);
           ("score", Int 78) ]]
      else insights
    else insights in
  (* 8. AI Disabled Despite Orders *)
  let insights :=
    if negb (aiRecommendationsEnabled metrics)
       && PrimFloat.ltb 20 (totalOrders metrics)
       && PrimFloat.ltb 0 (activeBundleCount metrics)
    then insights ++
      [[ ("id", Str "ai-disabled");
         ("type", Str "warning");
         ("priority", Int 2);
         ("title", Str "You have enough data for AI recommendations");
         ("message", Str ("With " ++ numberToString (totalOrders metrics) ++ " orders, AI can find winning product combinations automatically. Turn it on to save time.")%string);
         ("action", Obj [ ("label", Str "Enable AI");
                          ("url", Str "/admin/settings") ]);
         ("score", Int 77) ]]
    else insights in
  (* 9. First Sale Milestone *)
  let insights :=
    if PrimFloat.eqb (attributedOrders metrics) 1
       && PrimFloat.ltb (appInstalledDays metrics) 30
    then insights ++
      [[ ("id", Str "first-sale");
         ("type", Str "success");
         ("priority", Int 4);
         ("title", Str "First sale! ðŸŽ‰");
         ("message", Str "Your FBT offers just made their first sale. Keep testing different products and discounts to see what works best.");
         ("score", Int 70) ]]
    else insights in
  (* 10. Strong ROI *)
  let insights :=
    if PrimFloat.ltb 10 (roi metrics)
       && PrimFloat.ltb 100 (attributedRevenue metrics)
    then insights ++
      [[ ("id", Str "strong-roi");
         ("type", Str "success");
         ("priority", Int 4);
         ("title", Str (toFixed (roi metrics) 0 ++ "x return on investment")%string);
         ("message", Str ("For every dollar spent on Cart Uplift, you're making $" ++ toFixed (roi metrics) 0 ++ ". This is working really well.")%string);
         ("score", Int 65) ]]
    else insights in
  (* 11. High Click-Through Rate *)
  let insights :=
    if PrimFloat.ltb 5 (recCTR metrics)
       && PrimFloat.ltb 50 (recImpressions metrics)
    then insights ++
      [[ ("id", Str "high-ctr");
         ("type", Str "success");
         ("priority", Int 4);
         ("title", Str "Excellent click rate!");
         ("message", Str (toFixed (recCTR metrics) 1 ++ "% click rate is well above average. Your product pairings are resonating with customers.")%string);
         ("action", Obj [ ("label", Str "See top offers");
                          ("url", Str "/admin/bundles") ]);
         ("score", Int 68) ]]
    else insights in
  (* 12. Strong Conversion Rate *)
  let insights :=
    if PrimFloat.ltb 5 (conversionRate metrics)
       && PrimFloat.ltb 20 (recClicks metrics)
    then insights ++
      [[ ("id", Str "high-conversion");
         ("type", Str "success");
         ("priority", Int 4);
         ("title", Str "Great conversion rate");
         ("message", Str (toFixed (conversionRate metrics) 1 ++ "% of clicks turn into sales. Whatever you're doing, keep it up!")%string);
         ("score", Int 66) ]]
    else insights in
  (* 13. Getting Started *)
  let insights :=
    if PrimFloat.ltb (appInstalledDays metrics) 7
       && PrimFloat.ltb (recImpressions metrics) 10
    then insights ++
      [[ ("id", Str "getting-started");
         ("type", Str "info");
         ("priority", Int 5);
         ("title", Str "Getting started with Cart Uplift");
         ("message", Str "Add the FBT block to your product pages and cart. Most stores see their first sale within 3 days.");
         ("action", Obj [ ("label", Str "Setup guide");
                          ("url", Str "/admin/settings") ]);
         ("score", Int 60) ]]
    else insights in
  (* 14. ML Performance Improving *)
  let insights :=
    match lastMLUpdate metrics with
    | Some updated =>
        if PrimFloat.ltb 10 (mlPerformanceChange metrics)
        then
          let daysSinceUpdate :=
            floor (PrimFloat.div (PrimFloat.sub now updated)
                     (1000 * 60 * 60 * 24)%float) in
          if PrimFloat.ltb daysSinceUpdate 7
          then insights ++
            [[ ("id", Str "ml-improving");
               ("type", Str "info");
               ("priority", Int 5);
               ("title", Str "AI is learning and improving");
               ("message", Str ("Your click rate improved by " ++ toFixed (mlPerformanceChange metrics) 0 ++ "% this week as the AI learns what customers want.")%string);
               ("score", Int 55) ]]
          else insights
        else insights
    | None => insights
    end in
  insights.

(** Sort by score (highest first) and return top 4. *)
Definition generateInsights (metrics : DashboardMetrics) (now : float)
  : list object :=
  let insights := collectInsights metrics now in
  map rest (firstn 4 (sort (fun a b => score b - score a) insights)).

End Generate.


(** The comparator [(a, b) => key(b) - key(a)] and the order it sorts into. *)
Definition byKeyDescending {A : Type} (key : A -> Z) (a b : A) : Z :=
  key b - key a.

Definition descending {A : Type} (key : A -> Z) (a b : A) : Prop :=
  key a >= key b.

(** Every property name of [o] is among [names]. *)
Definition keysWithin (names : list string) (o : object) : bool :=
  forallb (fun kv => existsb (String.eqb (fst kv)) names) o.

(** What every pushed card looks like: its kind is one of the fourteen, its
    [score] is that kind's score, and it has no property besides [score]
    and those of [InsightCardProps]. *)
Definition scoredCard (o : object) : Prop :=
  In (cardKind o) kinds
  /\ (exists z, kindScore (cardKind o) = Some z /\ prop "score" o = Some (Int z))
  /\ keysWithin ("score" :: cardProps) o = true.

(** Sample metrics: a recently installed shop with nothing switched on, and
    stand-ins for the two number formatters. *)
Definition sampleMetrics : DashboardMetrics :=
  mkMetrics false false 10 25 0 0 1 0 200 0 1 0 false true 50 2 0
    (Some 0%float) 20.

Definition toFixedStub (x : float) (digits : Z) : string := "0".
Definition numberToStringStub (x : float) : string := "0".

End Insights.


(** ** Money formatting ([app/utils/formatters.ts]) *)

Module Formatters.
Import Js.

(** The argument is typed [number]; the body also accepts text. *)
Inductive amountArg : Type :=
| Number (x : float)
| Text (s : string).

Inductive Error : Type :=
| RangeError (message : string).

Inductive LogEvent : Type :=
| ConsoleWarn (text : string).

Definition isLetter (c : ascii) : bool :=
  let n := nat_of_ascii c in
  ((65 <=? n) && (n <=? 90) || (97 <=? n) && (n <=? 122))%nat.

(** ECMA-402 [IsWellFormedCurrencyCode]: three ASCII letters. *)
Definition isWellFormedCurrencyCode (code : string) : bool :=
  match list_ascii_of_string code with
  | [a; b; c] => isLetter a && isLetter b && isLetter c
  | _ => false
  end.

Section Format.

(** [parseFloat]; the text of a number in a template literal; and
    [Intl.NumberFormat('en-US', { style: 'currency', currency }).format]. *)
Variable parseFloat : string -> float.
Variable amountToString : amountArg -> string.
Variable formatCurrency : string -> float -> string.

(** [new Intl.NumberFormat('en-US', { style: 'currency', currency })]
    followed by [.format(x)]: the constructor rejects a currency code that is
    not well formed. *)
Definition numberFormat (currency : string) (x : float)
  : completion string Error :=
  if isWellFormedCurrencyCode currency
  then Return (formatCurrency currency x)
  else Throw (RangeError ("Invalid currency code : " ++ currency)%string).

(** [debugMode] is [process.env.DEBUG_MODE === 'true']; [currencyCode]
    defaults to ['USD']. *)
Definition formatMoney (debugMode : bool) (amount : amountArg)
    (currencyCode : string) : completion string Error * list LogEvent :=
  let numericAmount :=
    match amount with
    | Text s => parseFloat s
    | Number x => x
    end in
  if PrimFloat.is_nan numericAmount then
    let log :=
      if debugMode
      then [ConsoleWarn ("formatMoney received an invalid amount: "
                         ++ amountToString amount)%string]
      else [] in
    (numberFormat currencyCode 0%float, log)
  else (numberFormat currencyCode numericAmount, []).

End Format.

Definition defaultCurrencyCode : string := "USD".

(** Stand-ins for the three built-ins. *)
Definition parseFloatStub (s : string) : float := nan.
Definition amountToStringStub (a : amountArg) : string := "NaN".
Definition formatCurrencyStub (currency : string) (x : float) : string :=
  if PrimFloat.eqb x 0 then (currency ++ " 0.00")%string
  else (currency ++ " ...")%string.

End Formatters.


From Stdlib Require Import DecimalPos.

(** ** The other limiters of [app/utils/rateLimiter.server.ts]

    [rateLimitByIP], [rateLimitCron], [checkRequestSize] and
    [rateLimitRequest]. They share [rateLimitCache] with [rateLimit]. *)

Module RequestLimits.
Import Js RateLimiter.

(** *** Requests and their headers *)

(** A [Request] as far as the limiters look at it. [headerList] holds the
    header lines with their names in lower case, as [Headers] keeps them. *)
Record Request : Type := mkRequest {
  method : string;
  url : string;
  headerList : list (string * string)
}.

Fixpoint headerValues (name : string) (l : list (string * string)) : list string :=
  match l with
  | [] => []
  | (k, v) :: l' =>
      if String.eqb name k then v :: headerValues name l' else headerValues name l'
  end.

(** [request.headers.get(name)] for a lower-case [name]: [null] without
    such a header, else its values joined by a comma and a space. *)
Definition headersGet (request : Request) (name : string) : option string :=
  match headerValues name (headerList request) with
  | [] => None
  | values => Some (String.concat ", " values)
  end.

(** *** [parseInt(text, 10)]

    The characters of a header value are code units below 256.
    [readInteger] is the integer that the longest numeral at the start of
    the text denotes, if there is one, and [parseInt10] the number that
    [parseInt] returns for it: the nearest binary64 number, ties going to
    the even significand, an infinity beyond the largest binary64 number,
    and [NaN] without a numeral. (The language lets an implementation read
    the digits after the 20th as zeros; this is the rounding of the full
    numeral.) The sign of a zero is not kept. *)

(** A number whose value is an integer, an infinity or [NaN]. *)
Inductive number : Type :=
| Finite (z : Z)
| Infinite (negative : bool)
| NaN.

(** The binary64 number nearest to an integer. Up to [2 ^ 53] every
    integer is one; a larger one keeps its 53 leading bits, rounded. *)
Definition roundToDouble (z : Z) : number :=
  let m := Z.abs z in
  if m <? 2 ^ 53 then Finite z
  else
    let e := Z.log2 m - 52 in
    let q := m / 2 ^ e in
    let r := m mod 2 ^ e in
    let half := 2 ^ (e - 1) in
    let q := if (half <? r) || ((r =? half) && Z.odd q) then q + 1 else q in
    if 2 ^ 1024 <=? q * 2 ^ e
    then Infinite (z <? 0)
    else Finite (Z.sgn z * (q * 2 ^ e)).

(** [a > b] for a number [a] and an integer [b]. *)
Definition greater (a : number) (b : Z) : bool :=
  match a with
  | Finite z => b <? z
  | Infinite negative => negb negative
  | NaN => false
  end.

Definition isWhiteSpace (c : ascii) : bool :=
  let n := nat_of_ascii c in
  ((n =? 9) || (n =? 10) || (n =? 11) || (n =? 12) || (n =? 13)
   || (n =? 32) || (n =? 160))%nat.

Fixpoint skipWhiteSpace (s : string) : string :=
  match s with
  | String c s' => if isWhiteSpace c then skipWhiteSpace s' else s
  | "" => ""
  end.

Definition digitValue (c : ascii) : option Z :=
  let n := Z.of_nat (nat_of_ascii c) in
  if (48 <=? n) && (n <=? 57) then Some (n - 48) else None.

(** The longest prefix of decimal digits, read onto [acc]; [seen] tells
    whether a digit has been read. *)
Fixpoint readDigits (s : string) (acc : Z) (seen : bool) : option Z :=
  match s with
  | String c s' =>
      match digitValue c with
      | Some d => readDigits s' (10 * acc + d) true
      | None => if seen then Some acc else None
      end
  | "" => if seen then Some acc else None
  end.

Definition readInteger (text : string) : option Z :=
  match skipWhiteSpace text with
  | String "-" s => option_map Z.opp (readDigits s 0 false)
  | String "+" s => readDigits s 0 false
  | s => readDigits s 0 false
  end.

Definition parseInt10 (text : string) : number :=
  match readInteger text with
  | Some z => roundToDouble z
  | None => NaN
  end.

(** *** [checkRequestSize] *)

Definition defaultMaxSize : Z := 10 * 1024 * 1024.

Section WithText.

(** The text of a number in a template literal. *)
Variable numberToString : number -> string.

(** The outcome and what is written to the console. [maxSize] is a number
    with an integer value, given by that value; a [NaN] size is not greater
    than it. *)
Definition checkRequestSize (request : Request) (maxSize : Z)
  : completion unit Response * list LogEvent :=
  let contentLength := headersGet request "content-length" in
  match contentLength with
  | None => (Return tt, [])
  | Some "" => (Return tt, [])
  | Some contentLength =>
      let size := parseInt10 contentLength in
      if greater size maxSize then
        (Throw (mkResponse "Payload Too Large" 413
                  [("Content-Type", "application/json")]),
         [ConsoleWarn ("[Request Size] Rejected large request: "
                       ++ numberToString size ++ " bytes (max: "
                       ++ numberToString (Finite maxSize) ++ ")")%string])
      else (Return tt, [])
  end.

End WithText.

(** *** [rateLimitByIP] and [rateLimitCron] *)

(** What [rateLimitCron] writes with [console.error]. *)
Definition ConsoleError : Type := string.

Definition defaultIPLimit : Z := 10.
Definition defaultCronLimit : Z := 10.

(** Rate limit by IP address: one counter per minute. The bucket is shared
    with the cache as in [rateLimit]. *)
Definition rateLimitByIP (now : Z) (ip : string) (limit : Z) (st : State)
  : completion unit Response * State :=
  let key := ("rate-limit-ip:" ++ ip)%string in
  let window := 60 * 1000 in
  let (hit, cache) := LRU.get (rateLimitCache st) now key in
  let stored := match hit with Some _ => true | None => false end in
  let bucket :=
    match hit with
    | Some b => b
    | None => mkBucket 0 now 0 (now + window)
    end in
  let bucket :=
    if sustainedReset bucket <=? now
    then mkBucket (burstCount bucket) (burstReset bucket) 0 (now + window)
    else bucket in
  let cache := if stored then LRU.mutate cache key bucket else cache in
  if limit <=? sustainedCount bucket then
    (Throw (mkResponse "Too Many Requests from IP" 429
              [("Retry-After", "60")]),
     mkState cache (highUsageLog st)
       (RateLimitExceeded "unknown" ip "ip-limit" :: journal st))
  else
    let bucket :=
      mkBucket (burstCount bucket) (burstReset bucket)
        (sustainedCount bucket + 1) (sustainedReset bucket) in
    let cache := LRU.set cache now key bucket in
    (Return tt, mkState cache (highUsageLog st) (journal st)).

(** Rate limit for cron jobs, per endpoint: one counter per hour. *)
Definition rateLimitCron (now : Z) (endpoint : string) (limit : Z) (st : State)
  : completion unit Response * State * list ConsoleError :=
  let key := ("rate-limit-cron:" ++ endpoint)%string in
  let window := 60 * 60 * 1000 in
  let (hit, cache) := LRU.get (rateLimitCache st) now key in
  let stored := match hit with Some _ => true | None => false end in
  let bucket :=
    match hit with
    | Some b => b
    | None => mkBucket 0 now 0 (now + window)
    end in
  let bucket :=
    if sustainedReset bucket <=? now
    then mkBucket (burstCount bucket) (burstReset bucket) 0 (now + window)
    else bucket in
  let cache := if stored then LRU.mutate cache key bucket else cache in
  if limit <=? sustainedCount bucket then
    (Throw (mkResponse "Cron job rate limit exceeded" 429
              [("Retry-After",
                 toString (ceilDiv1000 (sustainedReset bucket - now)))]),
     mkState cache (highUsageLog st) (journal st),
     [("[Cron Rate Limit] Endpoint " ++ endpoint ++ " exceeded limit: "
       ++ toString limit ++ " runs/hour")%string])
  else
    let bucket :=
      mkBucket (burstCount bucket) (burstReset bucket)
        (sustainedCount bucket + 1) (sustainedReset bucket) in
    let cache := LRU.set cache now key bucket in
    (Return tt, mkState cache (highUsageLog st) (journal st), []).

(** *** [rateLimitRequest] *)

(** The [options] argument; an absent property is [None]. *)
Record Options : Type := mkOptions {
  sustainedLimit : option Z;
  burstLimit : option Z;
  maxRequests : option Z;
  burstMax : option Z;
  maxSize : option Z
}.

Definition noOptions : Options := mkOptions None None None None None.

(** [a ?? b]. *)
Definition orElse {A : Type} (a : option A) (b : A) : A :=
  match a with
  | Some x => x
  | None => b
  end.

Section WithDate.
Variable numberToString : number -> string.
Variable toISOString : Z -> string.

(** Size check first, then the shop's rate limit. What [checkRequestSize]
    writes to the console goes to the journal. *)
Definition rateLimitRequest (now : Z) (request : Request) (shop : string)
    (options : Options) (st : State) : completion RateInfo Response * State :=
  let maxSize := orElse (maxSize options) (10 * 1024 * 1024) in
  let sustained :=
    orElse (sustainedLimit options) (orElse (maxRequests options) 100) in
  let burst := orElse (burstLimit options) (orElse (burstMax options) 40) in
  match checkRequestSize numberToString request maxSize with
  | (Throw response, written) =>
      (Throw response,
       mkState (rateLimitCache st) (highUsageLog st) (written ++ journal st))
  | (Return _, _) => rateLimit toISOString now shop sustained burst st
  end.

End WithDate.

(** *** Vocabulary for the statements *)

(** The value of the decimal digits [d] read onto [acc]. *)
Fixpoint decimalValue (d : Decimal.uint) (acc : Z) : Z :=
  match d with
  | Decimal.Nil => acc
  | Decimal.D0 d' => decimalValue d' (10 * acc)
  | Decimal.D1 d' => decimalValue d' (10 * acc + 1)
  | Decimal.D2 d' => decimalValue d' (10 * acc + 2)
  | Decimal.D3 d' => decimalValue d' (10 * acc + 3)
  | Decimal.D4 d' => decimalValue d' (10 * acc + 4)
  | Decimal.D5 d' => decimalValue d' (10 * acc + 5)
  | Decimal.D6 d' => decimalValue d' (10 * acc + 6)
  | Decimal.D7 d' => decimalValue d' (10 * acc + 7)
  | Decimal.D8 d' => decimalValue d' (10 * acc + 8)
  | Decimal.D9 d' => decimalValue d' (10 * acc + 9)
  end.

(** A request whose only header is [Content-Length: text]. *)
Definition withContentLength (text : string) : Request :=
  mkRequest "POST" "https://app.example/api" [("content-length", text)].

(** The size a request declares, as [parseInt] reads it; [NaN] without a
    [Content-Length]. *)
Definition declaredSize (request : Request) : number :=
  match headersGet request "content-length" with
  | Some text => parseInt10 text
  | None => NaN
  end.

(** The integer, infinity or [NaN] that a binary64 number of the Standard
    Library is, to compare [roundToDouble] with its rounding. *)
Definition valueOf (x : float) : number :=
  match Prim2SF x with
  | S754_zero _ => Finite 0
  | S754_infinity negative => Infinite negative
  | S754_nan => NaN
  | S754_finite negative m e =>
      Finite ((if negative then -1 else 1)
              * (if 0 <=? e then Z.pos m * 2 ^ e else Z.pos m / 2 ^ (- e)))
  end.

Definition sampleIntegers : list Z :=
  [ 0; 1; -1; 10485760; 2 ^ 53 - 1; 2 ^ 53; 2 ^ 53 + 1; 2 ^ 53 + 2;
    2 ^ 53 + 3; 2 ^ 53 + 5; 2 ^ 54 + 2; 2 ^ 54 + 6; 2 ^ 54 + 7;
    - (2 ^ 53 + 1); - (2 ^ 53 + 3); 10 ^ 17 + 1; 10 ^ 20 + 12345; 10 ^ 22;
    10 ^ 23; 3 * 10 ^ 30 + 7; 10 ^ 100; 10 ^ 308;
    2 ^ 1024 - 2 ^ 970 - 1; 2 ^ 1024 - 2 ^ 970; 2 ^ 1024 - 2 ^ 971; 2 ^ 1024;
    2 * 10 ^ 308; - (2 * 10 ^ 308) ].

(** A stand-in for the text of a number: the digits of a finite one. *)
Definition numberToStringStub (x : number) : string :=
  match x with
  | Finite z => toString z
  | Infinite negative => if negative then "-Infinity" else "Infinity"
  | NaN => "NaN"
  end.

(** The sustained counter a call under key [k] sees at [now], with a window
    of [window] milliseconds and [burstReset] set to [now] in a new bucket. *)
Definition currentSingle (window : Z) (c : LRU.t BurstBucket) (now : Z)
    (k : string) : BurstBucket :=
  let b :=
    match live c now k with
    | Some b => b
    | None => mkBucket 0 now 0 (now + window)
    end in
  if sustainedReset b <=? now
  then mkBucket (burstCount b) (burstReset b) 0 (now + window)
  else b.

Definition bumpSustained (b : BurstBucket) : BurstBucket :=
  mkBucket (burstCount b) (burstReset b)
    (sustainedCount b + 1) (sustainedReset b).

(** The cache after a call of a one-counter limiter under key [k]. *)
Definition singleAfter (window now : Z) (k : string) (limit : Z)
    (c : LRU.t BurstBucket) : LRU.t BurstBucket :=
  let b := currentSingle window c now k in
  let c1 := snd (LRU.get c now k) in
  let c2 :=
    match live c now k with
    | Some _ => LRU.mutate c1 k b
    | None => c1
    end in
  if limit <=? sustainedCount b then c2
  else LRU.set c2 now k (bumpSustained b).

(** The stored counters of key [k], if any, are within the limits. *)
Definition withinLimits (sustainedLimit burstLimit : Z)
    (c : LRU.t BurstBucket) (k : string) : Prop :=
  match LRU.find k (LRU.entries c) with
  | Some e =>
      burstCount (LRU.e_val e) <= burstLimit
      /\ sustainedCount (LRU.e_val e) <= sustainedLimit
  | None => True
  end.

(** The bucket of key [k], if stored, was stored at or before [last], in
    a cache that keeps entries for 60 s. *)
Definition storedBy (c : LRU.t BurstBucket) (k : string) (last : Z) : Prop :=
  LRU.ttl c = 60000 /\
  match LRU.find k (LRU.entries c) with
  | Some e => LRU.e_start e <= last
  | None => True
  end.

(** Replaying cron calls for one endpoint: the final state and the times of
    the runs that were let through, newest first. *)
Fixpoint replayCron (endpoint : string) (limit : Z) (times : list Z)
    (st : State) (granted : list Z) : State * list Z :=
  match times with
  | [] => (st, granted)
  | now :: later =>
      match rateLimitCron now endpoint limit st with
      | (Return _, st', _) => replayCron endpoint limit later st' (now :: granted)
      | (Throw _, st', _) => replayCron endpoint limit later st' granted
      end
  end.

(** Times that are each more than [gap] after the one before. *)
Fixpoint spaced (gap last : Z) (times : list Z) : Prop :=
  match times with
  | [] => True
  | t :: later => last + gap < t /\ spaced gap t later
  end.

End RequestLimits.

(** ** Runs of limiter calls

    Vocabulary for what the counters of [rateLimit] count: runs of calls of
    the three limiters that share [rateLimitCache], for any shops, addresses
    and endpoints, and the requests that [rateLimit] let through. *)

Module Traffic.
Import Js RateLimiter RequestLimits.

(** One call of a limiter. *)
Inductive Call : Type :=
| ForShop (shop : string) (sustainedLimit burstLimit : Z)
| ForIP (ip : string) (limit : Z)
| ForCron (endpoint : string) (limit : Z).

Definition keyOf (call : Call) : string :=
  match call with
  | ForShop shop _ _ => shopKey shop
  | ForIP ip _ => ipKey ip
  | ForCron endpoint _ => cronKey endpoint
  end.

(** A request that [rateLimit] let through: its time, its shop, and the
    reset times of the two windows it was counted in, which are those of
    the bucket that the call stored. *)
Record Grant : Type := mkGrant {
  when : Z;
  shopOf : string;
  burstEnd : Z;
  sustainedEnd : Z
}.

Section WithDate.
Variable toISOString : Z -> string.

(** One call at [now]: the state after it and the grants so far, newest
    first. *)
Definition perform (now : Z) (call : Call) (st : State) (grants : list Grant)
  : State * list Grant :=
  match call with
  | ForShop shop sustainedLimit burstLimit =>
      match rateLimit toISOString now shop sustainedLimit burstLimit st with
      | (Return _, st') =>
          match LRU.peek (rateLimitCache st') (shopKey shop) with
          | Some b =>
              (st', mkGrant now shop (burstReset b) (sustainedReset b) :: grants)
          | None => (st', mkGrant now shop now now :: grants)
          end
      | (Throw _, st') => (st', grants)
      end
  | ForIP ip limit => (snd (rateLimitByIP now ip limit st), grants)
  | ForCron endpoint limit =>
      (snd (fst (rateLimitCron now endpoint limit st)), grants)
  end.

(** A run of calls, each with its time. *)
Fixpoint serve (calls : list (Z * Call)) (st : State) (grants : list Grant)
  : State * list Grant :=
  match calls with
  | [] => (st, grants)
  | (now, call) :: later =>
      let (st', grants') := perform now call st grants in
      serve later st' grants'
  end.

(** No call of the run has to evict the bucket of [shop]: each call under
    another key finds its own key stored, or the cache below its maximum,
    or a key other than the shop's least recently used. *)
Fixpoint spared (shop : string) (calls : list (Z * Call)) (st : State) : Prop :=
  match calls with
  | [] => True
  | (now, call) :: later =>
      (keyOf call = shopKey shop
       \/ LRU.peek (rateLimitCache st) (keyOf call) <> None
       \/ (List.length (LRU.entries (rateLimitCache st))
           < LRU.max (rateLimitCache st))%nat
       \/ LRU.lruKey (rateLimitCache st) <> Some (shopKey shop))
      /\ spared shop later (fst (perform now call st []))
  end.

End WithDate.

(** The grants of a shop. *)
Definition grantsOf (shop : string) (grants : list Grant) : list Grant :=
  filter (fun g => String.eqb (shopOf g) shop) grants.

(** How many of the grants satisfy a test. *)
Definition count (test : Grant -> bool) (grants : list Grant) : Z :=
  Z.of_nat (List.length (filter test grants)).

(** The grant's burst window, or its sustained window, is still open at
    [now]. *)
Definition burstOpen (now : Z) (g : Grant) : bool := now <? burstEnd g.
Definition sustainedOpen (now : Z) (g : Grant) : bool := now <? sustainedEnd g.

(** Two windows of length [window], given by their ends, are the same or
    do not overlap. *)
Definition apart (window end1 end2 : Z) : Prop :=
  end1 = end2 \/ end1 + window <= end2 \/ end2 + window <= end1.

(** What a call for [shop] at [now] sees of the grants [mine] of the shop:
    the counters [b] count the grants whose window is the current one, and
    the window of every other grant ended before the current one
    opened. *)
Definition views (b : BurstBucket) (mine : list Grant) (now : Z) : Prop :=
  burstCount b = count (fun g => burstEnd g =? burstReset b) mine
  /\ sustainedCount b
     = count (fun g => sustainedEnd g =? sustainedReset b) mine
  /\ (forall g, In g mine ->
        (burstEnd g = burstReset b \/ burstEnd g + 10000 <= burstReset b)
        /\ (sustainedEnd g = sustainedReset b
            \/ sustainedEnd g + 60000 <= sustainedReset b)
        /\ when g <= now)
  /\ now < burstReset b <= now + 10000
  /\ now < sustainedReset b <= now + 60000.

(** The bookkeeping behind the counters of one shop, whose grants are
    [mine]: every grant lies in windows that end at most a window length
    after it, two windows of the shop are the same or apart, and the stored
    bucket, if any, counts the grants of its own windows; without a stored
    bucket all windows are over. [last] is the time of the latest call. *)
Definition follows (c : LRU.t BurstBucket) (key : string)
    (mine : list Grant) (last : Z) : Prop :=
  LRU.ttl c = 60000
  /\ (0 < LRU.max c)%nat
  /\ (List.length (LRU.entries c) <= LRU.max c)%nat
  /\ (forall g, In g mine ->
        when g < burstEnd g <= when g + 10000
        /\ when g < sustainedEnd g <= when g + 60000
        /\ when g <= last)
  /\ (forall g g', In g mine -> In g' mine ->
        apart 10000 (burstEnd g) (burstEnd g')
        /\ apart 60000 (sustainedEnd g) (sustainedEnd g'))
  /\ match LRU.find key (LRU.entries c) with
     | None =>
         forall g, In g mine -> burstEnd g <= last /\ sustainedEnd g <= last
     | Some e =>
         let b := LRU.e_val e in
         burstCount b = count (fun g => burstEnd g =? burstReset b) mine
         /\ sustainedCount b
            = count (fun g => sustainedEnd g =? sustainedReset b) mine
         /\ (forall g, In g mine ->
               (burstEnd g = burstReset b
                \/ burstEnd g + 10000 <= burstReset b)
               /\ (sustainedEnd g = sustainedReset b
                   \/ sustainedEnd g + 60000 <= sustainedReset b)
               /\ when g <= LRU.e_start e)
         /\ LRU.e_start e <= last
         /\ burstReset b <= last + 10000
         /\ sustainedReset b <= last + 60000
     end.

(** The call is a call of [rateLimit] for [shop]. *)
Definition isFor (shop : string) (call : Call) : bool :=
  match call with
  | ForShop shop' _ _ => String.eqb shop' shop
  | _ => false
  end.

(** The times of the calls of [rateLimit] for [shop] in a run. *)
Definition callsFor (shop : string) (calls : list (Z * Call)) : list Z :=
  map fst (filter (fun c => isFor shop (snd c)) calls).

(** Every window of the shop, of a grant or of the stored bucket, opened at
    one of the times [seen]. *)
Definition opened (c : LRU.t BurstBucket) (key : string)
    (mine : list Grant) (seen : list Z) : Prop :=
  (forall g, In g mine ->
     In (burstEnd g - 10000) seen /\ In (sustainedEnd g - 60000) seen)
  /\ match LRU.find key (LRU.entries c) with
     | Some e =>
         In (burstReset (LRU.e_val e) - 10000) seen
         /\ In (sustainedReset (LRU.e_val e) - 60000) seen
     | None => True
     end.

(** A run in which three shops, an address and a cron endpoint take
    turns. *)
Definition mixedRun : list (Z * Call) :=
  [ (0, ForShop "a" 100 2); (1000, ForShop "b" 100 40); (2000, ForIP "10.0.0.1" 10);
    (3000, ForShop "a" 100 2); (4000, ForShop "a" 100 2);
    (5000, ForCron "/api/cron/daily" 1); (9000, ForShop "c" 100 40);
    (10000, ForShop "a" 100 2) ].

End Traffic.

(** ** Environment validation ([app/utils/env.server.ts])

    [process.env] is a function from names to values, [None] for a variable
    that is not set. Values are sequences of code units below 256, so that
    [length] and [substring] count as in the source. *)

Module Env.
Import Js.

Definition ProcessEnv : Type := string -> option string.

(** A line feed, [\n] in the source. *)
Definition nl : string := String (ascii_of_nat 10) "".

(** A text between double quotes. *)
Definition quoted (text : string) : string :=
  (String (ascii_of_nat 34) text ++ String (ascii_of_nat 34) "")%string.

(** [s.startsWith(p)] and [s.includes(sub)]. *)
Definition startsWith (s p : string) : bool := String.prefix p s.

Fixpoint includes (s sub : string) : bool :=
  String.prefix sub s
  || match s with
     | String _ s' => includes s' sub
     | "" => false
     end.

(** [text.repeat(n)]. *)
Fixpoint repeatText (text : string) (n : nat) : string :=
  match n with
  | O => ""
  | S n' => (text ++ repeatText text n')%string
  end.

(** Truthiness of [process.env[key]]: set and not empty. *)
Definition truthy (value : option string) : bool :=
  match value with
  | Some (String _ _) => true
  | _ => false
  end.

Record EnvVar : Type := mkEnvVar {
  key : string;
  required : bool;
  description : string;
  validation : option (string -> bool);
  errorMessage : option string
}.

Definition ENV_VARS : list EnvVar :=
  [ (* Shopify Configuration (REQUIRED) *)
    mkEnvVar "SHOPIFY_API_KEY" true "Shopify App Client ID"
      (Some (fun v => (0 <? String.length v)%nat))
      (Some "Must be a valid Shopify API key");
    mkEnvVar "SHOPIFY_API_SECRET" true "Shopify App Client Secret"
      (Some (fun v => (0 <? String.length v)%nat))
      (Some "Must be a valid Shopify API secret");
    mkEnvVar "SHOPIFY_APP_URL" true "Public URL where app is hosted"
      (Some (fun v => startsWith v "http://" || startsWith v "https://"))
      (Some "Must be a valid URL starting with http:// or https://");
    mkEnvVar "SCOPES" true "Shopify API scopes (comma-separated)"
      (Some (fun v => includes v "read_orders" && includes v "read_products"))
      (Some "Must include at least read_orders,read_products");
    (* Database Configuration (REQUIRED) *)
    mkEnvVar "DATABASE_URL" true "PostgreSQL database connection string"
      (Some (fun v => startsWith v "postgres://" || startsWith v "postgresql://"))
      (Some "Must be a valid PostgreSQL connection string");
    (* Session/Security (REQUIRED) *)
    mkEnvVar "SESSION_SECRET" true "Secret key for session encryption"
      (Some (fun v => (32 <=? String.length v)%nat))
      (Some "Must be at least 32 characters long for security");
    (* Optional Services *)
    mkEnvVar "RESEND_API_KEY" false
      "Resend API key for email notifications (optional)" None None;
    mkEnvVar "CRON_SECRET" false
      "Secret for authenticating cron job requests (recommended for production)"
      None None;
    mkEnvVar "ADMIN_SECRET" false
      "Secret for admin-only API endpoints (recommended for production)"
      None None;
    mkEnvVar "MIGRATION_SECRET" false
      "Secret for database migration endpoints (recommended for production)"
      None None;
    (* Optional Configuration *)
    mkEnvVar "NODE_ENV" false
      "Environment mode (development, production, test)"
      (Some (fun v => existsb (String.eqb v) ["development"; "production"; "test"]))
      (Some "Must be one of: development, production, test");
    mkEnvVar "DEBUG_MODE" false "Enable debug logging (true/false)"
      (Some (fun v => String.eqb v "true" || String.eqb v "false"))
      (Some ("Must be either " ++ quoted "true" ++ " or " ++ quoted "false")%string);
    mkEnvVar "LOG_FORMAT" false "Log output format (json/text)"
      (Some (fun v => String.eqb v "json" || String.eqb v "text"))
      (Some ("Must be either " ++ quoted "json" ++ " or " ++ quoted "text")%string);
    mkEnvVar "SHOP_CUSTOM_DOMAIN" false
      "Custom shop domain if not using .myshopify.com" None None ].

Record ValidationResult : Type := mkResult {
  valid : bool;
  errors : list string;
  warnings : list string;
  missing : list string
}.

(** One turn of the [for] loop of [validateEnv] on the three arrays. *)
Definition validateOne (env : ProcessEnv)
    (arrays : list string * list string * list string) (envVar : EnvVar)
  : list string * list string * list string :=
  let '(errors, warnings, missing) := arrays in
  let value := env (key envVar) in
  if required envVar && negb (truthy value) then
    (errors ++ [("❌ Missing required environment variable: " ++ key envVar
                 ++ nl ++ "   Description: " ++ description envVar)%string],
     warnings,
     missing ++ [key envVar])
  else if negb (required envVar) && negb (truthy value) then
    (errors,
     warnings ++ [("⚠️  Optional environment variable not set: "
                   ++ key envVar ++ nl ++ "   Description: "
                   ++ description envVar)%string],
     missing)
  else
    match value, validation envVar with
    | Some (String c s), Some validate =>
        if negb (validate (String c s)) then
          (errors ++ [("❌ Invalid value for " ++ key envVar ++ ": "
                       ++ match errorMessage envVar with
                          | Some (String c' s') => String c' s'
                          | _ => "Validation failed"
                          end
                       ++ nl ++ "   Current value: "
                       ++ String.substring 0 20 (String c s) ++ "...")%string],
           warnings, missing)
        else arrays
    | _, _ => arrays
    end.

(** Validate all environment variables. *)
Definition validateEnv (env : ProcessEnv) : ValidationResult :=
  let '(errors, warnings, missing) :=
    fold_left (validateOne env) ENV_VARS ([], [], []) in
  mkResult (Nat.eqb (List.length errors) 0) errors warnings missing.

Inductive ConsoleLine : Type :=
| ConsoleLog (text : string)
| ConsoleWarn (text : string)
| ConsoleError (text : string).

(** Validate environment and throw if invalid; the thrown [Error] is given
    by its message. *)
Definition validateEnvOrThrow (env : ProcessEnv)
  : completion unit string * list ConsoleLine :=
  let result := validateEnv env in
  let written :=
    if (0 <? List.length (warnings result))%nat
    then [ConsoleWarn (nl ++ "🟡 Environment Variable Warnings:")%string]
         ++ map ConsoleWarn (warnings result) ++ [ConsoleWarn ""]
    else [] in
  if negb (valid result) then
    (Throw ("Missing required environment variables: "
            ++ String.concat ", " (missing result))%string,
     written
     ++ [ConsoleError (nl ++ "🔴 Environment Variable Validation Failed:")%string;
         ConsoleError (repeatText "=" 60)]
     ++ map ConsoleError (errors result)
     ++ [ConsoleError (repeatText "=" 60);
         ConsoleError (nl ++ "💡 How to fix:")%string;
         ConsoleError "   1. Copy .env.example to .env (if it exists)";
         ConsoleError "   2. Fill in all required variables in .env";
         ConsoleError "   3. For production, set these in your hosting platform (Vercel, etc.)";
         ConsoleError ""])
  else
    (Return tt,
     if match env "NODE_ENV" with
        | Some v => String.eqb v "development"
        | None => false
        end
     then written ++ [ConsoleLog "✅ Environment variables validated successfully"]
     else written).

(** Get a required environment variable (throws if missing). *)
Definition getRequiredEnv (env : ProcessEnv) (key : string)
  : completion string string :=
  match env key with
  | Some (String c s) => Return (String c s)
  | _ =>
      Throw ("Missing required environment variable: " ++ key ++ nl
             ++ "This should have been caught by validateEnvOrThrow(). "
             ++ "Make sure to call validateEnvOrThrow() at app startup.")%string
  end.

(** Get an optional environment variable with fallback ([''] by default). *)
Definition getOptionalEnv (env : ProcessEnv) (key fallback : string) : string :=
  match env key with
  | Some (String c s) => String c s
  | _ => fallback
  end.

(** The getters of the [env] object. *)
Definition shopifyApiKey (env : ProcessEnv) := getRequiredEnv env "SHOPIFY_API_KEY".
Definition shopifyApiSecret (env : ProcessEnv) := getRequiredEnv env "SHOPIFY_API_SECRET".
Definition shopifyAppUrl (env : ProcessEnv) := getRequiredEnv env "SHOPIFY_APP_URL".
Definition scopes (env : ProcessEnv) := getRequiredEnv env "SCOPES".
Definition databaseUrl (env : ProcessEnv) := getRequiredEnv env "DATABASE_URL".
Definition sessionSecret (env : ProcessEnv) := getRequiredEnv env "SESSION_SECRET".
Definition cronSecret (env : ProcessEnv) := getOptionalEnv env "CRON_SECRET" "".
Definition adminSecret (env : ProcessEnv) := getOptionalEnv env "ADMIN_SECRET" "".
Definition migrationSecret (env : ProcessEnv) := getOptionalEnv env "MIGRATION_SECRET" "".
Definition resendApiKey (env : ProcessEnv) := getOptionalEnv env "RESEND_API_KEY" "".
Definition nodeEnv (env : ProcessEnv) := getOptionalEnv env "NODE_ENV" "development".
Definition debugMode (env : ProcessEnv) :=
  String.eqb (getOptionalEnv env "DEBUG_MODE" "false") "true".
Definition logFormat (env : ProcessEnv) := getOptionalEnv env "LOG_FORMAT" "text".
Definition shopCustomDomain (env : ProcessEnv) := getOptionalEnv env "SHOP_CUSTOM_DOMAIN" "".
Definition isProduction (env : ProcessEnv) := String.eqb (nodeEnv env) "production".
Definition isDevelopment (env : ProcessEnv) := String.eqb (nodeEnv env) "development".
Definition isTest (env : ProcessEnv) := String.eqb (nodeEnv env) "test".

(** *** Vocabulary for the statements *)

(** What one variable adds to each of the three arrays. *)
Definition verdict (env : ProcessEnv) (envVar : EnvVar)
  : list string * list string * list string :=
  validateOne env ([], [], []) envVar.

Definition errorsOf (env : ProcessEnv) (envVar : EnvVar) : list string :=
  fst (fst (verdict env envVar)).
Definition warningsOf (env : ProcessEnv) (envVar : EnvVar) : list string :=
  snd (fst (verdict env envVar)).
Definition missingOf (env : ProcessEnv) (envVar : EnvVar) : list string :=
  snd (verdict env envVar).

(** The variable is set to a non-empty value that satisfies [test]. *)
Definition setTo (env : ProcessEnv) (name : string) (test : string -> bool)
  : Prop :=
  exists value, env name = Some value /\ value <> "" /\ test value = true.

(** The variable is not set, or empty, or satisfies [test]. *)
Definition unsetOr (env : ProcessEnv) (name : string) (test : string -> bool)
  : Prop :=
  truthy (env name) = false
  \/ exists value, env name = Some value /\ test value = true.

Definition requiredKeys : list string :=
  [ "SHOPIFY_API_KEY"; "SHOPIFY_API_SECRET"; "SHOPIFY_APP_URL"; "SCOPES";
    "DATABASE_URL"; "SESSION_SECRET" ].

Definition optionalKeys : list string :=
  [ "RESEND_API_KEY"; "CRON_SECRET"; "ADMIN_SECRET"; "MIGRATION_SECRET";
    "NODE_ENV"; "DEBUG_MODE"; "LOG_FORMAT"; "SHOP_CUSTOM_DOMAIN" ].

(** The variable is not set, or set to the empty text. *)
Definition unset (env : ProcessEnv) (name : string) : bool :=
  negb (truthy (env name)).

(** The variable is set, has a validation function and fails it. *)
Definition rejected (env : ProcessEnv) (envVar : EnvVar) : bool :=
  match env (key envVar), validation envVar with
  | Some (String c s), Some validate => negb (validate (String c s))
  | _, _ => false
  end.

(** An environment given by a list of bindings, the first one for a name
    counting. *)
Fixpoint envOf (bindings : list (string * string)) : ProcessEnv :=
  fun name =>
    match bindings with
    | [] => None
    | (k, v) :: rest => if String.eqb name k then Some v else envOf rest name
    end.

Definition goodBindings : list (string * string) :=
  [ ("SHOPIFY_API_KEY", "0123456789abcdef");
    ("SHOPIFY_API_SECRET", "shpss_0123456789abcdef");
    ("SHOPIFY_APP_URL", "https://app.example.com");
    ("SCOPES", "read_orders,read_products,write_products");
    ("DATABASE_URL", "postgresql://user:pw@db.example.com:5432/app");
    ("SESSION_SECRET", "0123456789abcdef0123456789abcdef") ].

(** The same with a session secret of nine characters. *)
Definition shortSecret : ProcessEnv :=
  envOf (("SESSION_SECRET", "too short") :: goodBindings).

End Env.

(** ** Schema feature detection ([app/utils/db-migration.server.ts])

    The database is outside the program: each Prisma call is written to a
    list of queries and resolves or rejects as the record [Db] says. Each
    place of the source that reads the clock has a reading of its own. *)

Module DbMigration.
Import Js.

(** *** [featureCache], a [Map] from feature names to cached answers *)

Record Cached : Type := mkCached {
  value : bool;
  timestamp : Z
}.

Definition FeatureCache : Type := list (string * Cached).

Fixpoint mapGet (name : string) (m : FeatureCache) : option Cached :=
  match m with
  | [] => None
  | (k, c) :: m' => if String.eqb name k then Some c else mapGet name m'
  end.

Fixpoint mapSet (name : string) (c : Cached) (m : FeatureCache) : FeatureCache :=
  match m with
  | [] => [(name, c)]
  | (k, c') :: m' =>
      if String.eqb name k then (k, c) :: m' else (k, c') :: mapSet name c m'
  end.

Definition emptyCache : FeatureCache := [].

Definition CACHE_TTL : Z := 60000.

(** *** Objects handed to Prisma *)

Inductive Datum : Type :=
| Flag (b : bool)
| Date (t : Z)
| Text (s : string).

Definition Data : Type := list (string * Datum).

Fixpoint field (name : string) (o : Data) : option Datum :=
  match o with
  | [] => None
  | (k, d) :: o' => if String.eqb name k then Some d else field name o'
  end.

(** [o[name] = d]. *)
Fixpoint assign (name : string) (d : Datum) (o : Data) : Data :=
  match o with
  | [] => [(name, d)]
  | (k, d') :: o' =>
      if String.eqb name k then (k, d) :: o' else (k, d') :: assign name d o'
  end.

(** [{ ...o, ...more }]. *)
Definition spread (o more : Data) : Data :=
  fold_left (fun acc kd => assign (fst kd) (snd kd) acc) more o.

(** Truthiness of [o[name]]. *)
Definition isSet (name : string) (o : Data) : bool :=
  match field name o with
  | Some (Flag b) => b
  | Some (Date _) => true
  | Some (Text (String _ _)) => true
  | _ => false
  end.

(** [QueryRaw column table] is the raw query that selects [column] from
    [table] with [LIMIT 1]. *)
Inductive Query : Type :=
| QueryRaw (column table : string)
| FindUnique (shop : string) (select : option (list string))
| Upsert (shop : string) (update create : Data).

Definition probeOnboardingCompleted : Query :=
  QueryRaw "onboardingCompleted" "Settings".

(** A row of the Settings table as far as the code reads it: the
    truthiness of the four step fields. *)
Record Row : Type := mkRow {
  onboardingStepThemeEditor : bool;
  onboardingStepRecommendations : bool;
  onboardingStepFirstBundle : bool;
  onboardingStepPreview : bool
}.

Section WithDatabase.

(** What a rejected query rejects with. *)
Variable E : Type.

Record Db : Type := mkDb {
  queryRaw : completion unit E;
  findUnique : string -> option (list string) -> completion (option Row) E;
  upsert : string -> Data -> Data -> completion unit E
}.

(** Check if onboarding fields exist in the Settings table. [checkedAt] is
    [Date.now()] in the test of the cached answer, [storedAt] is
    [Date.now()] when the answer of the query is cached. *)
Definition hasOnboardingFields (checkedAt storedAt : Z)
    (probe : completion unit E) (featureCache : FeatureCache)
  : bool * FeatureCache * list Query :=
  let cacheKey := "onboarding_fields" in
  let asked :=
    match probe with
    | Return _ =>
        (true, mapSet cacheKey (mkCached true storedAt) featureCache,
         [probeOnboardingCompleted])
    | Throw _ =>
        (false, mapSet cacheKey (mkCached false storedAt) featureCache,
         [probeOnboardingCompleted])
    end in
  match mapGet cacheKey featureCache with
  | Some cached =>
      if checkedAt - timestamp cached <? CACHE_TTL
      then (value cached, featureCache, [])
      else asked
  | None => asked
  end.

Definition fullSelect : list string :=
  [ "appEmbedActivated"; "appEmbedActivatedAt"; "enableRecommendations";
    "enableMLRecommendations"; "onboardingCompleted"; "onboardingDismissed";
    "onboardingStepThemeEditor"; "onboardingStepRecommendations";
    "onboardingStepFirstBundle"; "onboardingStepPreview" ].

Definition basicSelect : list string :=
  [ "appEmbedActivated"; "appEmbedActivatedAt"; "enableRecommendations";
    "enableMLRecommendations" ].

(** Safely query Settings with onboarding fields. *)
Definition getSettingsWithOnboarding (checkedAt storedAt : Z) (db : Db)
    (shop : string) (featureCache : FeatureCache)
  : completion (option Row) E * FeatureCache * list Query :=
  let '(hasOnboarding, featureCache, asked) :=
    hasOnboardingFields checkedAt storedAt (queryRaw db) featureCache in
  if hasOnboarding then
    (findUnique db shop (Some fullSelect), featureCache,
     asked ++ [FindUnique shop (Some fullSelect)])
  else
    (findUnique db shop (Some basicSelect), featureCache,
     asked ++ [FindUnique shop (Some basicSelect)]).

(** The readings of [new Date()] in [updateOnboardingStep], in the order
    of the source. *)
Record Dates : Type := mkDates {
  updatedAt : Z;
  createdAt : Z;
  activatedAt : Z;
  completedAt : Z
}.

(** Safely update onboarding fields. *)
Definition updateOnboardingStep (checkedAt storedAt : Z) (dates : Dates)
    (db : Db) (shop stepId : string) (featureCache : FeatureCache)
  : completion bool E * FeatureCache * list Query :=
  let '(hasOnboarding, featureCache, asked) :=
    hasOnboardingFields checkedAt storedAt (queryRaw db) featureCache in
  if negb hasOnboarding then
    if String.eqb stepId "theme-editor" then
      let update :=
        [("appEmbedActivated", Flag true);
         ("appEmbedActivatedAt", Date (updatedAt dates))] in
      let create :=
        [("shop", Text shop);
         ("appEmbedActivated", Flag true);
         ("appEmbedActivatedAt", Date (createdAt dates))] in
      (match upsert db shop update create with
       | Return _ => Return true
       | Throw e => Throw e
       end,
       featureCache, asked ++ [Upsert shop update create])
    else (Return false, featureCache, asked)
  else
    let updateData : Data := [] in
    let updateData :=
      if String.eqb stepId "theme-editor" then
        assign "appEmbedActivatedAt" (Date (activatedAt dates))
          (assign "appEmbedActivated" (Flag true)
             (assign "onboardingStepThemeEditor" (Flag true) updateData))
      else if String.eqb stepId "recommendations" then
        assign "onboardingStepRecommendations" (Flag true) updateData
      else if String.eqb stepId "first-bundle" then
        assign "onboardingStepFirstBundle" (Flag true) updateData
      else if String.eqb stepId "preview" then
        assign "onboardingStepPreview" (Flag true) updateData
      else updateData in
    match findUnique db shop None with
    | Throw e => (Throw e, featureCache, asked ++ [FindUnique shop None])
    | Return currentSettings =>
        let updateData :=
          match currentSettings with
          | Some row =>
              let allStepsComplete :=
                (isSet "onboardingStepThemeEditor" updateData
                 || onboardingStepThemeEditor row)
                && (isSet "onboardingStepRecommendations" updateData
                    || onboardingStepRecommendations row)
                && (isSet "onboardingStepFirstBundle" updateData
                    || onboardingStepFirstBundle row)
                && (isSet "onboardingStepPreview" updateData
                    || onboardingStepPreview row) in
              if allStepsComplete then
                assign "onboardingCompletedAt" (Date (completedAt dates))
                  (assign "onboardingCompleted" (Flag true) updateData)
              else updateData
          | None => updateData
          end in
        let create := spread [("shop", Text shop)] updateData in
        (match upsert db shop updateData create with
         | Return _ => Return true
         | Throw e => Throw e
         end,
         featureCache,
         asked ++ [FindUnique shop None; Upsert shop updateData create])
    end.

(** Safely dismiss onboarding. *)
Definition dismissOnboarding (checkedAt storedAt : Z) (db : Db)
    (shop : string) (featureCache : FeatureCache)
  : completion bool E * FeatureCache * list Query :=
  let '(hasOnboarding, featureCache, asked) :=
    hasOnboardingFields checkedAt storedAt (queryRaw db) featureCache in
  if negb hasOnboarding then (Return true, featureCache, asked)
  else
    let update := [("onboardingDismissed", Flag true)] in
    let create := [("shop", Text shop); ("onboardingDismissed", Flag true)] in
    (match upsert db shop update create with
     | Return _ => Return true
     | Throw e => Throw e
     end,
     featureCache, asked ++ [Upsert shop update create]).

(** Clear the feature detection cache. *)
Definition clearFeatureCache (featureCache : FeatureCache) : FeatureCache :=
  emptyCache.

(** *** Vocabulary for the statements *)

Definition resolved (probe : completion unit E) : bool :=
  match probe with
  | Return _ => true
  | Throw _ => false
  end.

(** One call of [hasOnboardingFields]: its two clock readings and what the
    query would do at that moment. *)
Record Call : Type := mkCall {
  checked : Z;
  stored : Z;
  probe : completion unit E
}.

(** The answers of a run of calls. *)
Fixpoint answers (calls : list Call) (featureCache : FeatureCache)
  : list bool :=
  match calls with
  | [] => []
  | call :: rest =>
      let '(answer, featureCache, _) :=
        hasOnboardingFields (checked call) (stored call) (probe call)
          featureCache in
      answer :: answers rest featureCache
  end.

(** The step recorded by [stepId] or already recorded in the row. *)
Definition stepDone (stepId name : string) (flag : bool) : bool :=
  String.eqb stepId name || flag.

Definition allDone (stepId : string) (row : Row) : bool :=
  stepDone stepId "theme-editor" (onboardingStepThemeEditor row)
  && stepDone stepId "recommendations" (onboardingStepRecommendations row)
  && stepDone stepId "first-bundle" (onboardingStepFirstBundle row)
  && stepDone stepId "preview" (onboardingStepPreview row).

(** The last [Upsert] of a list of queries. *)
Fixpoint lastUpsert (queries : list Query) : option (string * Data * Data) :=
  match queries with
  | [] => None
  | q :: rest =>
      match lastUpsert rest, q with
      | Some u, _ => Some u
      | None, Upsert shop update create => Some (shop, update, create)
      | None, _ => None
      end
  end.

End WithDatabase.

Arguments queryRaw {E} d.
Arguments findUnique {E} d shop select.
Arguments upsert {E} d shop update create.
Arguments hasOnboardingFields {E} checkedAt storedAt probe featureCache.
Arguments getSettingsWithOnboarding {E} checkedAt storedAt db shop featureCache.
Arguments updateOnboardingStep {E} checkedAt storedAt dates db shop stepId featureCache.
Arguments dismissOnboarding {E} checkedAt storedAt db shop featureCache.
Arguments resolved {E} probe.
Arguments checked {E} c.
Arguments stored {E} c.
Arguments probe {E} c.
Arguments answers {E} calls featureCache.

(** A row that has all steps but the preview, and a database with the
    onboarding columns that holds this row for every shop. *)
Definition previewLeft : Row := mkRow true true true false.

Definition migrated : Db string :=
  mkDb string (Return tt) (fun _ _ => Return (Some previewLeft))
    (fun _ _ _ => Return tt).

Definition someDates : Dates := mkDates 1000 1001 1002 1003.

End DbMigration.

(** ** Authentication wrappers ([app/utils/auth.server.ts])

    [authenticate.admin] belongs to the Shopify library: it is a parameter
    that resolves to a context or rejects. [json] and [redirect] of Remix
    build the two kinds of [Response] below. *)

Module Auth.
Import Js RequestLimits.

(** [text.toLowerCase()] on the code units of a header value, which are
    below 256. *)
Definition lowerUnit (c : ascii) : ascii :=
  let n := nat_of_ascii c in
  if ((65 <=? n) && (n <=? 90)
      || (192 <=? n) && (n <=? 222) && negb (n =? 215))%nat
  then ascii_of_nat (n + 32)
  else c.

Fixpoint toLowerCase (s : string) : string :=
  match s with
  | String c s' => String (lowerUnit c) (toLowerCase s')
  | "" => ""
  end.

(** [text.toUpperCase()] on a request method: a method is a token, its
    characters are ASCII. *)
Definition upperUnit (c : ascii) : ascii :=
  let n := nat_of_ascii c in
  if ((97 <=? n) && (n <=? 122))%nat then ascii_of_nat (n - 32) else c.

Fixpoint toUpperCase (s : string) : string :=
  match s with
  | String c s' => String (upperUnit c) (toUpperCase s')
  | "" => ""
  end.

(** [new URL(url).search] for the serialized URL of a request: the query
    with its question mark, up to the fragment; empty when the query is. *)
Fixpoint upTo (stop : ascii) (s : string) : string :=
  match s with
  | String c s' => if Ascii.eqb c stop then "" else String c (upTo stop s')
  | "" => ""
  end.

Fixpoint from (start : ascii) (s : string) : string :=
  match s with
  | String c s' => if Ascii.eqb c start then s else from start s'
  | "" => ""
  end.

Definition search (url : string) : string :=
  let query := from "?" (upTo "#" url) in
  if String.eqb query "?" then "" else query.

Inductive Json : Type :=
| JsonText (s : string)
| JsonBool (b : bool).

Inductive Response : Type :=
| json (data : list (string * Json)) (status : Z)
| redirect (location : string).

Definition sessionExpired : Response :=
  json [ ("error", JsonText "Session expired");
         ("message", JsonText "Your session has expired. Please refresh the page.");
         ("needsRefresh", JsonBool true) ]
       401.

Section WithShopify.

(** What [authenticate.admin] resolves to and rejects with. *)
Variable AdminContext : Type.
Variable E : Type.
Variable admin : Request -> completion AdminContext E.

Definition isJsonAccept (request : Request) : bool :=
  match headersGet request "accept" with
  | Some accept => Env.includes accept "application/json"
  | None => false
  end.

Definition isRemixFetch (request : Request) : bool :=
  match headersGet request "x-remix-request" with
  | Some v => String.eqb v "true"
  | None => false
  end
  || match headersGet request "x-remix-fetch" with
     | Some v => String.eqb v "true"
     | None => false
     end
  || match headersGet request "x-requested-with" with
     | Some v => String.eqb (toLowerCase v) "xmlhttprequest"
     | None => false
     end.

(** Enhanced authentication wrapper. *)
Definition enhancedAuthenticate (request : Request)
  : completion AdminContext Response :=
  match admin request with
  | Return result => Return result
  | Throw _error =>
      if isJsonAccept request || isRemixFetch request
         || String.eqb (toUpperCase (method request)) "POST"
      then Throw sessionExpired
      else
        let search := search (url request) in
        Throw (redirect ("/auth" ++ search)%string)
  end.

(** The arguments of a loader or an action, of which the wrappers read
    [request]; the wrapped function gets them together with [auth]. Calling
    it throws, or returns a value; the wrappers are [async] functions that
    return that value without [await], so when it is a promise the
    wrapper's own promise settles as that promise does. What is thrown or
    rejected with is a [Response] or something else. *)
Variable Args : Type.
Variable request : Args -> Request.
Variable T : Type.
Variable X : Type.

Inductive Outcome : Type :=
| Throws (e : Response + X)
| Fulfils (t : T)
| Rejects (e : Response + X).

(** Wrapper for loaders that need authentication. The result is how the
    promise of the wrapper settles: fulfilled with what the loader gives or
    with a [Response], or rejected. Only what is thrown inside the [try]
    block reaches the [catch]: a failure of [enhancedAuthenticate], which
    is awaited, and a throw of the loader itself, not the rejection of a
    promise that the loader returned. *)
Definition withAuth (loader : Args -> AdminContext -> Outcome)
    (args : Args) : completion (T + Response) (Response + X) :=
  match enhancedAuthenticate (request args) with
  | Return auth =>
      match loader args auth with
      | Fulfils t => Return (inl t)
      | Rejects e => Throw e
      | Throws (inl e) => Return (inr e)
      | Throws (inr e) => Throw (inr e)
      end
  | Throw e => Return (inr e)
  end.

(** Wrapper for actions that need authentication. *)
Definition withAuthAction (action : Args -> AdminContext -> Outcome)
    (args : Args) : completion (T + Response) (Response + X) :=
  match enhancedAuthenticate (request args) with
  | Return auth =>
      match action args auth with
      | Fulfils t => Return (inl t)
      | Rejects e => Throw e
      | Throws (inl e) => Return (inr e)
      | Throws (inr e) => Throw (inr e)
      end
  | Throw e => Return (inr e)
  end.

End WithShopify.

Arguments enhancedAuthenticate {AdminContext E} admin request.
Arguments Throws {T X} e.
Arguments Fulfils {T X} t.
Arguments Rejects {T X} e.
Arguments withAuth {AdminContext E} admin {Args} request {T X} loader args.
Arguments withAuthAction {AdminContext E} admin {Args} request {T X} action args.

(** *** Vocabulary for the statements *)

(** No character of [s] is [c]. *)
Fixpoint without (c : ascii) (s : string) : bool :=
  match s with
  | String c' s' => negb (Ascii.eqb c' c) && without c s'
  | "" => true
  end.

(** A page load: a [GET] of [base?query] with an [accept] header for
    HTML. *)
Definition pageLoad (base query : string) : Request :=
  mkRequest "GET" (base ++ "?" ++ query)%string [("accept", "text/html")].

(** A request whose method is [method] and that has no headers. *)
Definition bare (method url : string) : Request := mkRequest method url [].

(** Equal up to the case of ASCII letters. *)
Definition sameLetters (a b : string) : bool :=
  String.eqb (toUpperCase a) (toUpperCase b).

End Auth.

(** ** The structured logger ([utils/logger.server])

    Metadata are objects given by their properties in order; among their
    values are those that [JSON.stringify] cannot serialise. The text that
    [JSON.stringify] gives otherwise, [Date.prototype.toISOString] and the
    path of a URL are parameters; the clock reading of a call and the value
    of [crypto.randomUUID()] are arguments. The three constants of the
    module are read from [process.env]. *)

Module Logger.
Import Js RequestLimits.

(** The values of metadata: text, numbers, nested objects, and the two
    kinds that make [JSON.stringify] throw, a [BigInt] and a reference from
    inside an object back to an object that contains it. *)
Inductive value : Type :=
| Str (s : string)
| Int (z : Z)
| Obj (fields : list (string * value))
| BigInt (z : Z)
| Circular.

Definition object : Type := list (string * value).

Fixpoint prop (name : string) (o : object) : option value :=
  match o with
  | [] => None
  | (k, v) :: o' => if String.eqb name k then Some v else prop name o'
  end.

(** Whether [JSON.stringify] can serialise a value. *)
Fixpoint serialisable (v : value) : bool :=
  match v with
  | Str _ => true
  | Int _ => true
  | Obj fields => forallb (fun kv => serialisable (snd kv)) fields
  | BigInt _ => false
  | Circular => false
  end.

Definition serialisableObject (o : object) : bool :=
  forallb (fun kv => serialisable (snd kv)) o.

(** What [JSON.stringify] throws. *)
Inductive Error : Type := TypeError.

Definition DEBUG_MODE (env : Env.ProcessEnv) : bool :=
  match env "DEBUG_MODE" with
  | Some v => String.eqb v "true"
  | None => false
  end.

Definition LOG_FORMAT (env : Env.ProcessEnv) : string :=
  match env "LOG_FORMAT" with
  | Some (String c s) => String c s
  | _ => "text"
  end.

Definition NODE_ENV (env : Env.ProcessEnv) : string :=
  match env "NODE_ENV" with
  | Some (String c s) => String c s
  | _ => "development"
  end.

Inductive LogLevel : Type := DEBUG | INFO | WARN | ERROR.

Definition levelText (level : LogLevel) : string :=
  match level with
  | DEBUG => "DEBUG"
  | INFO => "INFO"
  | WARN => "WARN"
  | ERROR => "ERROR"
  end.

Definition LogMetadata : Type := object.

(** [o[name] = v] and [{ ...o, ...more }]; spreading [undefined] adds
    nothing. *)
Fixpoint assign (name : string) (v : value) (o : object) : object :=
  match o with
  | [] => [(name, v)]
  | (k, v') :: o' =>
      if String.eqb name k then (k, v) :: o' else (k, v') :: assign name v o'
  end.

Definition spread (o : object) (more : option object) : object :=
  match more with
  | Some more => fold_left (fun acc kv => assign (fst kv) (snd kv) acc) more o
  | None => o
  end.

Inductive ConsoleCall : Type :=
| ConsoleError (text : string)
| ConsoleWarn (text : string)
| ConsoleInfo (text : string)
| ConsoleLog (text : string)
| ConsoleLogArgs (args : list value).

Section WithBuiltins.

(** The text of an object that can be serialised. *)
Variable jsonText : object -> string.
Variable toISOString : Z -> string.
Variable pathname : string -> string.

Variable env : Env.ProcessEnv.

(** [JSON.stringify(o)]. *)
Definition stringify (o : object) : completion string Error :=
  if serialisableObject o then Return (jsonText o) else Throw TypeError.

(** Format log message for output; an exception of [JSON.stringify] is
    one of [formatLog]. *)
Definition formatLog (now : Z) (level : LogLevel) (message : string)
    (metadata : option LogMetadata) : completion string Error :=
  let timestamp := toISOString now in
  if String.eqb (LOG_FORMAT env) "json" then
    stringify
      (spread [ ("timestamp", Str timestamp);
                ("level", Str (levelText level));
                ("message", Str message);
                ("env", Str (NODE_ENV env)) ]
              metadata)
  else
    match
      match metadata with
      | Some m =>
          match stringify m with
          | Return text => Return (" " ++ text)%string
          | Throw e => Throw e
          end
      | None => Return ""
      end
    with
    | Return metaStr =>
        Return ("[" ++ timestamp ++ "] [" ++ levelText level ++ "] "
                ++ message ++ metaStr)%string
    | Throw e => Throw e
    end.

(** Check if a log level should be output. *)
Definition shouldLog (level : LogLevel) : bool :=
  match level with
  | DEBUG => DEBUG_MODE env
  | INFO => DEBUG_MODE env
  | WARN => true
  | ERROR => true
  end.

(** How a call ends and what it has written to the console. *)
Definition Logged : Type := completion unit Error * list ConsoleCall.

(** Core logging function: the line is formatted before it is written. *)
Definition logMessage (now : Z) (level : LogLevel) (message : string)
    (metadata : option LogMetadata) : Logged :=
  if negb (shouldLog level) then (Return tt, [])
  else
    match formatLog now level message metadata with
    | Throw e => (Throw e, [])
    | Return formatted =>
        match level with
        | ERROR => (Return tt, [ConsoleError formatted])
        | WARN => (Return tt, [ConsoleWarn formatted])
        | INFO => (Return tt, [ConsoleInfo formatted])
        | DEBUG => (Return tt, [ConsoleLog formatted])
        end
    end.

(** The four methods that a logger has; each takes the clock reading of
    the call. *)
Record Methods : Type := mkMethods {
  debug : Z -> string -> option LogMetadata -> Logged;
  info : Z -> string -> option LogMetadata -> Logged;
  warn : Z -> string -> option LogMetadata -> Logged;
  error : Z -> string -> option LogMetadata -> Logged
}.

(** Main logger instance. *)
Definition logger : Methods :=
  mkMethods
    (fun now message metadata => logMessage now DEBUG message metadata)
    (fun now message metadata => logMessage now INFO message metadata)
    (fun now message metadata => logMessage now WARN message metadata)
    (fun now message metadata => logMessage now ERROR message metadata).

(** Legacy log method. *)
Definition log (args : list value) : list ConsoleCall :=
  if DEBUG_MODE env then [ConsoleLogArgs args] else [].

(** The metadata shared by the lines of a request logger. *)
Definition baseMetadata (request : Request)
    (additionalContext : option LogMetadata) (randomUUID : string)
  : LogMetadata :=
  let requestId :=
    match headersGet request "x-request-id" with
    | Some (String c s) => String c s
    | _ => randomUUID
    end in
  let route := pathname (url request) in
  spread [("requestId", Str requestId); ("route", Str route)]
         additionalContext.

(** Create a logger with request context. *)
Definition createRequestLogger (request : Request)
    (additionalContext : option LogMetadata) (randomUUID : string)
  : Methods :=
  let baseMetadata := baseMetadata request additionalContext randomUUID in
  mkMethods
    (fun now message metadata =>
       debug logger now message (Some (spread (spread [] (Some baseMetadata)) metadata)))
    (fun now message metadata =>
       info logger now message (Some (spread (spread [] (Some baseMetadata)) metadata)))
    (fun now message metadata =>
       warn logger now message (Some (spread (spread [] (Some baseMetadata)) metadata)))
    (fun now message metadata =>
       error logger now message (Some (spread (spread [] (Some baseMetadata)) metadata))).

(** Performance measurement helper: [startTime] is the clock reading at
    creation, [endTime] the one when [end] is called, [now] the one of the
    log line. *)
Definition createPerfLogger (label : string) (metadata : option LogMetadata)
    (startTime : Z)
  : Z -> Z -> option LogMetadata -> Logged :=
  fun endTime now additionalMetadata =>
    let duration := endTime - startTime in
    info logger now (label ++ " completed")%string
      (Some (spread (spread [("duration", Int duration)] metadata)
               additionalMetadata)).

End WithBuiltins.

(** *** Vocabulary for the statements *)

(** [more[name]] when [more] has it, else [o[name]]. *)
Definition preferring (name : string) (more : option object) (or : option value)
  : option value :=
  match more with
  | Some m =>
      match prop name m with
      | Some v => Some v
      | None => or
      end
  | None => or
  end.

(** An object has no property twice. *)
Definition isObject (o : option object) : Prop :=
  match o with
  | Some m => NoDup (map fst m)
  | None => True
  end.

(** The request id of the lines of a request logger before any metadata
    are spread over it. *)
Definition requestIdOf (request : Request) (randomUUID : string) : string :=
  match headersGet request "x-request-id" with
  | Some (String c s) => String c s
  | _ => randomUUID
  end.

(** The metadata can be serialised. *)
Definition serialisableMetadata (metadata : option object) : bool :=
  match metadata with
  | Some m => serialisableObject m
  | None => true
  end.

(** A line of [level] is written with the console method of that level. *)
Definition written (level : LogLevel) (text : string) : ConsoleCall :=
  match level with
  | ERROR => ConsoleError text
  | WARN => ConsoleWarn text
  | INFO => ConsoleInfo text
  | DEBUG => ConsoleLog text
  end.

(** Writing a line of [level] that was formatted as [formatted]. *)
Definition report (level : LogLevel) (formatted : completion string Error)
  : Logged :=
  match formatted with
  | Return text => (Return tt, [written level text])
  | Throw e => (Throw e, [])
  end.

(** Stand-ins for the built-ins, and a request with a request id. *)
Definition jsonTextStub (o : object) : string :=
  String.concat "," (map fst o).
Definition pathnameStub (url : string) : string := "/app".
Definition traced : Request :=
  mkRequest "GET" "https://app.example.com/app" [("x-request-id", "r-1")].
Definition jsonEnv : Env.ProcessEnv :=
  Env.envOf [("LOG_FORMAT", "json"); ("DEBUG_MODE", "true")].

End Logger.

(** * Properties *)

(** ** The cache *)

Module LRUFacts.
Import LRU.

Section Facts.
Context {V : Type}.
Implicit Types (c : LRU.t V) (l : list (LRU.entry V)) (k : string) (v : V).

Lemma find_key k l e : find k l = Some e -> e_key e = k.
Proof.
  induction l as [|x l IH]; simpl; [discriminate|].
  destruct (String.eqb_spec k (e_key x)) as [Heq|_]; auto.
  intros [= <-]. now symmetry.
Qed.

Lemma find_remove_same k l : find k (remove k l) = None.
Proof.
  induction l as [|x l IH]; simpl; auto.
  destruct (String.eqb k (e_key x)) eqn:Hk; simpl; auto.
  now rewrite Hk.
Qed.

Lemma find_remove_other k k' l : k' <> k -> find k' (remove k l) = find k' l.
Proof.
  intros Hne. induction l as [|x l IH]; simpl; auto.
  destruct (String.eqb_spec k (e_key x)) as [Heq|Hk]; simpl.
  - destruct (String.eqb_spec k' (e_key x)); [congruence | exact IH].
  - now rewrite IH.
Qed.

Lemma find_assign_same k v l :
  find k (assign k v l) =
  option_map (fun e => mkEntry (e_key e) v (e_start e)) (find k l).
Proof.
  induction l as [|x l IH]; simpl; auto.
  destruct (String.eqb k (e_key x)) eqn:Hk; simpl; now rewrite Hk.
Qed.

Lemma find_assign_other k k' v l : k' <> k -> find k' (assign k v l) = find k' l.
Proof.
  intros Hne. induction l as [|x l IH]; simpl; auto.
  destruct (String.eqb_spec k (e_key x)) as [Heq|Hk]; simpl.
  - destruct (String.eqb_spec k' (e_key x)); [congruence | reflexivity].
  - now rewrite IH.
Qed.

(** Dropping the last entry is invisible to every key but its own. *)
Lemma find_removelast k' l :
  lastKey l <> Some k' -> find k' (removelast l) = find k' l.
Proof.
  induction l as [|x l IH]; simpl; auto.
  destruct l as [|y l].
  - intros H. simpl. destruct (String.eqb_spec k' (e_key x)); congruence.
  - intros H. change (find k' (x :: removelast (y :: l)))
      with (if String.eqb k' (e_key x) then Some x else find k' (removelast (y :: l))).
    now rewrite IH.
Qed.

(** *** What each operation does to the slot of a key *)

Lemma find_get_same c now k :
  find k (entries (snd (get c now k))) =
  match find k (entries c) with
  | Some e => if isStale c now e then None else Some e
  | None => None
  end.
Proof.
  unfold get. destruct (find k (entries c)) as [e|] eqn:Hf.
  - destruct (isStale c now e); simpl.
    + apply find_remove_same.
    + apply find_key in Hf. rewrite Hf, String.eqb_refl. reflexivity.
  - simpl. exact Hf.
Qed.

Lemma find_get_other c now k k' :
  k' <> k -> find k' (entries (snd (get c now k))) = find k' (entries c).
Proof.
  intros Hne. unfold get. destruct (find k (entries c)) as [e|] eqn:Hf; auto.
  apply find_key in Hf.
  destruct (isStale c now e); simpl.
  - now apply find_remove_other.
  - destruct (String.eqb_spec k' (e_key e)); [congruence|].
    now apply find_remove_other.
Qed.

Lemma fst_get c now k :
  fst (get c now k) =
  match find k (entries c) with
  | Some e => if isStale c now e then None else Some (e_val e)
  | None => None
  end.
Proof.
  unfold get. destruct (find k (entries c)) as [e|]; auto.
  now destruct (isStale c now e).
Qed.

Lemma find_set_same c now k v :
  find k (entries (set c now k v)) = Some (mkEntry k v now).
Proof.
  unfold set. destruct (find k (entries c)); simpl; now rewrite String.eqb_refl.
Qed.

Lemma find_set_other c now k k' v :
  k' <> k ->
  find k (entries c) <> None \/ (List.length (entries c) < max c)%nat
    \/ lruKey c <> Some k' ->
  find k' (entries (set c now k v)) = find k' (entries c).
Proof.
  intros Hne Hroom. unfold set.
  destruct (find k (entries c)) as [e|] eqn:Hf; simpl;
    (destruct (String.eqb_spec k' k); [congruence|]).
  - now apply find_remove_other.
  - destruct (Nat.leb_spec (max c) (List.length (entries c))) as [Hfull|_]; auto.
    apply find_removelast.
    destruct Hroom as [H|[H|H]]; [congruence | lia | exact H].
Qed.

Lemma find_mutate_same c k v :
  find k (entries (mutate c k v)) =
  option_map (fun e => mkEntry (e_key e) v (e_start e)) (find k (entries c)).
Proof. apply find_assign_same. Qed.

Lemma find_mutate_other c k k' v :
  k' <> k -> find k' (entries (mutate c k v)) = find k' (entries c).
Proof. apply find_assign_other. Qed.

(** The options of a cache never change. *)
Lemma options_get c now k :
  max (snd (get c now k)) = max c /\ ttl (snd (get c now k)) = ttl c.
Proof.
  unfold get. destruct (find k (entries c)) as [e|]; auto.
  now destruct (isStale c now e).
Qed.

Lemma options_set c now k v :
  max (set c now k v) = max c /\ ttl (set c now k v) = ttl c.
Proof. unfold set. now destruct (find k (entries c)). Qed.

End Facts.
End LRUFacts.

(** ** The rate limiter *)

Module RateLimiterFacts.
Import Js RateLimiter LRUFacts.

(** Cache keys of different families never collide. *)
Lemma shopKey_inj s s' : shopKey s = shopKey s' -> s = s'.
Proof. unfold shopKey. simpl. now intros [= ->]. Qed.

Lemma shopKey_not_ipKey s ip : ipKey ip <> shopKey s.
Proof. unfold shopKey, ipKey. simpl. discriminate. Qed.

Lemma shopKey_not_cronKey s endpoint : cronKey endpoint <> shopKey s.
Proof. unfold shopKey, cronKey. simpl. discriminate. Qed.

Section WithDate.
Variable toISOString : Z -> string.

Ltac reduce :=
  cbv beta iota zeta delta
    [fst snd burstCount burstReset sustainedCount sustainedReset
     rateLimitCache highUsageLog journal orb].

Ltac crunch :=
  repeat (reduce;
          match goal with
          | |- context [?a <=? ?b] => destruct (a <=? b)
          | |- context [above ?a ?b ?c && ?d] => destruct (above a b c && d)
          end);
  reduce.

Lemma rateLimit_cache now shop sl bl st :
  rateLimitCache (snd (rateLimit toISOString now shop sl bl st)) =
  cacheAfter now shop sl bl (rateLimitCache st).
Proof.
  unfold rateLimit, cacheAfter, overLimit, current, live, afterResets, freshBucket, bump, shopKey.
  change (10 * 1000) with 10000. change (60 * 1000) with 60000.
  destruct (LRU.get (rateLimitCache st) now ("rate-limit:" ++ shop))
    as [[[bc br sc sr]|] c1]; reduce.
  - destruct (br <=? now), (sr <=? now); crunch; reflexivity.
  - destruct (now + 10000 <=? now), (now + 60000 <=? now); crunch; reflexivity.
Qed.

Lemma rateLimitMinimal_cache now shop sl bl c :
  snd (rateLimitMinimal toISOString now shop sl bl c) = cacheAfter now shop sl bl c.
Proof.
  unfold rateLimitMinimal, cacheAfter, overLimit, current, live, afterResets, freshBucket, bump, shopKey.
  change (10 * 1000) with 10000. change (60 * 1000) with 60000.
  destruct (LRU.get c now ("rate-limit:" ++ shop))
    as [[[bc br sc sr]|] c1]; reduce.
  - destruct (br <=? now), (sr <=? now); crunch; reflexivity.
  - destruct (now + 10000 <=? now), (now + 60000 <=? now); crunch; reflexivity.
Qed.

Lemma rateLimit_outcome now shop sl bl st :
  let b := current (rateLimitCache st) now shop in
  if overLimit sl bl b
  then exists resp,
      fst (rateLimit toISOString now shop sl bl st) = Throw resp
      /\ status resp = 429
      /\ (body resp = "Too Many Requests (burst limit)" <-> bl <= burstCount b)
      /\ (body resp = "Too Many Requests" <-> ~ bl <= burstCount b)
  else fst (rateLimit toISOString now shop sl bl st) = Return (granted toISOString sl bl b).
Proof.
  unfold rateLimit, overLimit, granted, current, live, afterResets, freshBucket, bump, shopKey.
  change (10 * 1000) with 10000. change (60 * 1000) with 60000.
  destruct (LRU.get (rateLimitCache st) now ("rate-limit:" ++ shop))
    as [[[bc br sc sr]|] c1]; reduce.
  - destruct (br <=? now), (sr <=? now); reduce;
      repeat match goal with
             | |- context [?a <=? ?b] => destruct (Z.leb_spec a b)
             end; reduce; try reflexivity;
      eexists; (split; [reflexivity|]); simpl;
      (split; [reflexivity|]); split; split; intros; try easy; lia.
  - destruct (now + 10000 <=? now), (now + 60000 <=? now); reduce;
      repeat match goal with
             | |- context [?a <=? ?b] => destruct (Z.leb_spec a b)
             end; reduce; try reflexivity;
      eexists; (split; [reflexivity|]); simpl;
      (split; [reflexivity|]); split; split; intros; try easy; lia.
Qed.

Lemma rateLimitMinimal_outcome now shop sl bl c :
  let b := current c now shop in
  if overLimit sl bl b
  then fst (rateLimitMinimal toISOString now shop sl bl c)
       = Throw (mkResponse "Too Many Requests" 429 [])
  else fst (rateLimitMinimal toISOString now shop sl bl c)
       = Return (granted toISOString sl bl b).
Proof.
  unfold rateLimitMinimal, overLimit, granted, current, live, afterResets, freshBucket, bump, shopKey.
  change (10 * 1000) with 10000. change (60 * 1000) with 60000.
  destruct (LRU.get c now ("rate-limit:" ++ shop))
    as [[[bc br sc sr]|] c1]; reduce.
  - destruct (br <=? now), (sr <=? now); crunch; reflexivity.
  - destruct (now + 10000 <=? now), (now + 60000 <=? now); crunch; reflexivity.
Qed.

(** Besides [rateLimitCache], a call only logs, and may note the shop in
    [highUsageLog]. *)
Lemma rateLimit_elsewhere now shop sl bl st :
  let st' := snd (rateLimit toISOString now shop sl bl st) in
  (exists ev, journal st' = ev :: journal st
                /\ (highUsageLog st' = highUsageLog st
                    \/ exists n, highUsageLog st' = LRU.set (highUsageLog st) now shop n))
  \/ (journal st' = journal st /\ highUsageLog st' = highUsageLog st).
Proof.
  unfold rateLimit.
  destruct (LRU.get (rateLimitCache st) now ("rate-limit:" ++ shop)) as [hit c1].
  repeat match goal with
         | |- context [if ?b then _ else _] => destruct b
         end; reduce; eauto 6.
Qed.

Lemma rateLimit_throw_keeps_highUsageLog now shop sl bl st resp :
  fst (rateLimit toISOString now shop sl bl st) = Throw resp ->
  highUsageLog (snd (rateLimit toISOString now shop sl bl st)) = highUsageLog st.
Proof.
  unfold rateLimit.
  destruct (LRU.get (rateLimitCache st) now ("rate-limit:" ++ shop)) as [hit c1].
  repeat match goal with
         | |- context [if ?b then _ else _] => destruct b
         end; reduce; auto; discriminate.
Qed.

(** *** The slot of the shop and the slots of the others *)

Lemma peek_find (c : LRU.t BurstBucket) k :
  LRU.peek c k = option_map LRU.e_val (LRU.find k (LRU.entries c)).
Proof. reflexivity. Qed.

Lemma live_find (c : LRU.t BurstBucket) now k :
  live c now k =
  match LRU.find k (LRU.entries c) with
  | Some e => if LRU.isStale c now e then None else Some (LRU.e_val e)
  | None => None
  end.
Proof. apply fst_get. Qed.

Lemma find_cacheAfter_same now shop sl bl c :
  LRU.find (shopKey shop) (LRU.entries (cacheAfter now shop sl bl c)) =
  if overLimit sl bl (current c now shop)
  then match LRU.find (shopKey shop) (LRU.entries c) with
       | Some e =>
           if LRU.isStale c now e then None
           else Some (LRU.mkEntry (shopKey shop) (current c now shop) (LRU.e_start e))
       | None => None
       end
  else Some (LRU.mkEntry (shopKey shop) (bump (current c now shop)) now).
Proof.
  unfold cacheAfter.
  destruct (overLimit sl bl (current c now shop)); [|apply find_set_same].
  rewrite live_find.
  destruct (LRU.find (shopKey shop) (LRU.entries c)) as [e|] eqn:Hf.
  - destruct (LRU.isStale c now e) eqn:Hs.
    + rewrite find_get_same, Hf, Hs. reflexivity.
    + rewrite find_mutate_same, find_get_same, Hf, Hs. simpl.
      now rewrite (find_key _ _ _ Hf).
  - now rewrite find_get_same, Hf.
Qed.

Lemma peek_cacheAfter_same now shop sl bl c :
  LRU.peek (cacheAfter now shop sl bl c) (shopKey shop) =
  if overLimit sl bl (current c now shop)
  then option_map (afterResets now) (live c now (shopKey shop))
  else Some (bump (current c now shop)).
Proof.
  rewrite peek_find, find_cacheAfter_same.
  destruct (overLimit sl bl (current c now shop)); [|reflexivity].
  unfold current. rewrite live_find.
  destruct (LRU.find (shopKey shop) (LRU.entries c)) as [e|]; [|reflexivity].
  now destruct (LRU.isStale c now e).
Qed.

Lemma length_remove {V} k (l : list (LRU.entry V)) e :
  LRU.find k l = Some e -> (List.length (LRU.remove k l) < List.length l)%nat.
Proof.
  induction l as [|x l IH]; simpl; [discriminate|].
  destruct (String.eqb k (LRU.e_key x)).
  - intros _. clear IH. induction l as [|y l IH]; simpl; [lia|].
    destruct (String.eqb k (LRU.e_key y)); simpl; lia.
  - intros H. specialize (IH H). simpl. lia.
Qed.

Lemma find_cacheAfter_other now shop sl bl c k' :
  k' <> shopKey shop ->
  (List.length (LRU.entries c) <= LRU.max c)%nat ->
  LRU.find (shopKey shop) (LRU.entries c) <> None
    \/ (List.length (LRU.entries c) < LRU.max c)%nat
    \/ LRU.lruKey c <> Some k' ->
  LRU.find k' (LRU.entries (cacheAfter now shop sl bl c)) = LRU.find k' (LRU.entries c).
Proof.
  intros Hne Hwf Hroom. unfold cacheAfter.
  assert (Hmut : LRU.find k'
            (LRU.entries
               match live c now (shopKey shop) with
               | Some _ => LRU.mutate (snd (LRU.get c now (shopKey shop)))
                             (shopKey shop) (current c now shop)
               | None => snd (LRU.get c now (shopKey shop))
               end) = LRU.find k' (LRU.entries c)).
  { destruct (live c now (shopKey shop));
      [rewrite find_mutate_other by assumption|]; now apply find_get_other. }
  destruct (overLimit sl bl (current c now shop)); [exact Hmut|].
  rewrite find_set_other; [exact Hmut|assumption|].
  rewrite live_find. unfold LRU.get.
  destruct (LRU.find (shopKey shop) (LRU.entries c)) as [e|] eqn:Hf.
  - destruct (LRU.isStale c now e); cbn [fst snd LRU.entries LRU.max LRU.mutate].
    + right; left. apply length_remove in Hf. lia.
    + left. rewrite find_assign_same. cbn [LRU.find].
      rewrite (find_key _ _ _ Hf), String.eqb_refl. discriminate.
  - cbn [fst snd]. rewrite Hf. destruct Hroom as [H|[H|H]]; [congruence | auto | auto].
Qed.

Lemma find_cacheAfter_other_throw now shop sl bl c k' :
  k' <> shopKey shop ->
  overLimit sl bl (current c now shop) = true ->
  LRU.find k' (LRU.entries (cacheAfter now shop sl bl c)) = LRU.find k' (LRU.entries c).
Proof.
  intros Hne Hover. unfold cacheAfter. rewrite Hover.
  destruct (live c now (shopKey shop));
    [rewrite find_mutate_other by assumption|]; now apply find_get_other.
Qed.

(** *** Counting granted requests *)

Lemma since_none start granted :
  (forall t, In t granted -> t < start) -> since start granted = 0.
Proof.
  unfold since. induction granted as [|t g IH]; intros H; [reflexivity|].
  cbn [filter]. destruct (Z.leb_spec start t) as [Hle|_].
  - specialize (H t (or_introl eq_refl)). lia.
  - apply IH. intros u Hu. apply H. now right.
Qed.

Lemma since_cons start now granted :
  start <= now -> since start (now :: granted) = since start granted + 1.
Proof.
  intros H. unfold since. cbn [filter].
  destruct (Z.leb_spec start now); [|lia].
  cbn [List.length]. lia.
Qed.

Lemma since_le_trailing window now start granted :
  now - window < start -> since start granted <= trailing window now granted.
Proof.
  intros H. unfold since, trailing.
  induction granted as [|t g IH]; [reflexivity|].
  cbn [filter].
  destruct (Z.leb_spec start t), (Z.ltb_spec (now - t) window);
    cbn [List.length]; lia.
Qed.

Lemma ttl_cacheAfter now shop sl bl c :
  LRU.ttl (cacheAfter now shop sl bl c) = LRU.ttl c.
Proof.
  unfold cacheAfter.
  assert (H : LRU.ttl
            match live c now (shopKey shop) with
            | Some _ => LRU.mutate (snd (LRU.get c now (shopKey shop)))
                          (shopKey shop) (current c now shop)
            | None => snd (LRU.get c now (shopKey shop))
            end = LRU.ttl c).
  { destruct (live c now (shopKey shop)); cbn [LRU.mutate LRU.ttl];
      apply options_get. }
  destruct (overLimit sl bl (current c now shop)); [exact H|].
  destruct (options_set
              match live c now (shopKey shop) with
              | Some _ => LRU.mutate (snd (LRU.get c now (shopKey shop)))
                            (shopKey shop) (current c now shop)
              | None => snd (LRU.get c now (shopKey shop))
              end now (shopKey shop) (bump (current c now shop))) as [_ ->].
  exact H.
Qed.

(** What a call sees when the bookkeeping holds. *)
Lemma tracks_current c shop granted last now :
  tracks c (shopKey shop) granted last -> last <= now ->
  let b := current c now shop in
  burstCount b = since (burstReset b - 10000) granted
  /\ sustainedCount b = since (sustainedReset b - 60000) granted
  /\ (forall t, In t granted -> t <= now)
  /\ now < burstReset b <= now + 10000
  /\ now < sustainedReset b <= now + 60000.
Proof.
  intros [Httl H] Hlast. unfold current. rewrite live_find.
  assert (Hfresh : (forall t, In t granted -> t < now) ->
            let b := afterResets now (freshBucket now) in
            burstCount b = since (burstReset b - 10000) granted
            /\ sustainedCount b = since (sustainedReset b - 60000) granted
            /\ (forall t, In t granted -> t <= now)
            /\ now < burstReset b <= now + 10000
            /\ now < sustainedReset b <= now + 60000).
  { intros Hpast. unfold afterResets, freshBucket.
    cbn [burstCount burstReset sustainedCount sustainedReset].
    destruct (Z.leb_spec (now + 10000) now); [lia|].
    destruct (Z.leb_spec (now + 60000) now); [lia|].
    cbn [burstCount burstReset sustainedCount sustainedReset].
    rewrite !since_none by (intros t Ht; specialize (Hpast t Ht); lia).
    repeat split; try lia. intros t Ht. specialize (Hpast t Ht). lia. }
  destruct (LRU.find (shopKey shop) (LRU.entries c)) as [e|].
  - cbv zeta in H. destruct H as (Hb & Hs & Hg & Hstart & Hbr & Hsr).
    unfold LRU.isStale. rewrite Httl.
    destruct (Z.ltb_spec 60000 (now - LRU.e_start e)) as [Hstale|Hlive].
    + apply Hfresh. intros t Ht. specialize (Hg t Ht). lia.
    + destruct (LRU.e_val e) as [bc br sc sr].
      cbn [burstCount burstReset sustainedCount sustainedReset] in *.
      unfold afterResets.
      cbn [burstCount burstReset sustainedCount sustainedReset].
      assert (Hpast : forall t, In t granted -> t <= now)
        by (intros t Ht; specialize (Hg t Ht); lia).
      destruct (Z.leb_spec br now), (Z.leb_spec sr now);
        cbn [burstCount burstReset sustainedCount sustainedReset];
        rewrite ?(since_none (now + 10000 - 10000)),
                ?(since_none (now + 60000 - 60000))
          by (intros t Ht; specialize (Hg t Ht); lia);
        repeat split; auto; lia.
  - apply Hfresh. intros t Ht. specialize (H t Ht). lia.
Qed.

(** One call keeps the bookkeeping. *)
Lemma tracks_cacheAfter c shop sl bl granted last now :
  tracks c (shopKey shop) granted last -> last <= now ->
  tracks (cacheAfter now shop sl bl c) (shopKey shop)
    (if overLimit sl bl (current c now shop) then granted else now :: granted)
    now.
Proof.
  intros Ht Hlast.
  pose proof (tracks_current c shop granted last now Ht Hlast) as Hcur.
  cbv zeta in Hcur. destruct Hcur as (Hb & Hs & Hpast & Hbr & Hsr).
  destruct Ht as [Httl H].
  split; [now rewrite ttl_cacheAfter|].
  rewrite find_cacheAfter_same.
  destruct (overLimit sl bl (current c now shop)).
  - destruct (LRU.find (shopKey shop) (LRU.entries c)) as [e|].
    + cbv zeta in H. destruct H as (_ & _ & Hg & Hstart & Hbr' & Hsr').
      unfold LRU.isStale. rewrite Httl.
      destruct (Z.ltb_spec 60000 (now - LRU.e_start e)) as [Hstale|Hlive].
      * intros t Hin. specialize (Hg t Hin). lia.
      * cbn [LRU.e_val LRU.e_start]. repeat split; auto; try lia.
    + intros t Hin. specialize (H t Hin). lia.
  - cbn [LRU.e_val LRU.e_start]. unfold bump.
    cbn [burstCount burstReset sustainedCount sustainedReset].
    rewrite !since_cons by lia.
    repeat split; try lia.
    intros t [<-|Hin]; [lia|]. now apply Hpast.
Qed.

Lemma last_cons (x d : Z) l : List.last (x :: l) d = List.last l x.
Proof.
  revert x d. induction l as [|y l IH]; intros x d; [reflexivity|].
  change (List.last (x :: y :: l) d) with (List.last (y :: l) d).
  now rewrite !IH.
Qed.

Lemma replay_tracks shop sl bl times : forall st granted last,
  tracks (rateLimitCache st) (shopKey shop) granted last ->
  ascending last times ->
  tracks (rateLimitCache (fst (replay toISOString shop sl bl times st granted)))
    (shopKey shop)
    (snd (replay toISOString shop sl bl times st granted))
    (List.last times last).
Proof.
  induction times as [|now later IH]; intros st granted last Ht Hasc.
  - exact Ht.
  - destruct Hasc as [Hle Hasc].
    pose proof (tracks_cacheAfter _ shop sl bl _ _ now Ht Hle) as Hstep.
    pose proof (rateLimit_outcome now shop sl bl st) as Hout.
    pose proof (rateLimit_cache now shop sl bl st) as Hcache.
    cbv zeta in Hout. cbn [replay].
    destruct (rateLimit toISOString now shop sl bl st) as [[info|resp] st'].
    + cbn [fst snd] in *. rewrite <- Hcache in Hstep.
      destruct (overLimit sl bl (current (rateLimitCache st) now shop)).
      * destruct Hout as (r & Hr & _). discriminate.
      * specialize (IH st' (now :: granted) now Hstep Hasc).
        now rewrite last_cons.
    + cbn [fst snd] in *. rewrite <- Hcache in Hstep.
      destruct (overLimit sl bl (current (rateLimitCache st) now shop)).
      * specialize (IH st' granted now Hstep Hasc).
        now rewrite last_cons.
      * discriminate.
Qed.

(** *** The cache stays within its maximum *)

Lemma length_remove_le {V} k (l : list (LRU.entry V)) :
  (List.length (LRU.remove k l) <= List.length l)%nat.
Proof.
  induction l as [|x l IH]; [reflexivity|]. cbn [LRU.remove].
  destruct (String.eqb k (LRU.e_key x)); cbn [List.length]; lia.
Qed.

Lemma length_assign {V} k (v : V) l :
  List.length (LRU.assign k v l) = List.length l.
Proof.
  induction l as [|x l IH]; [reflexivity|]. cbn [LRU.assign].
  destruct (String.eqb k (LRU.e_key x)); cbn [List.length]; lia.
Qed.

Lemma length_removelast_cons {A} (l : list A) :
  l <> [] -> S (List.length (removelast l)) = List.length l.
Proof.
  induction l as [|x l IH]; [congruence|]. intros _.
  destruct l as [|y l]; [reflexivity|].
  change (removelast (x :: y :: l)) with (x :: removelast (y :: l)).
  cbn [List.length]. rewrite IH; [reflexivity|discriminate].
Qed.

Lemma fits_get {V} (c : LRU.t V) now k :
  (List.length (LRU.entries c) <= LRU.max c)%nat ->
  (List.length (LRU.entries (snd (LRU.get c now k)))
   <= LRU.max (snd (LRU.get c now k)))%nat.
Proof.
  intros H. unfold LRU.get.
  destruct (LRU.find k (LRU.entries c)) as [e|] eqn:Hf; [|exact H].
  pose proof (length_remove k _ _ Hf).
  destruct (LRU.isStale c now e); cbn [snd LRU.entries LRU.max List.length]; lia.
Qed.

Lemma fits_set {V} (c : LRU.t V) now k v :
  (0 < LRU.max c)%nat ->
  (List.length (LRU.entries c) <= LRU.max c)%nat ->
  (List.length (LRU.entries (LRU.set c now k v)) <= LRU.max (LRU.set c now k v))%nat.
Proof.
  intros Hpos H. unfold LRU.set.
  destruct (LRU.find k (LRU.entries c)) as [e|] eqn:Hf.
  - pose proof (length_remove k _ _ Hf).
    cbn [LRU.entries LRU.max List.length]. lia.
  - destruct (Nat.leb_spec (LRU.max c) (List.length (LRU.entries c)));
      cbn [LRU.entries LRU.max List.length]; [|lia].
    destruct (LRU.entries c) as [|x l] eqn:Hl; [cbn; lia|].
    rewrite length_removelast_cons by discriminate. exact H.
Qed.

(** A call keeps the options of the cache and its size within [max]. *)
Lemma cacheAfter_fits now shop sl bl c :
  (0 < LRU.max c)%nat ->
  (List.length (LRU.entries c) <= LRU.max c)%nat ->
  LRU.max (cacheAfter now shop sl bl c) = LRU.max c
  /\ (List.length (LRU.entries (cacheAfter now shop sl bl c)) <= LRU.max c)%nat.
Proof.
  intros Hpos H. unfold cacheAfter.
  pose proof (fits_get c now (shopKey shop) H) as H1.
  destruct (options_get c now (shopKey shop)) as [Hmax _].
  set (c1 := snd (LRU.get c now (shopKey shop))) in *.
  assert (H2 : LRU.max
                 match live c now (shopKey shop) with
                 | Some _ => LRU.mutate c1 (shopKey shop) (current c now shop)
                 | None => c1
                 end = LRU.max c
               /\ (List.length
                     (LRU.entries
                        match live c now (shopKey shop) with
                        | Some _ => LRU.mutate c1 (shopKey shop) (current c now shop)
                        | None => c1
                        end) <= LRU.max c)%nat).
  { destruct (live c now (shopKey shop));
      cbn [LRU.mutate LRU.max LRU.entries]; rewrite ?length_assign; lia. }
  destruct (overLimit sl bl (current c now shop)); [exact H2|].
  destruct H2 as [H2 H3].
  destruct (options_set
              match live c now (shopKey shop) with
              | Some _ => LRU.mutate c1 (shopKey shop) (current c now shop)
              | None => c1
              end now (shopKey shop) (bump (current c now shop))) as [Hm _].
  split; [congruence|]. rewrite <- H2, <- Hm.
  apply fits_set; lia.
Qed.

Lemma ascending_app last times now :
  ascending last (times ++ [now]) ->
  ascending last times /\ List.last times last <= now.
Proof.
  revert last. induction times as [|t later IH]; intros last.
  - cbn. intros [H _]. auto.
  - intros [Hle H]. destruct (IH _ H) as [Ha Hl]. rewrite last_cons.
    repeat split; auto.
Qed.

Lemma tracks_initial key first : tracks initialCache key [] first.
Proof. split; [reflexivity|]. cbn. intros t []. Qed.

(** *** The claims *)

(** C1. After window resets (a counter whose reset time is at or before
    [now] counts as 0 with reset time [now] plus its window: [current]),
    [rateLimit] throws a 429 response exactly when the burst counter has
    reached [burstLimit] or the sustained counter has reached
    [sustainedLimit], and returns otherwise. When it throws, the stored
    bucket of the shop is the one found with only the window resets applied
    (no increment), no other key and no high-usage record changes; when it
    returns, the stored bucket has both counters one higher. *)
Theorem rateLimit_rejects_iff_over_limit now shop sustainedLimit burstLimit st :
  let c := rateLimitCache st in
  let key := shopKey shop in
  let b := current c now shop in
  let out := rateLimit toISOString now shop sustainedLimit burstLimit st in
  ((exists resp, fst out = Throw resp /\ status resp = 429)
   <-> burstLimit <= burstCount b \/ sustainedLimit <= sustainedCount b)
  /\ ((exists info, fst out = Return info)
      <-> ~ (burstLimit <= burstCount b \/ sustainedLimit <= sustainedCount b))
  /\ (forall resp, fst out = Throw resp ->
      LRU.peek (rateLimitCache (snd out)) key
        = option_map (afterResets now) (live c now key)
      /\ (forall k', k' <> key ->
          LRU.peek (rateLimitCache (snd out)) k' = LRU.peek c k')
      /\ highUsageLog (snd out) = highUsageLog st)
  /\ (forall info, fst out = Return info ->
      LRU.peek (rateLimitCache (snd out)) key
        = Some (mkBucket (burstCount b + 1) (burstReset b)
                  (sustainedCount b + 1) (sustainedReset b))).
Proof.
  cbv zeta.
  pose proof (rateLimit_outcome now shop sustainedLimit burstLimit st) as Hout.
  pose proof (rateLimit_cache now shop sustainedLimit burstLimit st) as Hcache.
  pose proof (peek_cacheAfter_same now shop sustainedLimit burstLimit
                (rateLimitCache st)) as Hpeek.
  cbv zeta in Hout. rewrite <- Hcache in Hpeek.
  assert (Hover : overLimit sustainedLimit burstLimit
                    (current (rateLimitCache st) now shop) = true
                  <-> burstLimit <= burstCount (current (rateLimitCache st) now shop)
                      \/ sustainedLimit <= sustainedCount (current (rateLimitCache st) now shop)).
  { unfold overLimit. rewrite orb_true_iff, !Z.leb_le. reflexivity. }
  destruct (overLimit sustainedLimit burstLimit
              (current (rateLimitCache st) now shop)) eqn:Hlim.
  - destruct Hout as (resp & Hresp & Hstatus & _).
    repeat split.
    + intros _. now apply Hover.
    + intros _. now exists resp.
    + intros [info Hinfo]. congruence.
    + intros Hno. exfalso. apply Hno. now apply Hover.
    + exact Hpeek.
    + intros k' Hk'. rewrite !peek_find, Hcache.
      now rewrite find_cacheAfter_other_throw.
    + eapply rateLimit_throw_keeps_highUsageLog; eassumption.
    + intros info Hinfo. congruence.
  - repeat split.
    + intros (resp & Hresp & _). congruence.
    + intros H. apply Hover in H. discriminate.
    + intros _ H. apply Hover in H. discriminate.
    + intros _. eauto.
    + congruence.
    + congruence.
    + congruence.
    + intros info _. exact Hpeek.
Qed.

(** The stored bucket of another key survives a call that cannot evict
    it. *)
Lemma rateLimit_peek_other now shop sl bl st k' :
  k' <> shopKey shop ->
  (List.length (LRU.entries (rateLimitCache st))
   <= LRU.max (rateLimitCache st))%nat ->
  LRU.peek (rateLimitCache st) (shopKey shop) <> None
    \/ (List.length (LRU.entries (rateLimitCache st))
        < LRU.max (rateLimitCache st))%nat
    \/ LRU.lruKey (rateLimitCache st) <> Some k' ->
  LRU.peek (rateLimitCache (snd (rateLimit toISOString now shop sl bl st))) k'
  = LRU.peek (rateLimitCache st) k'.
Proof.
  intros Hne Hfits Hroom.
  rewrite !peek_find, rateLimit_cache, find_cacheAfter_other; auto.
  destruct Hroom as [H|[H|H]]; auto. left.
  rewrite peek_find in H.
  destruct (LRU.find (shopKey shop) (LRU.entries (rateLimitCache st)));
    [discriminate | now elim H].
Qed.

(** In particular the buckets of another shop, of an IP address and of a
    cron endpoint survive while the cache is not full. *)
Lemma rateLimit_keeps_other_families now shop sl bl st :
  (List.length (LRU.entries (rateLimitCache st))
   < LRU.max (rateLimitCache st))%nat ->
  let c' := rateLimitCache (snd (rateLimit toISOString now shop sl bl st)) in
  (forall shop', shop' <> shop ->
     LRU.peek c' (shopKey shop') = LRU.peek (rateLimitCache st) (shopKey shop'))
  /\ (forall ip,
      LRU.peek c' (ipKey ip) = LRU.peek (rateLimitCache st) (ipKey ip))
  /\ (forall endpoint,
      LRU.peek c' (cronKey endpoint)
      = LRU.peek (rateLimitCache st) (cronKey endpoint)).
Proof.
  intros Hroom. cbv zeta. repeat split; intros;
    apply rateLimit_peek_other; auto; try lia.
  - intros Heq. now apply shopKey_inj in Heq.
  - apply shopKey_not_ipKey.
  - apply shopKey_not_cronKey.
Qed.

(** C7, as amended. A call for shop [s] leaves the stored bucket of every
    other key as it was, provided the call does not have to evict: the
    shop's key is already stored, or the cache holds fewer entries than its
    maximum (1000), or the other key is not the least recently used one.
    Outside [rateLimitCache] the call only adds log events and may record
    the shop in [highUsageLog]. *)
Theorem rateLimit_touches_only_its_key now shop sustainedLimit burstLimit st k' :
  k' <> shopKey shop ->
  (List.length (LRU.entries (rateLimitCache st))
   <= LRU.max (rateLimitCache st))%nat ->
  LRU.peek (rateLimitCache st) (shopKey shop) <> None
    \/ (List.length (LRU.entries (rateLimitCache st))
        < LRU.max (rateLimitCache st))%nat
    \/ LRU.lruKey (rateLimitCache st) <> Some k' ->
  let st' := snd (rateLimit toISOString now shop sustainedLimit burstLimit st) in
  LRU.peek (rateLimitCache st') k' = LRU.peek (rateLimitCache st) k'
  /\ ((exists ev, journal st' = ev :: journal st) \/ journal st' = journal st)
  /\ (highUsageLog st' = highUsageLog st
      \/ exists n, highUsageLog st' = LRU.set (highUsageLog st) now shop n).
Proof.
  intros Hne Hfits Hroom. cbv zeta. split.
  - now apply rateLimit_peek_other.
  - destruct (rateLimit_elsewhere now shop sustainedLimit burstLimit st)
      as [(ev & Hj & Hh)|[Hj Hh]]; split; eauto.
Qed.

(** C9, as amended. On the same shop, limits, time and stored buckets the
    two definitions of [rateLimit] leave the same buckets behind, make the
    same decision, resolve to equal values when they let the call through,
    and both throw status 429 when they do not; the thrown responses then
    have the same body unless the enhanced one is a burst rejection. *)
Theorem rateLimit_versions_agree now shop sustainedLimit burstLimit st :
  let out1 := rateLimitMinimal toISOString now shop sustainedLimit burstLimit
                (rateLimitCache st) in
  let out2 := rateLimit toISOString now shop sustainedLimit burstLimit st in
  snd out1 = rateLimitCache (snd out2)
  /\ match fst out1, fst out2 with
     | Return info1, Return info2 => info1 = info2
     | Throw resp1, Throw resp2 =>
         status resp1 = 429 /\ status resp2 = 429
         /\ (body resp1 = body resp2
             \/ body resp2 = "Too Many Requests (burst limit)")
     | _, _ => False
     end.
Proof.
  cbv zeta. split.
  - now rewrite rateLimitMinimal_cache, rateLimit_cache.
  - pose proof (rateLimit_outcome now shop sustainedLimit burstLimit st) as H2.
    pose proof (rateLimitMinimal_outcome now shop sustainedLimit burstLimit
                  (rateLimitCache st)) as H1.
    cbv zeta in H1, H2.
    destruct (overLimit sustainedLimit burstLimit
                (current (rateLimitCache st) now shop)).
    + destruct H2 as (resp & -> & Hstatus & Hburst & Hplain). rewrite H1.
      repeat split; auto.
      destruct (Z.le_gt_cases burstLimit
                  (burstCount (current (rateLimitCache st) now shop))) as [Hb|Hb].
      * right. now apply Hburst.
      * left. symmetry. apply Hplain. lia.
    + now rewrite H1, H2.
Qed.

End WithDate.
(** *** Concrete runs *)

Example rateLimit_first_call :
  rateLimit isoStub 5 "a.myshopify.com" 100 40 initialState
  = (Return (mkRateInfo 99 "60005" false),
     mkState
       (LRU.mkCache 1000 60000
          [LRU.mkEntry "rate-limit:a.myshopify.com"
             (mkBucket 1 10005 1 60005) 5])
       (LRU.create 100 300000) []).
Proof. vm_compute. reflexivity. Qed.

Example rateLimit_burst_exhausted :
  fst (rateLimit isoStub 9999 "a" 100 40
         (fst (replay isoStub "a" 100 40 (repeat 0 40) initialState [])))
  = Throw (mkResponse "Too Many Requests (burst limit)" 429
             [("Retry-After", "1"); ("X-RateLimit-Limit", "40/10s");
              ("X-RateLimit-Remaining", "0"); ("X-RateLimit-Reset", "10000")]).
Proof. vm_compute. reflexivity. Qed.

(** C2 fails as stated (sliding window): after requests granted at 0 ms and
    9000 ms, a call at 10000 ms sees a burst counter of 0, although the
    request made 1000 ms earlier lies within the trailing 10 s. *)
Lemma sliding_window_undercounts :
  let run := replay isoStub "a" 100 40 [0; 9000] initialState [] in
  snd run = [9000; 0]
  /\ burstCount (current (rateLimitCache (fst run)) 10000 "a") = 0
  /\ trailing 10000 10000 (snd run) = 1
  /\ burstCount (current (rateLimitCache (fst run)) 10000 "a")
     <> trailing 10000 10000 (snd run).
Proof. vm_compute. repeat split; discriminate. Qed.

(** C7 fails as stated: with a thousand shops stored, a first call for one
    more shop evicts the bucket of the least recently used shop. *)
Lemma rateLimit_evicts_another_shop :
  shopKey "0" <> shopKey "new"
  /\ LRU.peek (rateLimitCache fullState) (shopKey "0")
     = Some (mkBucket 1 10000 1 60000)
  /\ LRU.peek
       (rateLimitCache (snd (rateLimit isoStub 1 "new" 100 40 fullState)))
       (shopKey "0")
     = None.
Proof. split; [discriminate|]. vm_compute. split; reflexivity. Qed.

Lemma rateLimit_touches_only_its_key_witness :
  LRU.peek
    (rateLimitCache
       (snd (rateLimit isoStub 5 "b" 100 40
               (snd (rateLimit isoStub 0 "a" 100 40 initialState)))))
    (shopKey "a")
  = LRU.peek (rateLimitCache (snd (rateLimit isoStub 0 "a" 100 40 initialState)))
      (shopKey "a").
Proof.
  apply (rateLimit_touches_only_its_key isoStub 5 "b" 100 40
           (snd (rateLimit isoStub 0 "a" 100 40 initialState)) (shopKey "a")).
  - discriminate.
  - vm_compute. lia.
  - right. left. vm_compute. lia.
Defined.

(** C9 fails as stated: on a burst rejection the two definitions throw
    responses with different bodies, not only different headers. *)
Lemma burst_rejection_bodies_differ :
  let st := fst (replay isoStub "a" 100 40 (repeat 0 40) initialState []) in
  fst (rateLimitMinimal isoStub 0 "a" 100 40 (rateLimitCache st))
  = Throw (mkResponse "Too Many Requests" 429 [])
  /\ exists resp,
      fst (rateLimit isoStub 0 "a" 100 40 st) = Throw resp
      /\ body resp = "Too Many Requests (burst limit)"
      /\ body resp <> "Too Many Requests".
Proof.
  vm_compute. split; [reflexivity|].
  eexists. split; [reflexivity|]. split; [reflexivity|discriminate].
Qed.

End RateLimiterFacts.

(** ** Webhook helpers *)

Module WebhookFacts.
Import Js Webhook.

(** *** Signature check *)

Lemma base64_nonempty l : l <> [] -> base64 l <> "".
Proof.
  destruct l as [|a [|b [|c l]]]; [congruence|..]; intros _; discriminate.
Qed.

Lemma digest_nonempty (d : Digest) : octets d <> [].
Proof. destruct d as [[|a l] H]; [discriminate|]. discriminate. Qed.

(** The base64 text of a digest has 44 characters. *)
Lemma base64_digest_length (d : Digest) :
  String.length (base64 (octets d)) = 44%nat.
Proof.
  destruct d as [l H]. cbn [octets].
  do 32 (destruct l as [|? l]; [discriminate|]).
  destruct l; [reflexivity|discriminate].
Qed.

Section Verify.
Variable hmacSha256 : string -> string -> Digest.

(** C5. [verifyWebhookSignature] is one comparison: it is [true] exactly
    when the signature is present and equal to the base64 text of the
    HMAC-SHA256 of the body under the secret; for a missing signature it
    is [false]. Being a total function, it never throws. *)
Theorem verifyWebhookSignature_iff rawBody signature secret :
  (verifyWebhookSignature hmacSha256 rawBody signature secret = true
   <-> signature = Some (base64 (octets (hmacSha256 secret rawBody))))
  /\ (signature = None ->
      verifyWebhookSignature hmacSha256 rawBody signature secret = false).
Proof.
  split; [|intros ->; reflexivity].
  destruct signature as [[|c s]|]; cbn [verifyWebhookSignature].
  - split; [discriminate|]. intros [= H]. symmetry in H.
    now apply base64_nonempty in H; [|apply digest_nonempty].
  - rewrite String.eqb_eq. split; [now intros ->|now intros [= ->]].
  - split; discriminate.
Qed.

End Verify.
(** *** The retry loop *)

Section Retry.
Context {W E : Type}.
Variable loggerError : ErrorLogger E.
Variable handler : Handler W E.
Variable maxRetries : Z.

Lemma calls_app (a b : list (Event E)) : calls (a ++ b) = (calls a + calls b)%nat.
Proof. unfold calls. now rewrite filter_app, length_app. Qed.

Lemma delays_app (a b : list (Event E)) : delays (a ++ b) = delays a ++ delays b.
Proof.
  induction a as [|ev a IH]; [reflexivity|].
  destruct ev; cbn [delays app]; now rewrite IH.
Qed.

Lemma resultAt_S n w :
  resultAt handler (S n) w = resultAt handler n (snd (handler w)).
Proof. reflexivity. Qed.

Lemma failsLogged_S first n w :
  failsLogged loggerError handler (first + 1) n (snd (handler w))
  -> failsLogged loggerError handler first (S n) w.
Proof.
  intros (e & u & He & Hu). exists e, u. rewrite resultAt_S.
  split; [exact He|].
  now replace (first + Z.of_nat (S n)) with (first + 1 + Z.of_nat n) by lia.
Qed.

Lemma failsUnlogged_S first n w thrown :
  failsUnlogged loggerError handler (first + 1) n (snd (handler w)) thrown
  -> failsUnlogged loggerError handler first (S n) w thrown.
Proof.
  intros (e & He & Hu). exists e. rewrite resultAt_S.
  split; [exact He|].
  now replace (first + Z.of_nat (S n)) with (first + 1 + Z.of_nat n) by lia.
Qed.

(** A call cannot both be logged and not, nor both fail and return. *)
Lemma failsLogged_not_unlogged first n w thrown :
  failsLogged loggerError handler first n w ->
  failsUnlogged loggerError handler first n w thrown -> False.
Proof.
  intros (e & u & He & Hu) (e' & He' & Hu'). congruence.
Qed.

Lemma failsLogged_not_returns first n w :
  failsLogged loggerError handler first n w ->
  resultAt handler n w = Return tt -> False.
Proof. intros (e & u & He & _) H. congruence. Qed.

Lemma failsUnlogged_not_returns first n w thrown :
  failsUnlogged loggerError handler first n w thrown ->
  resultAt handler n w = Return tt -> False.
Proof. intros (e & He & _) H. congruence. Qed.

Lemma segments_pending (events : list (Event E)) pending :
  segments events pending
  = match segments events [] with
    | first :: others => (pending ++ first) :: others
    | [] => [pending]
    end.
Proof.
  revert pending. induction events as [|ev events IH]; intros pending.
  - cbn. now rewrite app_nil_r.
  - destruct ev as [|attempt error|ms]; cbn [segments].
    + now rewrite app_nil_r.
    + apply IH.
    + rewrite (IH (pending ++ [ms])), (IH ([] ++ [ms])).
      destruct (segments events []); [reflexivity|].
      now rewrite <- app_assoc.
Qed.

(** The loop with [n] attempts left, started at [attempt]. It ends with a
    handler call that returns, with a failure that the logger cannot
    write, or after [n] failures that were all written. *)
Lemma retryLoop_spec : forall n fuel attempt lastError w events,
  Z.of_nat n = Z.max 0 (maxRetries - attempt + 1) -> (n <= fuel)%nat ->
  exists r w' evs,
    retryLoop loggerError handler maxRetries fuel attempt lastError w events
      = Some (r, w', events ++ evs)
    /\ (calls evs <= n)%nat
    /\ (0 < n -> 0 < calls evs)%nat
    /\ delays evs
       = map (fun j => 2 ^ (attempt + Z.of_nat j) * 1000) (seq 0 (calls evs - 1))
    /\ (r = Return tt ->
        exists k, calls evs = S k
          /\ (forall j, (j < k)%nat -> failsLogged loggerError handler attempt j w)
          /\ resultAt handler k w = Return tt
          /\ w' = stateAfter handler (S k) w)
    /\ (forall err, r = Throw err ->
        (calls evs = n
         /\ (forall j, (j < n)%nat -> failsLogged loggerError handler attempt j w)
         /\ w' = stateAfter handler n w
         /\ match n with
            | O => err = lastError
            | S m => exists e, err = Some e /\ resultAt handler m w = Throw e
            end)
        \/ (exists k thrown,
              calls evs = S k /\ (k < n)%nat
              /\ (forall j, (j < k)%nat ->
                            failsLogged loggerError handler attempt j w)
              /\ failsUnlogged loggerError handler attempt k w thrown
              /\ err = Some thrown
              /\ w' = stateAfter handler (S k) w))
    /\ segments evs []
       = match calls evs with
         | O => [[]]
         | S c =>
             [] :: map (fun j => [2 ^ (attempt + Z.of_nat j) * 1000]) (seq 0 c)
                ++ [[]]
         end.
Proof.
  induction n as [|m IH]; intros fuel attempt lastError w events Hn Hfuel.
  - exists (Throw lastError), w, [].
    assert (Hrun : retryLoop loggerError handler maxRetries fuel attempt
                     lastError w events
                   = Some (Throw lastError, w, events ++ [])).
    { rewrite app_nil_r.
      destruct fuel; cbn [retryLoop];
        (destruct (Z.leb_spec attempt maxRetries); [lia|reflexivity]). }
    split; [exact Hrun|]. split; [cbn; lia|]. split; [lia|].
    split; [reflexivity|]. split; [discriminate|]. split; [|reflexivity].
    intros err [= <-]. left. repeat split. intros j Hj. lia.
  - destruct fuel as [|fuel]; [lia|]. cbn [retryLoop].
    destruct (Z.leb_spec attempt maxRetries) as [Hle|]; [|lia].
    destruct (handler w) as [[u|e] w1] eqn:Hh.
    + exists (Return tt), w1, [HandlerCall].
      split; [reflexivity|]. repeat split; cbn; try lia.
      * intros _. exists O. repeat split.
        -- intros j Hj. lia.
        -- unfold resultAt. cbn. rewrite Hh. now destruct u.
        -- now rewrite Hh.
      * discriminate.
    + cbv zeta.
      destruct (loggerError (attemptFailed attempt) e) as [u|thrown] eqn:Hlog.
      * destruct (IH fuel (attempt + 1) (Some e) w1
                    (if attempt <? maxRetries
                     then (events ++ [HandlerCall; LoggerError attempt e])
                          ++ [SetTimeout (2 ^ attempt * 1000)]
                     else events ++ [HandlerCall; LoggerError attempt e])
                    ltac:(lia) ltac:(lia))
          as (r & w' & evs1 & Hrun & Hcalls & Hpos & Hdelays & Hret & Hthrow
              & Hseg).
        assert (Hw1 : w1 = snd (handler w)) by now rewrite Hh.
        assert (Hfail0 : failsLogged loggerError handler attempt 0 w).
        { exists e, u. unfold resultAt. cbn. rewrite Hh, Z.add_0_r. auto. }
        assert (Hfails : forall k,
                  (forall j, (j < k)%nat ->
                             failsLogged loggerError handler (attempt + 1) j w1) ->
                  forall j, (j < S k)%nat ->
                            failsLogged loggerError handler attempt j w).
        { intros k Hk [|j] Hj; [exact Hfail0|].
          apply failsLogged_S. rewrite <- Hw1. apply Hk. lia. }
        exists r, w',
          ([HandlerCall; LoggerError attempt e]
           ++ (if attempt <? maxRetries
               then [SetTimeout (2 ^ attempt * 1000)] else [])
           ++ evs1).
        split.
        { rewrite Hrun.
          destruct (attempt <? maxRetries); now rewrite <- !app_assoc. }
        assert (Hc : calls ([HandlerCall; LoggerError attempt e]
                            ++ (if attempt <? maxRetries
                                then [SetTimeout (2 ^ attempt * 1000)] else [])
                            ++ evs1) = S (calls evs1)).
        { rewrite !calls_app. now destruct (attempt <? maxRetries). }
        rewrite Hc, !delays_app, Hdelays.
        split; [lia|]. split; [lia|]. split; [|split; [|split]].
        -- replace (S (calls evs1) - 1)%nat with (calls evs1) by lia.
           destruct (Z.ltb_spec attempt maxRetries) as [Hlt|Hge]; cbn [delays app].
           ++ specialize (Hpos ltac:(lia)).
              destruct (calls evs1) as [|c]; [lia|].
              cbn [seq map]. rewrite Z.add_0_r. f_equal.
              replace (S c - 1)%nat with c by lia.
              rewrite <- seq_shift, map_map.
              apply map_ext. intros j. do 2 f_equal. lia.
           ++ assert (calls evs1 = O) as -> by lia. reflexivity.
        -- intros Hr. destruct (Hret Hr) as (k & Hk & Hbefore & Hok & Hw).
           exists (S k). repeat split.
           ++ now rewrite Hk.
           ++ now apply Hfails.
           ++ now rewrite resultAt_S, Hh.
           ++ rewrite Hw. cbn [stateAfter]. now rewrite Hh.
        -- intros err Hr.
           destruct (Hthrow err Hr)
             as [(Hk & Hall & Hw & Hlast)
                |(k & thrown & Hk & Hkm & Hbefore & Hun & Herr & Hw)].
           ++ left. repeat split.
              ** now rewrite Hk.
              ** now apply Hfails.
              ** rewrite Hw. cbn [stateAfter]. now rewrite Hh.
              ** destruct m as [|m'].
                 --- exists e. split; [exact Hlast|].
                     unfold resultAt. cbn. now rewrite Hh.
                 --- destruct Hlast as (e' & He' & Hres). exists e'.
                     split; [exact He'|]. now rewrite resultAt_S, Hh.
           ++ right. exists (S k), thrown. repeat split.
              ** now rewrite Hk.
              ** lia.
              ** now apply Hfails.
              ** apply failsUnlogged_S. now rewrite <- Hw1.
              ** exact Herr.
              ** rewrite Hw. cbn [stateAfter]. now rewrite Hh.
        -- cbn [app segments].
           destruct (Z.ltb_spec attempt maxRetries) as [Hlt|Hge]; cbn [app segments].
           ++ specialize (Hpos ltac:(lia)).
              rewrite (segments_pending evs1 [2 ^ attempt * 1000]), Hseg.
              destruct (calls evs1) as [|c]; [lia|].
              cbn [seq map app]. rewrite Z.add_0_r. do 2 f_equal.
              rewrite <- seq_shift, map_map. f_equal.
              apply map_ext. intros j.
              now replace (attempt + 1 + Z.of_nat j)
                with (attempt + Z.of_nat (S j)) by lia.
           ++ assert (calls evs1 = O) as Hnone by lia.
              rewrite Hseg, Hnone. reflexivity.
      * exists (Throw (Some thrown)), w1, [HandlerCall; LoggerError attempt e].
        split; [reflexivity|].
        split; [cbn; lia|]. split; [cbn; lia|]. split; [reflexivity|].
        split; [discriminate|]. split; [|reflexivity].
        intros err [= <-]. right. exists O, thrown. repeat split.
        -- lia.
        -- intros j Hj. lia.
        -- exists e. unfold resultAt. cbn. rewrite Hh, Z.add_0_r. auto.
        -- cbn [stateAfter]. now rewrite Hh.
Qed.

(** C3, as amended. The loop backs off exponentially: between the
    [(j + 1)]-th and the [(j + 2)]-th handler call of a run exactly one timer
    is set, of [2 ^ (j + 1)] seconds (2 s after the first failed attempt,
    4 s after the second, ...); none is set before the first call or after
    the last one. So the delays of a run are 2 s, 4 s, 8 s, ..., one per pair
    of consecutive attempts. *)
Theorem retry_delays_double w :
  exists r w' events,
    handleWebhookWithRetry loggerError handler maxRetries w
    = Some (r, w', events)
    /\ segments events []
       = match calls events with
         | O => [[]]
         | S c =>
             [] :: map (fun j => [2 ^ (1 + Z.of_nat j) * 1000]) (seq 0 c)
                ++ [[]]
         end
    /\ delays events
       = map (fun j => 2 ^ (1 + Z.of_nat j) * 1000) (seq 0 (calls events - 1))
    /\ List.length (delays events) = (calls events - 1)%nat.
Proof.
  destruct (retryLoop_spec (Z.to_nat maxRetries) (Z.to_nat maxRetries) 1 None w []
              ltac:(lia) ltac:(lia))
    as (r & w' & evs & Hrun & _ & _ & Hdelays & _ & _ & Hseg).
  exists r, w', evs. split; [exact Hrun|]. split; [exact Hseg|].
  split; [exact Hdelays|].
  now rewrite Hdelays, length_map, length_seq.
Qed.


End Retry.

(** C3 fails as stated (fixed delay): three failing attempts are separated
    by 2000 ms and then 4000 ms. *)
Lemma retry_delays_not_constant :
  exists r w' events,
    handleWebhookWithRetry textLogger alwaysFails 3 O = Some (r, w', events)
    /\ segments events [] = [[]; [2000]; [4000]; []]
    /\ delays events = [2000; 4000]
    /\ ~ (exists d, forall ms, In ms (delays events) -> ms = d).
Proof.
  do 3 eexists. split; [vm_compute; reflexivity|].
  split; [reflexivity|]. split; [reflexivity|].
  intros [d Hd].
  pose proof (Hd 2000 (or_introl eq_refl)).
  pose proof (Hd 4000 (or_intror (or_introl eq_refl))).
  lia.
Qed.


Example verifyWebhookSignature_accepts :
  verifyWebhookSignature hmacStub "{}"
    (Some "AAAAAAAAAAAAAAAAAAAAAAAAAAAAAAAAAAAAAAAAAAA=") "secret" = true.
Proof. reflexivity. Qed.

Example verifyWebhookSignature_rejects :
  verifyWebhookSignature hmacStub "{}" (Some "") "secret" = false
  /\ verifyWebhookSignature hmacStub "{}" None "secret" = false
  /\ verifyWebhookSignature hmacStub "{}" (Some "AAAA") "secret" = false.
Proof. repeat split. Qed.

Example retry_second_time_lucky :
  handleWebhookWithRetry textLogger secondTimeLucky defaultMaxRetries O
  = Some (Return tt, 2%nat,
          [HandlerCall; LoggerError 1 "boom"; SetTimeout 2000; HandlerCall]).
Proof. reflexivity. Qed.


End WebhookFacts.

(** ** Insight generation *)

Module InsightsFacts.
Import Js Insights.

(** *** Sorting *)

Section Sorting.
Context {A : Type}.
Variable key : A -> Z.

Lemma In_insert x y l :
  In y (insert (byKeyDescending key) x l) <-> y = x \/ In y l.
Proof.
  induction l as [|z l IH]; cbn [insert].
  - cbn. intuition.
  - destruct ((byKeyDescending key) x z <=? 0); cbn [In] in *; [intuition|].
    rewrite IH. intuition.
Qed.

Lemma In_sort y l : In y (sort (byKeyDescending key) l) <-> In y l.
Proof.
  induction l as [|x l IH]; cbn [sort]; [reflexivity|].
  rewrite In_insert, IH. cbn. intuition.
Qed.

Lemma insert_sorted x l :
  StronglySorted (descending key) l ->
  StronglySorted (descending key) (insert (byKeyDescending key) x l).
Proof.
  induction 1 as [|z l Hl IH Hz]; cbn [insert].
  - repeat constructor.
  - unfold byKeyDescending at 1.
    destruct (Z.leb_spec (key z - key x) 0) as [Hle|Hgt].
    + constructor; [now constructor|].
      constructor; [unfold descending; lia|].
      rewrite Forall_forall in *. intros y Hy. specialize (Hz y Hy).
      unfold descending in *. lia.
    + constructor; [exact IH|].
      rewrite Forall_forall in *. intros y Hy.
      apply In_insert in Hy. destruct Hy as [->|Hy]; [|now apply Hz].
      unfold descending. lia.
Qed.

Lemma sort_sorted l : StronglySorted (descending key) (sort (byKeyDescending key) l).
Proof.
  induction l as [|x l IH]; cbn [sort]; [constructor|now apply insert_sorted].
Qed.

Lemma firstn_sorted (R : A -> A -> Prop) n l :
  StronglySorted R l -> StronglySorted R (firstn n l).
Proof.
  intros H. revert n. induction H as [|x l Hl IH Hx]; intros [|n]; cbn [firstn];
    try constructor; auto.
  rewrite Forall_forall in *. intros y Hy. apply Hx.
  rewrite <- (firstn_skipn n l). apply in_or_app. now left.
Qed.

Lemma In_firstn (x : A) n l : In x (firstn n l) -> In x l.
Proof.
  intros H. rewrite <- (firstn_skipn n l). apply in_or_app. now left.
Qed.

End Sorting.

Lemma map_sorted {A B} (R : A -> A -> Prop) (R' : B -> B -> Prop) (f : A -> B) l :
  (forall a b, In a l -> In b l -> R a b -> R' (f a) (f b)) ->
  StronglySorted R l -> StronglySorted R' (map f l).
Proof.
  intros Hf H. induction H as [|x l Hl IH Hx]; cbn [map]; constructor.
  - apply IH. intros a b Ha Hb. apply Hf; now right.
  - rewrite Forall_forall in *. intros y Hy.
    apply in_map_iff in Hy. destruct Hy as (a & <- & Ha).
    apply Hf; [now left|now right|now apply Hx].
Qed.

(** *** Dropping the score *)

Lemma prop_rest_score o : prop "score" (rest o) = None.
Proof.
  induction o as [|[k v] o IH]; [reflexivity|]. cbn [rest].
  destruct (String.eqb k "score") eqn:Hk; [exact IH|].
  cbn [prop]. rewrite String.eqb_sym, Hk. exact IH.
Qed.

Lemma prop_rest_other name o :
  name <> "score" -> prop name (rest o) = prop name o.
Proof.
  intros Hne. induction o as [|[k v] o IH]; [reflexivity|]. cbn [rest prop].
  destruct (String.eqb_spec k "score") as [->|Hk].
  - destruct (String.eqb_spec name "score"); [congruence|exact IH].
  - cbn [prop]. now rewrite IH.
Qed.

Lemma In_rest k v o : In (k, v) (rest o) -> In (k, v) o /\ k <> "score".
Proof.
  induction o as [|[k0 v0] o IH]; [intros []|]. cbn [rest].
  destruct (String.eqb_spec k0 "score") as [->|Hk].
  - intros H. destruct (IH H). split; [now right|assumption].
  - intros [[= <- <-]|H]; [split; [now left|assumption]|].
    destruct (IH H). split; [now right|assumption].
Qed.

Lemma cardKind_rest o : cardKind (rest o) = cardKind o.
Proof. unfold cardKind. now rewrite prop_rest_other by discriminate. Qed.

Lemma scoredCard_score o :
  scoredCard o -> cardKindScore (rest o) = score o /\ cardKindScore o = score o.
Proof.
  intros (_ & (z & Hz & Hs) & _). unfold cardKindScore, score.
  now rewrite cardKind_rest, Hz, Hs.
Qed.

(** *** The cards *)

Section Generate.
Variable toFixed : float -> Z -> string.
Variable numberToString : float -> string.

Lemma Forall_push {A} (P : A -> Prop) l x :
  Forall P l -> P x -> Forall P (l ++ [x]).
Proof. intros Hl Hx. apply Forall_app. split; [exact Hl|now constructor]. Qed.

Ltac kindIn := cbn; repeat (first [left; reflexivity | right]).

Ltac card :=
  split; [kindIn | split; [eexists; split; reflexivity | reflexivity]].

Ltac pushes :=
  repeat match goal with
         | |- Forall _ (_ ++ [_]) => apply Forall_push; [|card]
         | |- Forall _ (if ?c then _ else _) => destruct c
         | |- Forall _ (match ?o with Some _ => _ | None => _ end) => destruct o
         | |- Forall _ (let _ := _ in _) => cbv zeta
         end;
  try assumption.

(** One statement of the body: the list so far satisfies [scoredCard], and
    so does the list after the statement. *)
Ltac statement :=
  lazymatch goal with
  | |- Forall ?P (let x := ?e in @?f x) =>
      let H := fresh "H" in
      assert (H : Forall P e);
      [ pushes
      | change (Forall P (f e)); generalize e H; clear; intros ? ?; cbv beta ]
  end.

Lemma collectInsights_scored metrics now :
  Forall scoredCard (collectInsights toFixed numberToString metrics now).
Proof.
  cbv beta delta [collectInsights].
  statement; [constructor|].
  do 14 (statement; []).
  assumption.
Qed.

Lemma generateInsights_from_collect metrics now c :
  In c (generateInsights toFixed numberToString metrics now) ->
  exists c0, In c0 (collectInsights toFixed numberToString metrics now)
             /\ scoredCard c0 /\ c = rest c0.
Proof.
  unfold generateInsights. cbv zeta. intros H.
  apply in_map_iff in H. destruct H as (c0 & <- & H).
  apply In_firstn in H.
  change (In c0 (sort (byKeyDescending score)
                   (collectInsights toFixed numberToString metrics now))) in H.
  apply In_sort in H. exists c0. split; [exact H|]. split; [|reflexivity].
  pose proof (collectInsights_scored metrics now) as Hall.
  rewrite Forall_forall in Hall. now apply Hall.
Qed.


(** C8. At most 4 cards are returned; none of them has a [score] property
    any more, and all their properties are those of [InsightCardProps]. *)
Theorem generateInsights_top4_without_score metrics now :
  (List.length (generateInsights toFixed numberToString metrics now) <= 4)%nat
  /\ forall c, In c (generateInsights toFixed numberToString metrics now) ->
       prop "score" c = None
       /\ keysWithin cardProps c = true
       /\ exists c0, In c0 (collectInsights toFixed numberToString metrics now)
                     /\ c = rest c0.
Proof.
  split.
  - unfold generateInsights. cbv zeta. rewrite length_map, length_firstn. lia.
  - intros c Hc. apply generateInsights_from_collect in Hc.
    destruct Hc as (c0 & Hin & (_ & _ & Hkeys) & ->).
    split; [apply prop_rest_score|]. split; [|eauto].
    unfold keysWithin in *. rewrite forallb_forall in *.
    intros [k v] Hkv. apply In_rest in Hkv. destruct Hkv as [Hkv Hne].
    specialize (Hkeys _ Hkv). cbn [fst existsb] in *.
    destruct (String.eqb_spec k "score"); [contradiction|exact Hkeys].
Qed.

End Generate.

Example generateInsights_sample :
  map cardKind
    (generateInsights toFixedStub numberToStringStub sampleMetrics 86400000)
  = ["no-visibility"; "no-bundles"; "cart-disabled"; "no-clicks"].
Proof. vm_compute. reflexivity. Qed.

Example collectInsights_sample :
  map (fun c => (cardKind c, score c))
    (collectInsights toFixedStub numberToStringStub sampleMetrics 86400000)
  = [("no-visibility", 100); ("cart-disabled", 95); ("no-bundles", 97);
     ("no-clicks", 85); ("low-ctr", 82); ("shipping-low", 78);
     ("first-sale", 70); ("ml-improving", 55)].
Proof. vm_compute. reflexivity. Qed.

End InsightsFacts.

(** ** Money formatting *)

Module FormattersFacts.
Import Js Formatters.

Section Format.
Variable parseFloat : string -> float.
Variable amountToString : amountArg -> string.
Variable formatCurrency : string -> float -> string.

(** The number that gets formatted. *)
Lemma formatMoney_result debugMode amount currencyCode :
  fst (formatMoney parseFloat amountToString formatCurrency
         debugMode amount currencyCode)
  = numberFormat formatCurrency currencyCode
      (let numericAmount :=
         match amount with Text s => parseFloat s | Number x => x end in
       if PrimFloat.is_nan numericAmount then 0%float else numericAmount).
Proof.
  unfold formatMoney. cbv zeta.
  now destruct (PrimFloat.is_nan
                  match amount with Text s => parseFloat s | Number x => x end).
Qed.

(** Whether the call throws depends on the currency code alone. *)
Lemma formatMoney_throws_iff debugMode amount currencyCode :
  (exists e, fst (formatMoney parseFloat amountToString formatCurrency
                    debugMode amount currencyCode) = Throw e)
  <-> isWellFormedCurrencyCode currencyCode = false.
Proof.
  rewrite formatMoney_result. unfold numberFormat.
  destruct (isWellFormedCurrencyCode currencyCode).
  - split; [intros [e He]; discriminate|discriminate].
  - split; [reflexivity|]. intros _. eauto.
Qed.

(** C10, as amended. For a currency code that is well formed (three ASCII
    letters, what [Intl.NumberFormat] asks of it), [formatMoney] returns a
    formatted text for every amount, never throwing; a NaN amount gives the
    formatting of 0 in that currency. *)
Theorem formatMoney_total debugMode amount currencyCode :
  isWellFormedCurrencyCode currencyCode = true ->
  (exists text,
      fst (formatMoney parseFloat amountToString formatCurrency
             debugMode amount currencyCode) = Return text)
  /\ (forall x, amount = Number x -> PrimFloat.is_nan x = true ->
      fst (formatMoney parseFloat amountToString formatCurrency
             debugMode amount currencyCode)
      = Return (formatCurrency currencyCode 0%float))
  /\ (forall x, amount = Number x -> PrimFloat.is_nan x = false ->
      fst (formatMoney parseFloat amountToString formatCurrency
             debugMode amount currencyCode)
      = Return (formatCurrency currencyCode x)).
Proof.
  intros Hcode. rewrite formatMoney_result. unfold numberFormat.
  rewrite Hcode. cbv zeta. split; [eauto|].
  split; intros x -> Hx; now rewrite Hx.
Qed.

End Format.

Lemma formatMoney_total_witness :
  isWellFormedCurrencyCode "USD" = true
  /\ fst (formatMoney parseFloatStub amountToStringStub formatCurrencyStub
            false (Number nan) "USD")
     = Return (formatCurrencyStub "USD" 0%float).
Proof.
  split; [reflexivity|].
  destruct (formatMoney_total parseFloatStub amountToStringStub
              formatCurrencyStub false (Number nan) "USD" eq_refl)
    as (_ & Hnan & _).
  apply (Hnan nan); reflexivity.
Defined.

Example formatMoney_nan :
  formatMoney parseFloatStub amountToStringStub formatCurrencyStub
    true (Number nan) "USD"
  = (Return "USD 0.00",
     [ConsoleWarn "formatMoney received an invalid amount: NaN"]).
Proof. reflexivity. Qed.

(** C10 fails as stated (never throws): with the currency code [US], which
    is not well formed, the call throws a [RangeError] for the amount 5 and
    for NaN alike, and returns no text. *)
Lemma formatMoney_bad_currency :
  fst (formatMoney parseFloatStub amountToStringStub formatCurrencyStub
         false (Number 5) "US")
  = Throw (RangeError "Invalid currency code : US")
  /\ fst (formatMoney parseFloatStub amountToStringStub formatCurrencyStub
            false (Number nan) "US")
     = Throw (RangeError "Invalid currency code : US")
  /\ ~ (exists text,
          fst (formatMoney parseFloatStub amountToStringStub
                 formatCurrencyStub false (Number 5) "US")
          = Return text).
Proof.
  split; [reflexivity|]. split; [reflexivity|].
  intros [text H]. discriminate.
Qed.

End FormattersFacts.

(** ** The other limiters *)

Module RequestLimitsFacts.
Import Js LRU RateLimiter RequestLimits LRUFacts RateLimiterFacts.

(** *** Reading a decimal size *)

Lemma decimalValue_of_uint_acc d : forall acc : positive,
  Z.pos (Pos.of_uint_acc d acc) = decimalValue d (Z.pos acc).
Proof.
  induction d; intros acc; cbn [Pos.of_uint_acc decimalValue];
    rewrite ?IHd; try reflexivity; f_equal; lia.
Qed.

Lemma decimalValue_of_uint d : Z.of_N (Pos.of_uint d) = decimalValue d 0.
Proof.
  induction d; cbn [Pos.of_uint decimalValue Z.of_N];
    rewrite ?decimalValue_of_uint_acc; try reflexivity; exact IHd.
Qed.

Lemma decimalValue_to_uint p : decimalValue (Pos.to_uint p) 0 = Z.pos p.
Proof.
  now rewrite <- decimalValue_of_uint, DecimalPos.Unsigned.of_to.
Qed.

Lemma readDigits_string_of_uint d : forall acc seen,
  readDigits (NilEmpty.string_of_uint d) acc seen
  = match d with
    | Decimal.Nil => if seen then Some acc else None
    | _ => Some (decimalValue d acc)
    end.
Proof.
  induction d; intros acc seen;
    cbn [NilEmpty.string_of_uint readDigits decimalValue];
    try reflexivity;
    match goal with
    | |- context [digitValue ?c] =>
        let v := eval vm_compute in (digitValue c) in
        change (digitValue c) with v
    end;
    cbv beta iota; rewrite IHd; rewrite ?Z.add_0_r;
    destruct d; reflexivity.
Qed.

Lemma readInteger_digits d :
  d <> Decimal.Nil ->
  readInteger (NilEmpty.string_of_uint d)
  = readDigits (NilEmpty.string_of_uint d) 0 false.
Proof. destruct d; [congruence|..]; reflexivity. Qed.

Lemma readDigits_nonnil d acc seen :
  d <> Decimal.Nil ->
  readDigits (NilEmpty.string_of_uint d) acc seen = Some (decimalValue d acc).
Proof.
  intros H. rewrite readDigits_string_of_uint.
  destruct d; [congruence|reflexivity..].
Qed.

Lemma string_of_uint_nonnil d :
  d <> Decimal.Nil -> NilZero.string_of_uint d = NilEmpty.string_of_uint d.
Proof. destruct d; [congruence|reflexivity..]. Qed.

(** Reading back what [toString] wrote. *)
Lemma readInteger_toString n : readInteger (toString n) = Some n.
Proof.
  unfold toString. destruct n as [|p|p]; [reflexivity|..];
    pose proof (DecimalPos.Unsigned.to_uint_nonnil p) as Hnil;
    cbn [Z.to_int NilZero.string_of_int];
    rewrite string_of_uint_nonnil by assumption.
  - rewrite readInteger_digits, readDigits_nonnil by assumption.
    now rewrite decimalValue_to_uint.
  - change (readInteger (String "-" (NilEmpty.string_of_uint (Pos.to_uint p))))
      with (option_map Z.opp
              (readDigits (NilEmpty.string_of_uint (Pos.to_uint p)) 0 false)).
    rewrite readDigits_nonnil by assumption.
    now rewrite decimalValue_to_uint.
Qed.

Lemma toString_nonempty n : toString n <> "".
Proof.
  intros H. pose proof (readInteger_toString n) as Hp.
  rewrite H in Hp. discriminate.
Qed.

Lemma parseInt10_toString n : parseInt10 (toString n) = roundToDouble n.
Proof. unfold parseInt10. now rewrite readInteger_toString. Qed.

(** Below [2 ^ 53] in size every integer is a number. *)
Lemma roundToDouble_exact n : Z.abs n < 2 ^ 53 -> roundToDouble n = Finite n.
Proof.
  intros Hn. unfold roundToDouble. cbv zeta.
  destruct (Z.ltb_spec (Z.abs n) (2 ^ 53)); [reflexivity|lia].
Qed.

Lemma declaredSize_withContentLength text :
  text <> "" -> declaredSize (withContentLength text) = parseInt10 text.
Proof.
  intros Hne. unfold declaredSize, withContentLength, headersGet.
  cbn [headerList headerValues String.eqb Ascii.eqb Bool.eqb].
  reflexivity.
Qed.

Section WithText.
Variable numberToString : number -> string.

Lemma checkRequestSize_outcome request maxSize :
  fst (checkRequestSize numberToString request maxSize)
  = if greater (declaredSize request) maxSize
    then Throw (mkResponse "Payload Too Large" 413
                  [("Content-Type", "application/json")])
    else Return tt.
Proof.
  unfold checkRequestSize, declaredSize.
  destruct (headersGet request "content-length") as [[|c s]|];
    try reflexivity.
  cbv zeta. now destruct (greater (parseInt10 (String c s)) maxSize).
Qed.

(** X4. [checkRequestSize] throws, and then a 413, exactly when the number
    that [parseInt] reads from the [Content-Length] header is greater than
    [maxSize]; a request without the header, or with one that does not
    start with a numeral, passes. What [parseInt] reads from a decimal
    numeral is the binary64 number nearest to it: below [2 ^ 53] in size
    that is the integer itself, so such a request is rejected if and only
    if the integer is greater than [maxSize]; from there on sizes are
    rounded, and 9007199254740993 passes a limit of [2 ^ 53]. *)
Theorem checkRequestSize_rejects_iff_declared_larger request maxSize n :
  ((exists resp,
       fst (checkRequestSize numberToString request maxSize) = Throw resp)
   <-> greater (declaredSize request) maxSize = true)
  /\ (forall resp,
        fst (checkRequestSize numberToString request maxSize) = Throw resp ->
        status resp = 413 /\ body resp = "Payload Too Large")
  /\ (headersGet request "content-length" = None ->
      checkRequestSize numberToString request maxSize = (Return tt, []))
  /\ (readInteger (orElse (headersGet request "content-length") "") = None ->
      checkRequestSize numberToString request maxSize = (Return tt, []))
  /\ declaredSize (withContentLength (toString n)) = roundToDouble n
  /\ (Z.abs n < 2 ^ 53 ->
      declaredSize (withContentLength (toString n)) = Finite n
      /\ ((exists resp,
             fst (checkRequestSize numberToString
                    (withContentLength (toString n)) maxSize)
             = Throw resp)
          <-> maxSize < n))
  /\ checkRequestSize numberToString
       (withContentLength "9007199254740993") (2 ^ 53)
     = (Return tt, []).
Proof.
  assert (Hread : declaredSize (withContentLength (toString n))
                  = roundToDouble n).
  { rewrite declaredSize_withContentLength by apply toString_nonempty.
    apply parseInt10_toString. }
  split; [|split; [|split; [|split; [|split; [|split]]]]].
  - rewrite checkRequestSize_outcome.
    destruct (greater (declaredSize request) maxSize).
    + split; eauto.
    + split; [intros [resp H]; discriminate|discriminate].
  - intros resp. rewrite checkRequestSize_outcome.
    destruct (greater (declaredSize request) maxSize); [|discriminate].
    intros [= <-]. now split.
  - unfold checkRequestSize. now intros ->.
  - unfold checkRequestSize, parseInt10.
    destruct (headersGet request "content-length") as [[|c s]|];
      try reflexivity.
    cbn [orElse]. now intros ->.
  - exact Hread.
  - intros Hn. rewrite checkRequestSize_outcome, Hread.
    rewrite (roundToDouble_exact n Hn). split; [reflexivity|].
    cbn [greater]. destruct (Z.ltb_spec maxSize n) as [Hlt|Hge].
    + split; eauto.
    + split; [intros [resp Hresp]; discriminate|lia].
  - vm_compute. reflexivity.
Qed.

End WithText.

(** *** The one-counter limiters *)

Ltac reduce :=
  cbv beta iota zeta delta
    [fst snd burstCount burstReset sustainedCount sustainedReset
     rateLimitCache orb].

Lemma rateLimitByIP_cache now ip limit st :
  rateLimitCache (snd (rateLimitByIP now ip limit st))
  = singleAfter 60000 now (ipKey ip) limit (rateLimitCache st).
Proof.
  unfold rateLimitByIP, singleAfter, currentSingle, live, bumpSustained, ipKey.
  change (60 * 1000) with 60000.
  destruct (LRU.get (rateLimitCache st) now ("rate-limit-ip:" ++ ip))
    as [[[bc br sc sr]|] c1]; reduce.
  - destruct (sr <=? now); reduce; destruct (limit <=? _); reflexivity.
  - destruct (now + 60000 <=? now); reduce; destruct (limit <=? _); reflexivity.
Qed.

Lemma rateLimitCron_cache now endpoint limit st :
  rateLimitCache (snd (fst (rateLimitCron now endpoint limit st)))
  = singleAfter 3600000 now (cronKey endpoint) limit (rateLimitCache st).
Proof.
  unfold rateLimitCron, singleAfter, currentSingle, live, bumpSustained, cronKey.
  change (60 * 60 * 1000) with 3600000.
  destruct (LRU.get (rateLimitCache st) now ("rate-limit-cron:" ++ endpoint))
    as [[[bc br sc sr]|] c1]; reduce.
  - destruct (sr <=? now); reduce; destruct (limit <=? _); reflexivity.
  - destruct (now + 3600000 <=? now); reduce; destruct (limit <=? _); reflexivity.
Qed.

Lemma rateLimitByIP_outcome now ip limit st :
  let b := currentSingle 60000 (rateLimitCache st) now (ipKey ip) in
  let out := rateLimitByIP now ip limit st in
  highUsageLog (snd out) = highUsageLog st
  /\ if limit <=? sustainedCount b
     then fst out = Throw (mkResponse "Too Many Requests from IP" 429
                             [("Retry-After", "60")])
          /\ journal (snd out)
             = RateLimitExceeded "unknown" ip "ip-limit" :: journal st
     else fst out = Return tt /\ journal (snd out) = journal st.
Proof.
  unfold rateLimitByIP, currentSingle, live, ipKey.
  change (60 * 1000) with 60000.
  destruct (LRU.get (rateLimitCache st) now ("rate-limit-ip:" ++ ip))
    as [[[bc br sc sr]|] c1]; reduce.
  - destruct (sr <=? now); reduce; destruct (limit <=? _); repeat split.
  - destruct (now + 60000 <=? now); reduce; destruct (limit <=? _); repeat split.
Qed.

Lemma rateLimitCron_outcome now endpoint limit st :
  let b := currentSingle 3600000 (rateLimitCache st) now (cronKey endpoint) in
  let out := rateLimitCron now endpoint limit st in
  if limit <=? sustainedCount b
  then exists resp, fst (fst out) = Throw resp /\ status resp = 429
  else fst (fst out) = Return tt.
Proof.
  unfold rateLimitCron, currentSingle, live, cronKey.
  change (60 * 60 * 1000) with 3600000.
  destruct (LRU.get (rateLimitCache st) now ("rate-limit-cron:" ++ endpoint))
    as [[[bc br sc sr]|] c1]; reduce.
  - destruct (sr <=? now); reduce; destruct (limit <=? _); reduce; eauto.
  - destruct (now + 3600000 <=? now); reduce; destruct (limit <=? _); reduce;
      eauto.
Qed.

Lemma find_singleAfter_same window now k limit c :
  LRU.find k (LRU.entries (singleAfter window now k limit c))
  = if limit <=? sustainedCount (currentSingle window c now k)
    then match LRU.find k (LRU.entries c) with
         | Some e =>
             if LRU.isStale c now e then None
             else Some (LRU.mkEntry k (currentSingle window c now k)
                          (LRU.e_start e))
         | None => None
         end
    else Some (LRU.mkEntry k (bumpSustained (currentSingle window c now k)) now).
Proof.
  unfold singleAfter.
  destruct (limit <=? sustainedCount (currentSingle window c now k));
    [|apply find_set_same].
  rewrite live_find.
  destruct (LRU.find k (LRU.entries c)) as [e|] eqn:Hf.
  - destruct (LRU.isStale c now e) eqn:Hs.
    + rewrite find_get_same, Hf, Hs. reflexivity.
    + rewrite find_mutate_same, find_get_same, Hf, Hs. cbn [option_map].
      now rewrite (find_key _ _ _ Hf).
  - now rewrite find_get_same, Hf.
Qed.

Lemma find_singleAfter_other_throw window now k limit c k' :
  k' <> k ->
  (limit <=? sustainedCount (currentSingle window c now k)) = true ->
  LRU.find k' (LRU.entries (singleAfter window now k limit c))
  = LRU.find k' (LRU.entries c).
Proof.
  intros Hne Hover. unfold singleAfter. rewrite Hover.
  destruct (live c now k);
    [rewrite find_mutate_other by assumption|]; now apply find_get_other.
Qed.

Lemma ttl_singleAfter window now k limit c :
  LRU.ttl (singleAfter window now k limit c) = LRU.ttl c.
Proof.
  unfold singleAfter.
  assert (H : LRU.ttl
            match live c now k with
            | Some _ => LRU.mutate (snd (LRU.get c now k)) k
                          (currentSingle window c now k)
            | None => snd (LRU.get c now k)
            end = LRU.ttl c).
  { destruct (live c now k); cbn [LRU.mutate LRU.ttl]; apply options_get. }
  destruct (limit <=? sustainedCount (currentSingle window c now k));
    [exact H|].
  match goal with
  | |- LRU.ttl (LRU.set ?c2 ?t ?key ?v) = _ =>
      destruct (options_set c2 t key v) as [_ ->]
  end.
  exact H.
Qed.

(** X1. After the window reset (a sustained counter whose reset time is at
    or before [now] counts as 0 with reset time [now] plus 60 s),
    [rateLimitByIP] throws a 429 exactly when the counter of the address has
    reached [limit], and returns otherwise. A throw leaves the counter as it
    is and the buckets of all other keys untouched; a return stores the
    counter one higher. The burst fields of the bucket are never changed. *)
Theorem rateLimitByIP_rejects_iff_over_limit now ip limit st :
  let c := rateLimitCache st in
  let b := currentSingle 60000 c now (ipKey ip) in
  let out := rateLimitByIP now ip limit st in
  ((exists resp, fst out = Throw resp /\ status resp = 429)
   <-> limit <= sustainedCount b)
  /\ (fst out = Return tt <-> sustainedCount b < limit)
  /\ (forall resp, fst out = Throw resp ->
      LRU.peek (rateLimitCache (snd out)) (ipKey ip)
        = option_map (fun _ => b) (live c now (ipKey ip))
      /\ forall k', k' <> ipKey ip ->
           LRU.peek (rateLimitCache (snd out)) k' = LRU.peek c k')
  /\ (fst out = Return tt ->
      LRU.peek (rateLimitCache (snd out)) (ipKey ip)
        = Some (mkBucket (burstCount b) (burstReset b)
                  (sustainedCount b + 1) (sustainedReset b)))
  /\ (forall old, live c now (ipKey ip) = Some old ->
      burstCount b = burstCount old /\ burstReset b = burstReset old).
Proof.
  cbv zeta.
  pose proof (rateLimitByIP_outcome now ip limit st) as Hout.
  pose proof (rateLimitByIP_cache now ip limit st) as Hcache.
  pose proof (find_singleAfter_same 60000 now (ipKey ip) limit
                (rateLimitCache st)) as Hfind.
  cbv zeta in Hout. destruct Hout as [_ Hout].
  rewrite <- Hcache in Hfind.
  set (b := currentSingle 60000 (rateLimitCache st) now (ipKey ip)) in *.
  assert (Hlast : forall old, live (rateLimitCache st) now (ipKey ip) = Some old ->
            burstCount b = burstCount old /\ burstReset b = burstReset old).
  { intros old Hold. subst b. unfold currentSingle. rewrite Hold. cbv zeta.
    destruct (sustainedReset old <=? now); now split. }
  destruct (Z.leb_spec limit (sustainedCount b)) as [Hle|Hgt].
  - destruct Hout as [Hthrow _]. rewrite Hthrow.
    split; [split; [auto|intros _; eexists; split; reflexivity]|].
    split; [split; [discriminate|lia]|].
    split; [|split; [discriminate|exact Hlast]].
    intros resp _. split.
    + rewrite peek_find, Hfind, live_find.
      destruct (LRU.find (ipKey ip) (LRU.entries (rateLimitCache st))) as [e|];
        [|reflexivity].
      now destruct (LRU.isStale (rateLimitCache st) now e).
    + intros k' Hk'. rewrite !peek_find, Hcache.
      rewrite find_singleAfter_other_throw; [reflexivity|exact Hk'|].
      now apply Z.leb_le.
  - destruct Hout as [Hret _]. rewrite Hret.
    split; [split; [intros (resp & H & _); discriminate|lia]|].
    split; [split; [auto|reflexivity]|].
    split; [discriminate|]. split; [|exact Hlast].
    intros _. rewrite peek_find, Hfind. reflexivity.
Qed.

(** *** Cron runs and the 60 s lifetime of cache entries *)

Lemma cron_step c endpoint limit last now :
  storedBy c (cronKey endpoint) last -> last + 60000 < now -> 1 <= limit ->
  (limit <=? sustainedCount (currentSingle 3600000 c now (cronKey endpoint)))
  = false
  /\ storedBy (singleAfter 3600000 now (cronKey endpoint) limit c)
       (cronKey endpoint) now.
Proof.
  intros [Httl Hstart] Hgap Hlimit.
  assert (Hlive : live c now (cronKey endpoint) = None).
  { rewrite live_find.
    destruct (LRU.find (cronKey endpoint) (LRU.entries c)) as [e|];
      [|reflexivity].
    unfold LRU.isStale. rewrite Httl.
    destruct (Z.ltb_spec 60000 (now - LRU.e_start e)); [reflexivity|lia]. }
  assert (Hcount : (limit <=? sustainedCount
                      (currentSingle 3600000 c now (cronKey endpoint))) = false).
  { unfold currentSingle. rewrite Hlive. cbv zeta.
    cbn [sustainedReset].
    destruct (Z.leb_spec (now + 3600000) now); [lia|].
    cbn [sustainedCount]. apply Z.leb_gt. lia. }
  split; [exact Hcount|]. split; [now rewrite ttl_singleAfter|].
  rewrite find_singleAfter_same, Hcount. cbn [LRU.e_start]. lia.
Qed.

Lemma replayCron_all_granted endpoint limit times : forall st granted last,
  storedBy (rateLimitCache st) (cronKey endpoint) last ->
  spaced 60000 last times -> 1 <= limit ->
  snd (replayCron endpoint limit times st granted) = rev times ++ granted.
Proof.
  induction times as [|now later IH]; intros st granted last Hst Hsp Hlimit.
  - reflexivity.
  - destruct Hsp as [Hgap Hsp].
    destruct (cron_step _ endpoint limit last now Hst Hgap Hlimit)
      as [Hcount Hnext].
    pose proof (rateLimitCron_outcome now endpoint limit st) as Hout.
    pose proof (rateLimitCron_cache now endpoint limit st) as Hcache.
    cbv zeta in Hout. rewrite Hcount in Hout. cbn [replayCron].
    destruct (rateLimitCron now endpoint limit st) as [[[u|resp] st'] written];
      cbn [fst snd] in *; [|discriminate].
    rewrite <- Hcache in Hnext.
    rewrite (IH st' (now :: granted) now Hnext Hsp Hlimit).
    cbn [rev]. now rewrite <- app_assoc.
Qed.

(** X3. The hourly cron limit is forgotten after a minute: the cache keeps
    a bucket for only 60 s after the last run that was let through, so cron
    runs of one endpoint that are each more than 60 s after the one before
    are all let through (for a limit of at least 1), however many of them
    fall within the hour. *)
Theorem rateLimitCron_forgets_after_a_minute endpoint limit times first :
  1 <= limit ->
  spaced 60000 first times ->
  snd (replayCron endpoint limit times initialState []) = rev times.
Proof.
  intros Hlimit Hsp.
  rewrite (replayCron_all_granted endpoint limit times initialState [] first);
    [apply app_nil_r| |exact Hsp|exact Hlimit].
  split; reflexivity.
Qed.

(** *** Counters stay within the limits *)

Lemma current_within sl bl c now shop :
  0 <= sl -> 0 <= bl -> withinLimits sl bl c (shopKey shop) ->
  burstCount (current c now shop) <= bl
  /\ sustainedCount (current c now shop) <= sl.
Proof.
  intros Hsl Hbl Hin. unfold current, withinLimits in *. rewrite live_find.
  destruct (LRU.find (shopKey shop) (LRU.entries c)) as [e|].
  - destruct (LRU.isStale c now e); unfold afterResets, freshBucket;
      cbn [burstCount burstReset sustainedCount sustainedReset];
      repeat match goal with
             | |- context [?a <=? ?b] => destruct (a <=? b)
             end; lia.
  - unfold afterResets, freshBucket.
    cbn [burstCount burstReset sustainedCount sustainedReset].
    repeat match goal with
           | |- context [?a <=? ?b] => destruct (a <=? b)
           end; lia.
Qed.

Lemma cacheAfter_within sl bl c now shop :
  0 <= sl -> 0 <= bl -> withinLimits sl bl c (shopKey shop) ->
  withinLimits sl bl (cacheAfter now shop sl bl c) (shopKey shop).
Proof.
  intros Hsl Hbl Hin.
  pose proof (current_within sl bl c now shop Hsl Hbl Hin) as [Hb Hs].
  unfold withinLimits. rewrite find_cacheAfter_same.
  destruct (overLimit sl bl (current c now shop)) eqn:Hover.
  - destruct (LRU.find (shopKey shop) (LRU.entries c)) as [e|]; [|exact I].
    destruct (LRU.isStale c now e); [exact I|]. cbn [LRU.e_val]. now split.
  - unfold overLimit in Hover. apply orb_false_iff in Hover.
    destruct Hover as [H1 H2]. apply Z.leb_gt in H1, H2.
    cbn [LRU.e_val bump burstCount sustainedCount]. unfold bump.
    cbn [burstCount sustainedCount]. lia.
Qed.

Section WithDate.
Variable numberToString : number -> string.
Variable toISOString : Z -> string.

Lemma replay_within shop sl bl times : forall st granted,
  0 <= sl -> 0 <= bl ->
  withinLimits sl bl (rateLimitCache st) (shopKey shop) ->
  withinLimits sl bl
    (rateLimitCache (fst (replay toISOString shop sl bl times st granted)))
    (shopKey shop).
Proof.
  induction times as [|now later IH]; intros st granted Hsl Hbl Hin.
  - exact Hin.
  - pose proof (cacheAfter_within sl bl _ now shop Hsl Hbl Hin) as Hstep.
    rewrite <- (rateLimit_cache toISOString) in Hstep. cbn [replay].
    destruct (rateLimit toISOString now shop sl bl st) as [[info|resp] st'];
      cbn [snd] in Hstep; now apply IH.
Qed.

(** X2. With limits that are not negative, [rateLimit] never lets more
    requests through in one window than the limit: in a run of calls for one
    shop with fixed limits (from an empty cache, times never going back),
    the requests granted since the current burst window opened number at
    most [burstLimit], and those since the current sustained window opened
    at most [sustainedLimit]; the counters a call sees are within the limits
    too. *)
Theorem rateLimit_grants_within_limits shop sustainedLimit burstLimit
    times first now :
  0 <= sustainedLimit -> 0 <= burstLimit ->
  ascending first (times ++ [now]) ->
  let run := replay toISOString shop sustainedLimit burstLimit times
               initialState [] in
  let b := current (rateLimitCache (fst run)) now shop in
  since (burstReset b - 10000) (snd run) <= burstLimit
  /\ since (sustainedReset b - 60000) (snd run) <= sustainedLimit
  /\ burstCount b <= burstLimit
  /\ sustainedCount b <= sustainedLimit.
Proof.
  intros Hsl Hbl Hasc. cbv zeta.
  apply ascending_app in Hasc. destruct Hasc as [Hasc Hlast].
  pose proof (replay_tracks toISOString shop sustainedLimit burstLimit times
                initialState [] first
                (tracks_initial (shopKey shop) first) Hasc) as Ht.
  pose proof (tracks_current _ shop _ _ now Ht Hlast) as Hcur.
  cbv zeta in Hcur. destruct Hcur as (Hb & Hs & _).
  pose proof (replay_within shop sustainedLimit burstLimit times
                initialState [] Hsl Hbl I) as Hin.
  pose proof (current_within _ _ _ now shop Hsl Hbl Hin) as [Hcb Hcs].
  rewrite <- Hb, <- Hs. auto.
Qed.

(** X5. [rateLimitRequest] checks the size first: a request that declares
    more than the size limit is answered with a 413 and touches neither
    cache, so it uses up none of the shop's quota; any other request is
    handled exactly as [rateLimit] with the limits
    [sustainedLimit ?? maxRequests ?? 100] and [burstLimit ?? burstMax ?? 40]
    (an explicit 0 is kept). The only statuses thrown are 413 and 429. *)
Theorem rateLimitRequest_size_before_quota now request shop options st :
  let size := orElse (maxSize options) 10485760 in
  let sustained :=
    orElse (sustainedLimit options) (orElse (maxRequests options) 100) in
  let burst := orElse (burstLimit options) (orElse (burstMax options) 40) in
  let out :=
    rateLimitRequest numberToString toISOString now request shop options st in
  (greater (declaredSize request) size = true ->
   (exists resp, fst out = Throw resp /\ status resp = 413)
   /\ rateLimitCache (snd out) = rateLimitCache st
   /\ highUsageLog (snd out) = highUsageLog st)
  /\ (greater (declaredSize request) size = false ->
      out = rateLimit toISOString now shop sustained burst st)
  /\ (forall resp, fst out = Throw resp -> status resp = 413 \/ status resp = 429).
Proof.
  cbv zeta. unfold rateLimitRequest. cbv zeta.
  change (10 * 1024 * 1024) with 10485760.
  set (size := orElse (maxSize options) 10485760).
  set (sustained := orElse (sustainedLimit options) _).
  set (burst := orElse (burstLimit options) _).
  pose proof (checkRequestSize_outcome numberToString request size) as Hsize.
  destruct (checkRequestSize numberToString request size) as [[u|r] written];
    cbn [fst] in Hsize.
  - destruct (greater (declaredSize request) size); [discriminate|].
    split; [discriminate|]. split; [reflexivity|].
    intros resp Hresp. right.
    pose proof (rateLimit_outcome toISOString now shop sustained burst st) as Ho.
    cbv zeta in Ho.
    destruct (overLimit sustained burst (current (rateLimitCache st) now shop)).
    + destruct Ho as (resp' & H' & Hst & _). congruence.
    + congruence.
  - destruct (greater (declaredSize request) size); [|discriminate].
    injection Hsize as ->.
    split; [intros _; cbn; eauto|]. split; [discriminate|].
    intros resp [= <-]. now left.
Qed.

End WithDate.

Lemma rateLimitCron_forgets_after_a_minute_witness :
  snd (replayCron "/api/cron/daily" 1 [0; 61000; 122001] initialState [])
  = [122001; 61000; 0].
Proof.
  apply (rateLimitCron_forgets_after_a_minute "/api/cron/daily" 1
           [0; 61000; 122001] (-60001)).
  - lia.
  - cbn. lia.
Defined.

Lemma rateLimit_grants_within_limits_witness :
  since
    (burstReset
       (current
          (rateLimitCache
             (fst (replay isoStub "a" 100 2 [0; 1; 2; 3] initialState [])))
          4 "a") - 10000)
    (snd (replay isoStub "a" 100 2 [0; 1; 2; 3] initialState []))
  <= 2.
Proof.
  apply (rateLimit_grants_within_limits isoStub "a" 100 2 [0; 1; 2; 3] 0 4).
  - lia.
  - lia.
  - cbn. lia.
Defined.

Example checkRequestSize_reads_a_prefix :
  checkRequestSize numberToStringStub
    (withContentLength " 20971520 bytes") defaultMaxSize
  = (Throw (mkResponse "Payload Too Large" 413
              [("Content-Type", "application/json")]),
     [ConsoleWarn "[Request Size] Rejected large request: 20971520 bytes (max: 10485760)"])
  /\ checkRequestSize numberToStringStub
       (withContentLength "large") defaultMaxSize
     = (Return tt, []).
Proof. split; reflexivity. Qed.

(** [roundToDouble] and the binary64 rounding of the Standard Library give
    the same number on integers of every size. *)
Example roundToDouble_is_binary64_rounding :
  map roundToDouble sampleIntegers
  = map (fun z => valueOf (toFloat z)) sampleIntegers.
Proof. vm_compute. reflexivity. Qed.

(** From [2 ^ 53] on the size is rounded to a binary64 number, and to an
    infinity from 309 digits on. *)
Example parseInt10_rounds :
  parseInt10 "9007199254740993" = Finite 9007199254740992
  /\ parseInt10 "9007199254740995" = Finite 9007199254740996
  /\ parseInt10 "18014398509481987" = Finite 18014398509481988
  /\ parseInt10 (toString (10 ^ 308)) = roundToDouble (10 ^ 308)
  /\ parseInt10 (toString (2 * 10 ^ 308)) = Infinite false
  /\ parseInt10 "-12 bytes" = Finite (-12)
  /\ parseInt10 "" = NaN.
Proof. vm_compute. repeat split. Qed.

Example rateLimitCron_within_a_minute :
  snd (replayCron "/api/cron/daily" 1 [0; 30000; 60000] initialState [])
  = [0].
Proof. vm_compute. reflexivity. Qed.

End RequestLimitsFacts.

(** ** Runs of limiter calls *)

Module TrafficFacts.
Import Js LRU RateLimiter RequestLimits Traffic.
Import LRUFacts RateLimiterFacts RequestLimitsFacts.

(** *** Counting grants *)

Lemma count_cons test g grants :
  count test (g :: grants) = (if test g then 1 else 0) + count test grants.
Proof.
  unfold count. cbn [filter]. destruct (test g); cbn [List.length]; lia.
Qed.

Lemma count_none test grants :
  (forall g, In g grants -> test g = false) -> count test grants = 0.
Proof.
  unfold count. induction grants as [|g grants IH]; intros H; [reflexivity|].
  cbn [filter]. rewrite (H g (or_introl eq_refl)).
  apply IH. intros g' Hg'. apply H. now right.
Qed.

Lemma count_ext test test' grants :
  (forall g, In g grants -> test g = test' g) ->
  count test grants = count test' grants.
Proof.
  induction grants as [|g grants IH]; intros H; [reflexivity|].
  rewrite !count_cons, (H g (or_introl eq_refl)), IH; [reflexivity|].
  intros g' Hg'. apply H. now right.
Qed.

Lemma since_map start grants :
  since start (map when grants) = count (fun g => start <=? when g) grants.
Proof.
  unfold since, count. induction grants as [|g grants IH]; [reflexivity|].
  cbn [map filter]. destruct (start <=? when g); cbn [List.length]; lia.
Qed.

Lemma grantsOf_cons shop g grants :
  grantsOf shop (g :: grants)
  = if String.eqb (shopOf g) shop then g :: grantsOf shop grants
    else grantsOf shop grants.
Proof. reflexivity. Qed.

(** *** What a call sees *)

Lemma follows_views c shop mine last now :
  follows c (shopKey shop) mine last -> last <= now ->
  views (current c now shop) mine now.
Proof.
  intros (Httl & _ & _ & Hin & _ & Hslot) Hlast. unfold views, current.
  rewrite live_find.
  assert (Hfresh : (forall g, In g mine ->
                      burstEnd g <= now /\ sustainedEnd g <= now) ->
            views (afterResets now (freshBucket now)) mine now).
  { intros Hover. unfold views, afterResets, freshBucket.
    cbn [burstCount burstReset sustainedCount sustainedReset].
    destruct (Z.leb_spec (now + 10000) now); [lia|].
    destruct (Z.leb_spec (now + 60000) now); [lia|].
    rewrite !count_none.
    - repeat split; try lia;
        destruct (Hover g H1), (Hin g H1) as (? & ? & ?); try lia.
    - intros g Hg. destruct (Hover g Hg). lia.
    - intros g Hg. destruct (Hover g Hg). lia. }
  destruct (LRU.find (shopKey shop) (LRU.entries c)) as [e|].
  - cbv zeta in Hslot.
    destruct Hslot as (Hb & Hs & Hmine & Hstart & Hbr & Hsr).
    unfold LRU.isStale. rewrite Httl.
    destruct (Z.ltb_spec 60000 (now - LRU.e_start e)) as [Hstale|Hlive].
    + apply Hfresh. intros g Hg.
      destruct (Hin g Hg) as (? & ? & ?), (Hmine g Hg) as (_ & _ & ?). lia.
    + destruct (LRU.e_val e) as [bc br sc sr].
      cbn [burstCount burstReset sustainedCount sustainedReset] in *.
      unfold afterResets.
      cbn [burstCount burstReset sustainedCount sustainedReset].
      assert (Hwhen : forall g, In g mine -> when g <= now).
      { intros g Hg. destruct (Hmine g Hg) as (_ & _ & ?). lia. }
      destruct (Z.leb_spec br now) as [Hbreset|Hbopen],
               (Z.leb_spec sr now) as [Hsreset|Hsopen];
        cbn [burstCount burstReset sustainedCount sustainedReset];
        rewrite ?(count_none (fun g => burstEnd g =? now + 10000)),
                ?(count_none (fun g => sustainedEnd g =? now + 60000));
        repeat split; try assumption; try lia;
        try (intros g Hg; destruct (Hmine g Hg) as ([|] & [|] & _); lia);
        try (destruct (Hmine g H) as ([|] & [|] & _); lia);
        try (apply Hwhen; assumption).
  - apply Hfresh. intros g Hg. destruct (Hslot g Hg). lia.
Qed.

Lemma apart_refl window a : apart window a a.
Proof. now left. Qed.

Lemma apart_sym window a b : apart window a b -> apart window b a.
Proof. unfold apart. intuition auto. Qed.

(** A call for the shop keeps the bookkeeping; a call that is let through
    adds its grant. *)
Lemma follows_same c shop sl bl mine last now :
  follows c (shopKey shop) mine last -> last <= now ->
  let b := current c now shop in
  follows (cacheAfter now shop sl bl c) (shopKey shop)
    (if overLimit sl bl b then mine
     else mkGrant now shop (burstReset b) (sustainedReset b) :: mine)
    now.
Proof.
  intros Hf Hlast b.
  pose proof (follows_views c shop mine last now Hf Hlast) as Hv.
  fold b in Hv.
  destruct Hf as (Httl & Hpos & Hfits & Hin & Hapart & Hslot).
  destruct Hv as (Hb & Hs & Hmine & Hbr & Hsr).
  destruct (cacheAfter_fits now shop sl bl c Hpos Hfits) as [Hmax Hfits'].
  split; [now rewrite ttl_cacheAfter|].
  split; [now rewrite Hmax|]. split; [now rewrite Hmax|].
  rewrite find_cacheAfter_same. fold b.
  destruct (overLimit sl bl b).
  - split; [intros g Hg; destruct (Hin g Hg) as (? & ? & ?); lia|].
    split; [exact Hapart|].
    destruct (LRU.find (shopKey shop) (LRU.entries c)) as [e|].
    + cbv zeta in Hslot.
      destruct Hslot as (_ & _ & Hstored & Hstart & _ & _).
      unfold LRU.isStale. rewrite Httl.
      destruct (Z.ltb_spec 60000 (now - LRU.e_start e)) as [Hstale|Hlive].
      * intros g Hg.
        destruct (Hin g Hg) as (? & ? & ?), (Hstored g Hg) as (_ & _ & ?). lia.
      * cbn [LRU.e_val LRU.e_start]. repeat split; try assumption; try lia;
          try (destruct (Hmine g H) as (? & ? & ?); assumption);
          try (destruct (Hstored g H) as (_ & _ & ?); assumption).
    + intros g Hg. destruct (Hslot g Hg). lia.
  - split.
    { intros g [<-|Hg]; [cbn [when burstEnd sustainedEnd]; lia|].
      destruct (Hin g Hg) as (? & ? & ?). lia. }
    split.
    { intros g g' [<-|Hg] [<-|Hg']; cbn [burstEnd sustainedEnd].
      - split; apply apart_refl.
      - destruct (Hmine g' Hg') as (? & ? & _).
        split; apply apart_sym; unfold apart; tauto.
      - destruct (Hmine g Hg) as (? & ? & _). split; unfold apart; tauto.
      - now apply Hapart. }
    cbn [LRU.e_val LRU.e_start]. unfold bump.
    cbn [burstCount burstReset sustainedCount sustainedReset].
    rewrite !count_cons. cbn [burstEnd sustainedEnd].
    rewrite !Z.eqb_refl.
    repeat split; try lia.
    + destruct H as [<-|Hg]; [now left|]. now destruct (Hmine g Hg).
    + destruct H as [<-|Hg]; [now left|]. now destruct (Hmine g Hg) as (_ & ? & _).
    + destruct H as [<-|Hg]; [cbn [when]; lia|].
      now destruct (Hmine g Hg) as (_ & _ & ?).
Qed.

(** *** Where windows open *)

Lemma opened_views c shop mine seen now :
  opened c (shopKey shop) mine seen ->
  In (burstReset (current c now shop) - 10000) (now :: seen)
  /\ In (sustainedReset (current c now shop) - 60000) (now :: seen).
Proof.
  intros [_ Hslot]. unfold current. rewrite live_find.
  assert (Hfresh :
    In (burstReset (afterResets now (freshBucket now)) - 10000) (now :: seen)
    /\ In (sustainedReset (afterResets now (freshBucket now)) - 60000)
         (now :: seen)).
  { unfold afterResets, freshBucket.
    cbn [burstCount burstReset sustainedCount sustainedReset].
    destruct (Z.leb_spec (now + 10000) now); [lia|].
    destruct (Z.leb_spec (now + 60000) now); [lia|].
    split; left; lia. }
  destruct (LRU.find (shopKey shop) (LRU.entries c)) as [e|]; [|exact Hfresh].
  destruct (LRU.isStale c now e); [exact Hfresh|].
  destruct Hslot as [Hb Hs]. unfold afterResets.
  cbn [burstCount burstReset sustainedCount sustainedReset].
  split.
  - destruct (burstReset (LRU.e_val e) <=? now); [left; lia|now right].
  - destruct (sustainedReset (LRU.e_val e) <=? now); [left; lia|now right].
Qed.

Lemma opened_same c shop sl bl mine seen now :
  opened c (shopKey shop) mine seen ->
  let b := current c now shop in
  opened (cacheAfter now shop sl bl c) (shopKey shop)
    (if overLimit sl bl b then mine
     else mkGrant now shop (burstReset b) (sustainedReset b) :: mine)
    (now :: seen).
Proof.
  intros Ho b. pose proof (opened_views c shop mine seen now Ho) as Hv.
  fold b in Hv. destruct Ho as [Hin Hslot].
  assert (Hold : forall g, In g mine ->
            In (burstEnd g - 10000) (now :: seen)
            /\ In (sustainedEnd g - 60000) (now :: seen)).
  { intros g Hg. destruct (Hin g Hg). split; now right. }
  split.
  - destruct (overLimit sl bl b); [exact Hold|].
    intros g [<-|Hg]; [exact Hv|now apply Hold].
  - rewrite find_cacheAfter_same. fold b.
    destruct (overLimit sl bl b); [|exact Hv].
    destruct (LRU.find (shopKey shop) (LRU.entries c)) as [e|]; [|exact I].
    destruct (LRU.isStale c now e); [exact I|exact Hv].
Qed.

Lemma opened_other c c' key mine seen :
  LRU.find key (LRU.entries c') = LRU.find key (LRU.entries c) ->
  opened c key mine seen -> opened c' key mine seen.
Proof. intros Hfind [Hin Hslot]. split; [exact Hin|now rewrite Hfind]. Qed.

Lemma callsFor_cons shop now call later :
  callsFor shop ((now, call) :: later)
  = if isFor shop call then now :: callsFor shop later
    else callsFor shop later.
Proof. unfold callsFor. cbn [filter snd]. now destruct (isFor shop call). Qed.

(** *** Calls under other keys *)

Lemma find_singleAfter_other window now k limit c k' :
  k' <> k ->
  (List.length (LRU.entries c) <= LRU.max c)%nat ->
  LRU.find k (LRU.entries c) <> None
    \/ (List.length (LRU.entries c) < LRU.max c)%nat
    \/ LRU.lruKey c <> Some k' ->
  LRU.find k' (LRU.entries (singleAfter window now k limit c))
  = LRU.find k' (LRU.entries c).
Proof.
  intros Hne Hwf Hroom. unfold singleAfter.
  assert (Hmut : LRU.find k'
            (LRU.entries
               match live c now k with
               | Some _ => LRU.mutate (snd (LRU.get c now k)) k
                             (currentSingle window c now k)
               | None => snd (LRU.get c now k)
               end) = LRU.find k' (LRU.entries c)).
  { destruct (live c now k);
      [rewrite find_mutate_other by assumption|]; now apply find_get_other. }
  destruct (limit <=? sustainedCount (currentSingle window c now k));
    [exact Hmut|].
  rewrite find_set_other; [exact Hmut|assumption|].
  rewrite live_find. unfold LRU.get.
  destruct (LRU.find k (LRU.entries c)) as [e|] eqn:Hf.
  - destruct (LRU.isStale c now e); cbn [fst snd LRU.entries LRU.max LRU.mutate].
    + right; left. apply length_remove in Hf. lia.
    + left. rewrite find_assign_same. cbn [LRU.find].
      rewrite (find_key _ _ _ Hf), String.eqb_refl. discriminate.
  - cbn [fst snd]. rewrite Hf. destruct Hroom as [H|[H|H]]; [congruence | auto | auto].
Qed.

Lemma singleAfter_fits window now k limit c :
  (0 < LRU.max c)%nat ->
  (List.length (LRU.entries c) <= LRU.max c)%nat ->
  LRU.max (singleAfter window now k limit c) = LRU.max c
  /\ (List.length (LRU.entries (singleAfter window now k limit c))
      <= LRU.max c)%nat.
Proof.
  intros Hpos H. unfold singleAfter.
  pose proof (fits_get c now k H) as H1.
  destruct (options_get c now k) as [Hmax _].
  set (c1 := snd (LRU.get c now k)) in *.
  assert (H2 : LRU.max
                 match live c now k with
                 | Some _ => LRU.mutate c1 k (currentSingle window c now k)
                 | None => c1
                 end = LRU.max c
               /\ (List.length
                     (LRU.entries
                        match live c now k with
                        | Some _ =>
                            LRU.mutate c1 k (currentSingle window c now k)
                        | None => c1
                        end) <= LRU.max c)%nat).
  { destruct (live c now k);
      cbn [LRU.mutate LRU.max LRU.entries]; rewrite ?length_assign; lia. }
  destruct (limit <=? sustainedCount (currentSingle window c now k));
    [exact H2|].
  destruct H2 as [H2 H3].
  match goal with
  | |- LRU.max (LRU.set ?c2 ?t ?key ?v) = _ /\ _ =>
      destruct (options_set c2 t key v) as [Hm _];
      split; [congruence|]; rewrite <- H2, <- Hm; apply fits_set; lia
  end.
Qed.

(** A call that leaves the slot of the shop alone keeps the bookkeeping. *)
Lemma follows_other c c' key mine last now :
  follows c key mine last -> last <= now ->
  LRU.find key (LRU.entries c') = LRU.find key (LRU.entries c) ->
  LRU.ttl c' = LRU.ttl c ->
  LRU.max c' = LRU.max c ->
  (List.length (LRU.entries c') <= LRU.max c)%nat ->
  follows c' key mine now.
Proof.
  intros (Httl & Hpos & Hfits & Hin & Hapart & Hslot) Hlast Hfind Httl' Hmax Hfits'.
  split; [congruence|]. split; [now rewrite Hmax|]. split; [now rewrite Hmax|].
  split; [intros g Hg; destruct (Hin g Hg) as (? & ? & ?); lia|].
  split; [exact Hapart|]. rewrite Hfind.
  destruct (LRU.find key (LRU.entries c)) as [e|].
  - cbv zeta in *. destruct Hslot as (Hb & Hs & Hmine & Hstart & Hbr & Hsr).
    repeat split; try assumption; try lia; now destruct (Hmine g H) as (? & ? & ?).
  - intros g Hg. destruct (Hslot g Hg). lia.
Qed.

Lemma peek_some (c : LRU.t BurstBucket) k :
  LRU.peek c k <> None <-> LRU.find k (LRU.entries c) <> None.
Proof.
  rewrite peek_find. destruct (LRU.find k (LRU.entries c)); cbn; split; congruence.
Qed.

Section WithDate.
Variable toISOString : Z -> string.

Lemma fst_perform now call st grants :
  fst (perform toISOString now call st grants)
  = fst (perform toISOString now call st []).
Proof.
  destruct call as [shop sl bl|ip limit|endpoint limit]; cbn [perform];
    [|reflexivity..].
  destruct (rateLimit toISOString now shop sl bl st) as [[info|resp] st'];
    [|reflexivity].
  now destruct (LRU.peek (rateLimitCache st') (shopKey shop)).
Qed.

(** What [perform] does for a call of [rateLimit]. *)
Lemma perform_forShop now shop sl bl st grants :
  let b := current (rateLimitCache st) now shop in
  perform toISOString now (ForShop shop sl bl) st grants
  = (snd (rateLimit toISOString now shop sl bl st),
     if overLimit sl bl b then grants
     else mkGrant now shop (burstReset b) (sustainedReset b) :: grants).
Proof.
  cbv zeta. cbn [perform].
  pose proof (rateLimit_outcome toISOString now shop sl bl st) as Hout.
  pose proof (rateLimit_cache toISOString now shop sl bl st) as Hcache.
  pose proof (peek_cacheAfter_same now shop sl bl (rateLimitCache st)) as Hpeek.
  cbv zeta in Hout. rewrite <- Hcache in Hpeek.
  destruct (rateLimit toISOString now shop sl bl st) as [[info|resp] st'];
    cbn [fst snd] in *;
    destruct (overLimit sl bl (current (rateLimitCache st) now shop)).
  - destruct Hout as (r & Hr & _). discriminate.
  - rewrite Hpeek. reflexivity.
  - reflexivity.
  - discriminate.
Qed.

(** One call of a run keeps the bookkeeping of a shop whose bucket it does
    not evict. *)
Lemma perform_follows now call st grants shop last :
  follows (rateLimitCache st) (shopKey shop) (grantsOf shop grants) last ->
  last <= now ->
  keyOf call = shopKey shop
    \/ LRU.peek (rateLimitCache st) (keyOf call) <> None
    \/ (List.length (LRU.entries (rateLimitCache st))
        < LRU.max (rateLimitCache st))%nat
    \/ LRU.lruKey (rateLimitCache st) <> Some (shopKey shop) ->
  follows (rateLimitCache (fst (perform toISOString now call st grants)))
    (shopKey shop)
    (grantsOf shop (snd (perform toISOString now call st grants)))
    now.
Proof.
  intros Hf Hlast Hspare.
  assert (Hroom : forall k, k = keyOf call -> k <> shopKey shop ->
            LRU.find k (LRU.entries (rateLimitCache st)) <> None
            \/ (List.length (LRU.entries (rateLimitCache st))
                < LRU.max (rateLimitCache st))%nat
            \/ LRU.lruKey (rateLimitCache st) <> Some (shopKey shop)).
  { intros k -> Hk. destruct Hspare as [H|[H|H]]; [congruence| |auto].
    left. now apply peek_some. }
  pose proof Hf as (Httl & Hpos & Hfits & _).
  destruct call as [shop' sl bl|ip limit|endpoint limit].
  - rewrite perform_forShop. cbn [fst snd]. rewrite rateLimit_cache.
    destruct (String.eqb_spec shop' shop) as [->|Hne].
    + pose proof (follows_same _ shop sl bl _ last now Hf Hlast) as Hsame.
      cbv zeta in Hsame.
      destruct (overLimit sl bl (current (rateLimitCache st) now shop));
        [exact Hsame|].
      rewrite grantsOf_cons. cbn [shopOf]. now rewrite String.eqb_refl.
    + assert (Hk : shopKey shop <> shopKey shop').
      { intros Heq. apply shopKey_inj in Heq. congruence. }
      assert (Hmine : grantsOf shop
                        (if overLimit sl bl (current (rateLimitCache st) now shop')
                         then grants
                         else mkGrant now shop'
                                (burstReset (current (rateLimitCache st) now shop'))
                                (sustainedReset (current (rateLimitCache st) now shop'))
                              :: grants)
                      = grantsOf shop grants).
      { destruct (overLimit sl bl (current (rateLimitCache st) now shop'));
          [reflexivity|].
        rewrite grantsOf_cons. cbn [shopOf].
        destruct (String.eqb_spec shop' shop); [congruence|reflexivity]. }
      rewrite Hmine.
      destruct (cacheAfter_fits now shop' sl bl _ Hpos Hfits) as [Hmax Hfits'].
      apply (follows_other (rateLimitCache st) _ _ _ last); auto.
      * apply find_cacheAfter_other; [exact Hk|exact Hfits|].
        apply (Hroom (shopKey shop')); [reflexivity|congruence].
      * apply ttl_cacheAfter.
  - cbn [perform fst snd]. rewrite rateLimitByIP_cache.
    destruct (singleAfter_fits 60000 now (ipKey ip) limit _ Hpos Hfits)
      as [Hmax Hfits'].
    apply (follows_other (rateLimitCache st) _ _ _ last); auto.
    + apply find_singleAfter_other; [|exact Hfits|].
      * intros Heq. symmetry in Heq. now apply shopKey_not_ipKey in Heq.
      * apply (Hroom (ipKey ip)); [reflexivity|apply shopKey_not_ipKey].
    + apply ttl_singleAfter.
  - cbn [perform fst snd]. rewrite rateLimitCron_cache.
    destruct (singleAfter_fits 3600000 now (cronKey endpoint) limit _ Hpos Hfits)
      as [Hmax Hfits'].
    apply (follows_other (rateLimitCache st) _ _ _ last); auto.
    + apply find_singleAfter_other; [|exact Hfits|].
      * intros Heq. symmetry in Heq. now apply shopKey_not_cronKey in Heq.
      * apply (Hroom (cronKey endpoint)); [reflexivity|apply shopKey_not_cronKey].
    + apply ttl_singleAfter.
Qed.

(** One call keeps the record of where the windows of a shop opened, and
    a call for the shop adds its time. *)
Lemma perform_opened now call st grants shop seen :
  (0 < LRU.max (rateLimitCache st))%nat ->
  (List.length (LRU.entries (rateLimitCache st))
   <= LRU.max (rateLimitCache st))%nat ->
  opened (rateLimitCache st) (shopKey shop) (grantsOf shop grants) seen ->
  keyOf call = shopKey shop
    \/ LRU.peek (rateLimitCache st) (keyOf call) <> None
    \/ (List.length (LRU.entries (rateLimitCache st))
        < LRU.max (rateLimitCache st))%nat
    \/ LRU.lruKey (rateLimitCache st) <> Some (shopKey shop) ->
  opened (rateLimitCache (fst (perform toISOString now call st grants)))
    (shopKey shop)
    (grantsOf shop (snd (perform toISOString now call st grants)))
    (if isFor shop call then now :: seen else seen).
Proof.
  intros Hpos Hfits Ho Hspare.
  assert (Hroom : forall k, k = keyOf call -> k <> shopKey shop ->
            LRU.find k (LRU.entries (rateLimitCache st)) <> None
            \/ (List.length (LRU.entries (rateLimitCache st))
                < LRU.max (rateLimitCache st))%nat
            \/ LRU.lruKey (rateLimitCache st) <> Some (shopKey shop)).
  { intros k -> Hk. destruct Hspare as [H|[H|H]]; [congruence| |auto].
    left. now apply peek_some. }
  destruct call as [shop' sl bl|ip limit|endpoint limit]; cbn [isFor].
  - rewrite perform_forShop. cbn [fst snd]. rewrite rateLimit_cache.
    destruct (String.eqb_spec shop' shop) as [->|Hne].
    + pose proof (opened_same _ shop sl bl _ seen now Ho) as Hsame.
      cbv zeta in Hsame.
      destruct (overLimit sl bl (current (rateLimitCache st) now shop));
        [exact Hsame|].
      rewrite grantsOf_cons. cbn [shopOf]. now rewrite String.eqb_refl.
    + assert (Hk : shopKey shop <> shopKey shop').
      { intros Heq. apply shopKey_inj in Heq. congruence. }
      assert (Hmine : grantsOf shop
                        (if overLimit sl bl (current (rateLimitCache st) now shop')
                         then grants
                         else mkGrant now shop'
                                (burstReset (current (rateLimitCache st) now shop'))
                                (sustainedReset (current (rateLimitCache st) now shop'))
                              :: grants)
                      = grantsOf shop grants).
      { destruct (overLimit sl bl (current (rateLimitCache st) now shop'));
          [reflexivity|].
        rewrite grantsOf_cons. cbn [shopOf].
        destruct (String.eqb_spec shop' shop); [congruence|reflexivity]. }
      rewrite Hmine.
      apply (opened_other (rateLimitCache st)); [|exact Ho].
      apply find_cacheAfter_other; [exact Hk|exact Hfits|].
      apply (Hroom (shopKey shop')); [reflexivity|congruence].
  - cbn [perform fst snd]. rewrite rateLimitByIP_cache.
    apply (opened_other (rateLimitCache st)); [|exact Ho].
    apply find_singleAfter_other; [|exact Hfits|].
    + intros Heq. symmetry in Heq. now apply shopKey_not_ipKey in Heq.
    + apply (Hroom (ipKey ip)); [reflexivity|apply shopKey_not_ipKey].
  - cbn [perform fst snd]. rewrite rateLimitCron_cache.
    apply (opened_other (rateLimitCache st)); [|exact Ho].
    apply find_singleAfter_other; [|exact Hfits|].
    + intros Heq. symmetry in Heq. now apply shopKey_not_cronKey in Heq.
    + apply (Hroom (cronKey endpoint)); [reflexivity|apply shopKey_not_cronKey].
Qed.

Lemma follows_initial key first : follows initialCache key [] first.
Proof.
  unfold follows. cbn. repeat split; try lia; intros g [].
Qed.

Lemma opened_initial key : opened initialCache key [] [].
Proof. split; [intros g []|exact I]. Qed.

(** A run keeps the bookkeeping of a shop whose bucket it does not
    evict. *)
Lemma serve_follows shop calls : forall st grants last seen,
  follows (rateLimitCache st) (shopKey shop) (grantsOf shop grants) last ->
  opened (rateLimitCache st) (shopKey shop) (grantsOf shop grants) seen ->
  ascending last (map fst calls) ->
  spared toISOString shop calls st ->
  follows (rateLimitCache (fst (serve toISOString calls st grants)))
    (shopKey shop)
    (grantsOf shop (snd (serve toISOString calls st grants)))
    (List.last (map fst calls) last)
  /\ opened (rateLimitCache (fst (serve toISOString calls st grants)))
       (shopKey shop)
       (grantsOf shop (snd (serve toISOString calls st grants)))
       (rev (callsFor shop calls) ++ seen).
Proof.
  induction calls as [|[now call] later IH];
    intros st grants last seen Hf Ho Hasc Hsp.
  - split; [exact Hf|exact Ho].
  - cbn [map fst ascending] in Hasc. destruct Hasc as [Hle Hasc].
    cbn [spared] in Hsp. destruct Hsp as [Hspare Hsp].
    pose proof (perform_follows now call st grants shop last Hf Hle Hspare)
      as Hstep.
    pose proof Hf as (_ & Hpos & Hfits & _).
    pose proof (perform_opened now call st grants shop seen Hpos Hfits Ho Hspare)
      as Hseen.
    rewrite <- (fst_perform now call st grants) in Hsp.
    cbn [serve map fst].
    destruct (perform toISOString now call st grants) as [st' grants'].
    cbn [fst snd] in Hstep, Hseen, Hsp.
    rewrite last_cons.
    destruct (IH st' grants' now _ Hstep Hseen Hasc Hsp) as [Hf' Ho'].
    split; [exact Hf'|].
    rewrite callsFor_cons.
    destruct (isFor shop call); [|exact Ho'].
    cbn [rev]. now rewrite <- app_assoc.
Qed.

(** C2, as amended. The counters form a fixed-window scheme. Take any run
    of calls of the three limiters, for any shops, addresses and endpoints,
    from the start of the process, at times that never go back, in which
    no call has to evict the bucket of [shop]. Every request that
    [rateLimit] let through for the shop lies in a burst window of 10 s and
    in a sustained window of 60 s: the window opened at a call for the shop
    and ends, at the reset time stored with the request, a window length
    later; the request was granted in between. Two windows of the shop are
    the same or do not overlap, their ends being at least a window length
    apart. At any time [now] after the run, each counter that a call for
    the shop sees equals the number of the shop's granted requests whose
    window is still open: a request counts until its window ends, however
    old the request is by then. This is the number of requests granted
    since the current window opened (its reset time minus the window
    length), which was less than a window length ago, at [now] or at a call
    for the shop; so the counter is at most the number of requests granted
    in the trailing window. *)
Theorem counters_follow_fixed_windows shop calls first now :
  ascending first (map fst calls ++ [now]) ->
  spared toISOString shop calls initialState ->
  let run := serve toISOString calls initialState [] in
  let b := current (rateLimitCache (fst run)) now shop in
  let mine := grantsOf shop (snd run) in
  burstCount b = count (burstOpen now) mine
  /\ sustainedCount b = count (sustainedOpen now) mine
  /\ (forall g, In g mine ->
        burstEnd g - 10000 <= when g < burstEnd g
        /\ sustainedEnd g - 60000 <= when g < sustainedEnd g
        /\ In (burstEnd g - 10000) (callsFor shop calls)
        /\ In (sustainedEnd g - 60000) (callsFor shop calls))
  /\ (forall g g', In g mine -> In g' mine ->
        apart 10000 (burstEnd g) (burstEnd g')
        /\ apart 60000 (sustainedEnd g) (sustainedEnd g'))
  /\ burstCount b = since (burstReset b - 10000) (map when mine)
  /\ sustainedCount b = since (sustainedReset b - 60000) (map when mine)
  /\ now - 10000 < burstReset b - 10000 <= now
  /\ now - 60000 < sustainedReset b - 60000 <= now
  /\ In (burstReset b - 10000) (now :: callsFor shop calls)
  /\ In (sustainedReset b - 60000) (now :: callsFor shop calls)
  /\ burstCount b <= trailing 10000 now (map when mine)
  /\ sustainedCount b <= trailing 60000 now (map when mine).
Proof.
  intros Hasc Hsp. cbv zeta.
  apply ascending_app in Hasc. destruct Hasc as [Hasc Hlast].
  destruct (serve_follows shop calls initialState [] first []
              (follows_initial (shopKey shop) first)
              (opened_initial (shopKey shop)) Hasc Hsp) as [Hf Ho].
  rewrite app_nil_r in Ho.
  pose proof (follows_views _ shop _ _ now Hf Hlast) as Hv.
  pose proof (opened_views _ shop _ _ now Ho) as Hopen.
  destruct Hf as (_ & _ & _ & Hin & Hapart & _).
  destruct Ho as [Hseen _].
  set (b := current _ now shop) in *.
  set (mine := grantsOf shop _) in *.
  destruct Hv as (Hb & Hs & Hmine & Hbr & Hsr).
  assert (Hbopen : burstCount b = count (burstOpen now) mine).
  { rewrite Hb. apply count_ext. intros g Hg. unfold burstOpen.
    destruct (Hmine g Hg) as ([Heq|Hold] & _).
    - rewrite Heq, Z.eqb_refl. symmetry. apply Z.ltb_lt. lia.
    - destruct (Z.eqb_spec (burstEnd g) (burstReset b)); [lia|].
      symmetry. apply Z.ltb_ge. lia. }
  assert (Hsopen : sustainedCount b = count (sustainedOpen now) mine).
  { rewrite Hs. apply count_ext. intros g Hg. unfold sustainedOpen.
    destruct (Hmine g Hg) as (_ & [Heq|Hold] & _).
    - rewrite Heq, Z.eqb_refl. symmetry. apply Z.ltb_lt. lia.
    - destruct (Z.eqb_spec (sustainedEnd g) (sustainedReset b)); [lia|].
      symmetry. apply Z.ltb_ge. lia. }
  assert (Hbsince : burstCount b = since (burstReset b - 10000) (map when mine)).
  { rewrite Hb, since_map. apply count_ext. intros g Hg.
    destruct (Hin g Hg) as (Hgb & _), (Hmine g Hg) as ([Heq|Hold] & _).
    - rewrite Heq, Z.eqb_refl. symmetry. apply Z.leb_le. lia.
    - destruct (Z.eqb_spec (burstEnd g) (burstReset b)); [lia|].
      symmetry. apply Z.leb_gt. lia. }
  assert (Hssince : sustainedCount b
                    = since (sustainedReset b - 60000) (map when mine)).
  { rewrite Hs, since_map. apply count_ext. intros g Hg.
    destruct (Hin g Hg) as (_ & Hgs & _), (Hmine g Hg) as (_ & [Heq|Hold] & _).
    - rewrite Heq, Z.eqb_refl. symmetry. apply Z.leb_le. lia.
    - destruct (Z.eqb_spec (sustainedEnd g) (sustainedReset b)); [lia|].
      symmetry. apply Z.leb_gt. lia. }
  assert (Hrev : forall t, In t (rev (callsFor shop calls)) ->
            In t (callsFor shop calls)).
  { intros t Ht. now apply in_rev. }
  split; [exact Hbopen|]. split; [exact Hsopen|].
  split.
  { intros g Hg. destruct (Hin g Hg) as (Hgb & Hgs & _).
    destruct (Hseen g Hg) as [Hob Hos].
    split; [lia|]. split; [lia|]. split; now apply Hrev. }
  split; [exact Hapart|].
  split; [exact Hbsince|]. split; [exact Hssince|].
  split; [lia|]. split; [lia|].
  split; [destruct Hopen as [[Heq|Hold] _]; [now left|right; now apply Hrev]|].
  split; [destruct Hopen as [_ [Heq|Hold]]; [now left|right; now apply Hrev]|].
  split.
  - rewrite Hbsince. apply since_le_trailing. lia.
  - rewrite Hssince. apply since_le_trailing. lia.
Qed.

End WithDate.

Lemma counters_follow_fixed_windows_witness :
  let run := serve isoStub mixedRun initialState [] in
  let b := current (rateLimitCache (fst run)) 11000 "a" in
  let mine := grantsOf "a" (snd run) in
  mine = [mkGrant 10000 "a" 20000 60000; mkGrant 3000 "a" 10000 60000;
          mkGrant 0 "a" 10000 60000]
  /\ burstCount b = 1
  /\ burstCount b = count (burstOpen 11000) mine
  /\ sustainedCount b = count (sustainedOpen 11000) mine.
Proof.
  cbv zeta. split; [vm_compute; reflexivity|]. split; [vm_compute; reflexivity|].
  destruct (counters_follow_fixed_windows isoStub "a" mixedRun 0 11000)
    as (Hb & Hs & _).
  - cbn. lia.
  - cbn [spared mixedRun]. repeat split;
      try (left; reflexivity);
      right; right; left; vm_compute; lia.
  - split; [exact Hb|exact Hs].
Defined.

(** The condition on eviction is needed: with a thousand shops stored, a
    first call for one more shop evicts the bucket of the shop used least
    recently, whose granted request is then no longer counted although its
    windows are still open. *)
Example eviction_forgets_open_windows :
  let calls :=
    map (fun shop => (0, ForShop shop 100 40)) manyShops
    ++ [(1, ForShop "new" 100 40)] in
  let run := serve isoStub calls initialState [] in
  grantsOf "0" (snd run) = [mkGrant 0 "0" 10000 60000]
  /\ count (burstOpen 2) (grantsOf "0" (snd run)) = 1
  /\ burstCount (current (rateLimitCache (fst run)) 2 "0") = 0.
Proof. vm_compute. repeat split. Qed.

End TrafficFacts.
(** ** Environment validation *)

Module EnvFacts.
Import Js Env.

Ltac done_arrays := cbn [fst snd app]; rewrite ?app_nil_r; reflexivity.

Lemma validateOne_verdict env errors warnings missing envVar :
  validateOne env (errors, warnings, missing) envVar
  = (errors ++ errorsOf env envVar,
     warnings ++ warningsOf env envVar,
     missing ++ missingOf env envVar).
Proof.
  unfold errorsOf, warningsOf, missingOf, verdict, validateOne.
  destruct (required envVar && negb (truthy (env (key envVar)))); [done_arrays|].
  destruct (negb (required envVar) && negb (truthy (env (key envVar))));
    [done_arrays|].
  destruct (env (key envVar)) as [[|c s]|]; try done_arrays.
  destruct (validation envVar) as [validate|]; try done_arrays.
  destruct (negb (validate (String c s))); done_arrays.
Qed.

Lemma fold_validateOne env vars : forall errors warnings missing,
  fold_left (validateOne env) vars (errors, warnings, missing)
  = (errors ++ flat_map (errorsOf env) vars,
     warnings ++ flat_map (warningsOf env) vars,
     missing ++ flat_map (missingOf env) vars).
Proof.
  induction vars as [|v vars IH]; intros errors warnings missing; cbn [fold_left flat_map].
  - now rewrite !app_nil_r.
  - rewrite validateOne_verdict, IH, <- !app_assoc. reflexivity.
Qed.

Lemma validateEnv_by_variable env :
  validateEnv env
  = mkResult (Nat.eqb (List.length (flat_map (errorsOf env) ENV_VARS)) 0)
             (flat_map (errorsOf env) ENV_VARS)
             (flat_map (warningsOf env) ENV_VARS)
             (flat_map (missingOf env) ENV_VARS).
Proof.
  unfold validateEnv. rewrite fold_validateOne. reflexivity.
Qed.

Lemma length_zero_nil {A} (l : list A) :
  Nat.eqb (List.length l) 0 = true <-> l = [].
Proof. destruct l; cbn; split; congruence. Qed.

Lemma errorsOf_required env k d f m :
  errorsOf env (mkEnvVar k true d (Some f) m) = [] <-> setTo env k f.
Proof.
  unfold errorsOf, verdict, validateOne, setTo. cbn.
  destruct (env k) as [[|c s]|]; cbn.
  - split; [discriminate|]. intros (v & Hv & Hne & _). congruence.
  - destruct (f (String c s)) eqn:Hf; cbn.
    + split; [|reflexivity]. intros _. exists (String c s). repeat split; congruence.
    + split; [discriminate|]. intros (v & Hv & _ & Hfv). congruence.
  - split; [discriminate|]. intros (v & Hv & _). congruence.
Qed.

Lemma errorsOf_optional env k d f m :
  errorsOf env (mkEnvVar k false d (Some f) m) = [] <-> unsetOr env k f.
Proof.
  unfold errorsOf, verdict, validateOne, unsetOr. cbn.
  destruct (env k) as [[|c s]|]; cbn.
  - split; [now left|reflexivity].
  - destruct (f (String c s)) eqn:Hf; cbn.
    + split; [|reflexivity]. intros _. right. exists (String c s). split; congruence.
    + split; [discriminate|]. intros [H|(v & Hv & Hfv)]; congruence.
  - split; [now left|reflexivity].
Qed.

Lemma errorsOf_unchecked env k d m :
  errorsOf env (mkEnvVar k false d None m) = [].
Proof.
  unfold errorsOf, verdict, validateOne. cbn.
  destruct (env k) as [[|c s]|]; reflexivity.
Qed.

Lemma setTo_nonempty env k :
  setTo env k (fun v => (0 <? String.length v)%nat) <-> truthy (env k) = true.
Proof.
  unfold setTo. split.
  - intros (v & -> & Hne & _). destruct v; [congruence|reflexivity].
  - destruct (env k) as [[|c s]|]; cbn; try discriminate.
    intros _. exists (String c s). repeat split; congruence.
Qed.

Lemma missingOf_spec env v :
  missingOf env v
  = if required v && negb (truthy (env (key v))) then [key v] else [].
Proof.
  unfold missingOf, verdict, validateOne.
  destruct (required v && negb (truthy (env (key v)))); [reflexivity|].
  destruct (negb (required v) && negb (truthy (env (key v)))); [reflexivity|].
  destruct (env (key v)) as [[|c s]|]; try reflexivity.
  destruct (validation v) as [f|]; [|reflexivity].
  destruct (negb (f (String c s))); reflexivity.
Qed.

Lemma warningsOf_length env v :
  List.length (warningsOf env v)
  = if negb (required v) && negb (truthy (env (key v))) then 1%nat else 0%nat.
Proof.
  unfold warningsOf, verdict, validateOne.
  destruct (required v); cbn [andb negb].
  - destruct (truthy (env (key v))) eqn:Ht; cbn [negb]; [|reflexivity].
    destruct (env (key v)) as [[|c s]|]; try reflexivity.
    destruct (validation v) as [f|]; [|reflexivity].
    destruct (negb (f (String c s))); reflexivity.
  - destruct (truthy (env (key v))) eqn:Ht; cbn [negb]; [|reflexivity].
    destruct (env (key v)) as [[|c s]|]; try reflexivity.
    destruct (validation v) as [f|]; [|reflexivity].
    destruct (negb (f (String c s))); reflexivity.
Qed.

Lemma missing_required env :
  missing (validateEnv env) = filter (unset env) requiredKeys.
Proof.
  rewrite validateEnv_by_variable. cbn [missing].
  unfold ENV_VARS, requiredKeys, unset. cbn [flat_map filter].
  rewrite !missingOf_spec. cbn [required key andb negb app].
  repeat match goal with
         | |- context [truthy (env ?k)] =>
             let b := fresh "b" in generalize (truthy (env k)); intros b
         end.
  repeat match goal with b : bool |- _ => destruct b end; reflexivity.
Qed.

Lemma errorsOf_length env v :
  List.length (errorsOf env v)
  = ((if required v && unset env (key v) then 1 else 0)
     + (if rejected env v then 1 else 0))%nat.
Proof.
  unfold errorsOf, verdict, validateOne, rejected, unset.
  destruct (required v); cbn [andb negb];
    (destruct (env (key v)) as [[|c s]|]; cbn [truthy negb]; try reflexivity;
     destruct (validation v) as [f|]; [|reflexivity];
     destruct (negb (f (String c s))); reflexivity).
Qed.

Lemma length_filter_cons {A} (f : A -> bool) (a : A) (l : list A) :
  List.length (filter f (a :: l))
  = ((if f a then 1 else 0) + List.length (filter f l))%nat.
Proof. cbn. destruct (f a); reflexivity. Qed.

Lemma no_errors env :
  valid (validateEnv env) = true ->
  Forall (fun envVar => errorsOf env envVar = []) ENV_VARS.
Proof.
  rewrite validateEnv_by_variable. cbn [valid]. rewrite length_zero_nil.
  induction ENV_VARS as [|v vars IH]; cbn [flat_map]; intros H.
  - constructor.
  - apply app_eq_nil in H. destruct H as [Hv Hvars].
    constructor; [exact Hv|exact (IH Hvars)].
Qed.

(** X6. [validateEnv] reports a valid environment exactly when the two
    Shopify credentials are set and not empty, the application URL starts
    with [http://] or [https://], the scopes contain both [read_orders] and
    [read_products], the database URL starts with [postgres://] or
    [postgresql://], the session secret has at least 32 characters, and
    each of [NODE_ENV], [DEBUG_MODE] and [LOG_FORMAT] is either unset (or
    empty) or one of its allowed values. The four optional secrets and the
    custom shop domain never matter. *)
Theorem validateEnv_valid_iff env :
  valid (validateEnv env) = true
  <-> truthy (env "SHOPIFY_API_KEY") = true
      /\ truthy (env "SHOPIFY_API_SECRET") = true
      /\ setTo env "SHOPIFY_APP_URL"
           (fun v => startsWith v "http://" || startsWith v "https://")
      /\ setTo env "SCOPES"
           (fun v => includes v "read_orders" && includes v "read_products")
      /\ setTo env "DATABASE_URL"
           (fun v => startsWith v "postgres://" || startsWith v "postgresql://")
      /\ setTo env "SESSION_SECRET" (fun v => (32 <=? String.length v)%nat)
      /\ unsetOr env "NODE_ENV"
           (fun v => String.eqb v "development" || String.eqb v "production"
                     || String.eqb v "test")
      /\ unsetOr env "DEBUG_MODE"
           (fun v => String.eqb v "true" || String.eqb v "false")
      /\ unsetOr env "LOG_FORMAT"
           (fun v => String.eqb v "json" || String.eqb v "text").
Proof.
  rewrite validateEnv_by_variable. cbn [valid].
  rewrite length_zero_nil. unfold ENV_VARS. cbn [flat_map].
  rewrite !errorsOf_unchecked. cbn [app].
  rewrite <- !setTo_nonempty.
  repeat match goal with
         | |- context [errorsOf env (mkEnvVar ?k true ?d (Some ?f) ?m)] =>
             let H := fresh "H" in
             pose proof (errorsOf_required env k d f m) as H;
             generalize dependent (errorsOf env (mkEnvVar k true d (Some f) m));
             intros
         | |- context [errorsOf env (mkEnvVar ?k false ?d (Some ?f) ?m)] =>
             let H := fresh "H" in
             pose proof (errorsOf_optional env k d f m) as H;
             generalize dependent (errorsOf env (mkEnvVar k false d (Some f) m));
             intros
         end.
  assert (Hnode : forall v,
             existsb (String.eqb v) ["development"; "production"; "test"]
             = (String.eqb v "development" || String.eqb v "production"
                || String.eqb v "test")).
  { intros v. cbn. now rewrite orb_false_r, orb_assoc. }
  assert (Hn : unsetOr env "NODE_ENV"
                 (fun v => existsb (String.eqb v) ["development"; "production"; "test"])
               <-> unsetOr env "NODE_ENV"
                     (fun v => String.eqb v "development" || String.eqb v "production"
                               || String.eqb v "test")).
  { unfold unsetOr. split; (intros [Hu|(v & Hv & Hf)]; [now left|right; exists v; split; [exact Hv|]]).
    - now rewrite <- Hnode.
    - now rewrite Hnode. }
  rewrite <- Hn.
  repeat match goal with H : _ = [] <-> _ |- _ => rewrite <- H; clear H end.
  split.
  - intros H.
    repeat match goal with
           | H : _ ++ _ = [] |- _ => apply app_eq_nil in H; destruct H
           end.
    repeat split; assumption.
  - intros H. decompose [and] H. subst. reflexivity.
Qed.

(** X7. The [missing] array of [validateEnv] lists exactly the six
    required names that are unset or empty, in the order of the table;
    there is one warning for each of the eight optional names that is unset
    or empty; and the number of errors is the number of missing names plus
    the number of variables whose value fails its validation. *)
Theorem validateEnv_arrays env :
  missing (validateEnv env) = filter (unset env) requiredKeys
  /\ List.length (warnings (validateEnv env))
     = List.length (filter (unset env) optionalKeys)
  /\ List.length (errors (validateEnv env))
     = (List.length (missing (validateEnv env))
        + List.length (filter (rejected env) ENV_VARS))%nat.
Proof.
  split; [apply missing_required|]. split.
  - rewrite validateEnv_by_variable. cbn [warnings].
    unfold ENV_VARS, optionalKeys. cbn [flat_map].
    rewrite !length_app, !warningsOf_length, !length_filter_cons.
    cbn [required key andb negb filter List.length]. unfold unset. lia.
  - rewrite missing_required.
    rewrite validateEnv_by_variable. cbn [errors].
    unfold ENV_VARS, requiredKeys. cbn [flat_map].
    rewrite !length_app, !errorsOf_length, !length_filter_cons.
    cbn [required key andb negb filter List.length]. lia.
Qed.

Lemma returns_valid env :
  fst (validateEnvOrThrow env) = Return tt -> valid (validateEnv env) = true.
Proof.
  unfold validateEnvOrThrow.
  destruct (valid (validateEnv env)); cbn; [reflexivity|discriminate].
Qed.

(** X8. When every required variable is set and not empty but the
    environment is invalid (a value fails its validation),
    [validateEnvOrThrow] throws an error whose message is
    [Missing required environment variables: ] with no name after it: the
    message lists the missing names only. *)
Theorem validateEnvOrThrow_names_nothing env :
  (forall name, In name requiredKeys -> truthy (env name) = true) ->
  valid (validateEnv env) = false ->
  fst (validateEnvOrThrow env)
  = Throw "Missing required environment variables: ".
Proof.
  intros Hset Hinvalid. unfold validateEnvOrThrow.
  rewrite Hinvalid. cbn [negb fst]. rewrite missing_required.
  unfold requiredKeys in *. unfold unset. cbn [filter].
  rewrite !Hset by (cbn [In]; tauto). reflexivity.
Qed.

Lemma validateEnvOrThrow_names_nothing_witness :
  fst (validateEnvOrThrow shortSecret)
  = Throw "Missing required environment variables: ".
Proof.
  apply validateEnvOrThrow_names_nothing.
  - intros name Hname. cbn in Hname.
    repeat (destruct Hname as [<-|Hname]; [reflexivity|]). destruct Hname.
  - vm_compute. reflexivity.
Defined.

Lemma setTo_getRequiredEnv env name test :
  setTo env name test ->
  exists value, getRequiredEnv env name = Return value /\ test value = true.
Proof.
  intros (value & Hvalue & Hne & Htest). exists value. split; [|exact Htest].
  unfold getRequiredEnv. rewrite Hvalue. destruct value; [congruence|reflexivity].
Qed.

Lemma unsetOr_getOptionalEnv env name test fallback :
  unsetOr env name test -> test fallback = true ->
  test (getOptionalEnv env name fallback) = true.
Proof.
  unfold unsetOr, getOptionalEnv. intros [Hunset|(value & Hvalue & Htest)] Hfallback.
  - destruct (env name) as [[|c s]|]; [assumption|discriminate|assumption].
  - rewrite Hvalue. destruct value; assumption.
Qed.

(** X9. Once [validateEnvOrThrow] has returned, none of the six required
    getters of [env] throws, and the values they return have the validated
    shape: the application URL starts with [http://] or [https://], the
    scopes contain [read_orders] and [read_products], the database URL
    starts with [postgres://] or [postgresql://], the session secret has at
    least 32 characters. Moreover [nodeEnv] is one of [development],
    [production] and [test], so exactly one of [isProduction],
    [isDevelopment] and [isTest] is true, and [logFormat] is [json] or
    [text]. *)
Theorem validated_env_getters env :
  fst (validateEnvOrThrow env) = Return tt ->
  exists apiKey apiSecret appUrl scopeList dbUrl secret,
    shopifyApiKey env = Return apiKey
    /\ shopifyApiSecret env = Return apiSecret
    /\ shopifyAppUrl env = Return appUrl
    /\ (startsWith appUrl "http://" || startsWith appUrl "https://") = true
    /\ scopes env = Return scopeList
    /\ includes scopeList "read_orders" = true
    /\ includes scopeList "read_products" = true
    /\ databaseUrl env = Return dbUrl
    /\ (startsWith dbUrl "postgres://" || startsWith dbUrl "postgresql://") = true
    /\ sessionSecret env = Return secret
    /\ (32 <= String.length secret)%nat
    /\ (nodeEnv env = "development" \/ nodeEnv env = "production"
        \/ nodeEnv env = "test")
    /\ In (isProduction env, isDevelopment env, isTest env)
          [(true, false, false); (false, true, false); (false, false, true)]
    /\ (logFormat env = "json" \/ logFormat env = "text").
Proof.
  intros Hreturn. apply returns_valid, no_errors in Hreturn.
  unfold ENV_VARS in Hreturn.
  repeat match goal with
         | H : Forall _ (_ :: _) |- _ =>
             let Hv := fresh "Hv" in
             apply Forall_cons_iff in H; destruct H as [Hv H]
         end.
  repeat match goal with
         | H : errorsOf env (mkEnvVar _ true _ (Some _) _) = [] |- _ =>
             apply errorsOf_required, setTo_getRequiredEnv in H
         | H : errorsOf env (mkEnvVar _ false _ (Some _) _) = [] |- _ =>
             apply errorsOf_optional in H
         | H : errorsOf env (mkEnvVar _ false _ None _) = [] |- _ => clear H
         end.
  repeat match goal with
         | H : exists value, getRequiredEnv env ?k = _ /\ _ |- _ =>
             let v := fresh "value" in
             let Hget := fresh "Hget" in
             let Htest := fresh "Htest" in
             destruct H as (v & Hget & Htest);
             fold (shopifyApiKey env) in Hget;
             fold (shopifyApiSecret env) in Hget;
             fold (shopifyAppUrl env) in Hget;
             fold (scopes env) in Hget;
             fold (databaseUrl env) in Hget;
             fold (sessionSecret env) in Hget
         end.
  match goal with H : shopifyApiKey env = Return ?v |- _ => rename v into apiKey, H into Hkey end.
  match goal with H : shopifyApiSecret env = Return ?v |- _ => rename v into apiSecret, H into Hsecret end.
  match goal with H : shopifyAppUrl env = Return ?v |- _ => rename v into appUrl, H into Hurl end.
  match goal with H : scopes env = Return ?v |- _ => rename v into scopeList, H into Hscopes end.
  match goal with H : databaseUrl env = Return ?v |- _ => rename v into dbUrl, H into Hdb end.
  match goal with H : sessionSecret env = Return ?v |- _ => rename v into secret, H into Hsession end.
  match goal with H : (_ && _) = true |- _ => rename H into Hscopes' end.
  match goal with H : (32 <=? _)%nat = true |- _ => rename H into Hsession' end.
  match goal with H : unsetOr env "NODE_ENV" _ |- _ => rename H into Hnode end.
  match goal with H : unsetOr env "LOG_FORMAT" _ |- _ => rename H into Hformat end.
  apply andb_true_iff in Hscopes'. destruct Hscopes' as [Horders Hproducts].
  apply Nat.leb_le in Hsession'.
  apply (unsetOr_getOptionalEnv _ _ _ "development") in Hnode; [|reflexivity].
  apply (unsetOr_getOptionalEnv _ _ _ "text") in Hformat; [|reflexivity].
  fold (nodeEnv env) in Hnode. fold (logFormat env) in Hformat.
  assert (Hmode : nodeEnv env = "development" \/ nodeEnv env = "production"
                  \/ nodeEnv env = "test").
  { cbn [existsb] in Hnode. rewrite orb_false_r in Hnode.
    rewrite !orb_true_iff, !String.eqb_eq in Hnode. tauto. }
  exists apiKey, apiSecret, appUrl, scopeList, dbUrl, secret.
  repeat match goal with |- _ /\ _ => split end; try assumption.
  - unfold isProduction, isDevelopment, isTest.
    destruct Hmode as [ -> | [ -> | -> ] ]; cbn; tauto.
  - rewrite !orb_true_iff, !String.eqb_eq in Hformat. tauto.
Qed.

Lemma validated_env_getters_witness :
  exists apiKey apiSecret appUrl scopeList dbUrl secret,
    shopifyApiKey (envOf goodBindings) = Return apiKey
    /\ shopifyApiSecret (envOf goodBindings) = Return apiSecret
    /\ shopifyAppUrl (envOf goodBindings) = Return appUrl
    /\ (startsWith appUrl "http://" || startsWith appUrl "https://") = true
    /\ scopes (envOf goodBindings) = Return scopeList
    /\ includes scopeList "read_orders" = true
    /\ includes scopeList "read_products" = true
    /\ databaseUrl (envOf goodBindings) = Return dbUrl
    /\ (startsWith dbUrl "postgres://" || startsWith dbUrl "postgresql://") = true
    /\ sessionSecret (envOf goodBindings) = Return secret
    /\ (32 <= String.length secret)%nat
    /\ (nodeEnv (envOf goodBindings) = "development"
        \/ nodeEnv (envOf goodBindings) = "production"
        \/ nodeEnv (envOf goodBindings) = "test")
    /\ In (isProduction (envOf goodBindings), isDevelopment (envOf goodBindings),
           isTest (envOf goodBindings))
          [(true, false, false); (false, true, false); (false, false, true)]
    /\ (logFormat (envOf goodBindings) = "json"
        \/ logFormat (envOf goodBindings) = "text").
Proof.
  apply validated_env_getters. vm_compute. reflexivity.
Defined.

End EnvFacts.
(** ** Schema feature detection *)

Module DbMigrationFacts.
Import Js DbMigration.

Section WithDatabase.

Context {E : Type}.

Lemma mapGet_mapSet name c m : mapGet name (mapSet name c m) = Some c.
Proof.
  induction m as [|[k c'] m IH]; cbn.
  - now rewrite String.eqb_refl.
  - destruct (String.eqb name k) eqn:Hk; cbn; rewrite Hk; [reflexivity|exact IH].
Qed.

(** What a call leaves in the cache is an answer that is still fresh, or
    the answer of its own query with its own time. *)
Lemma hasOnboardingFields_cases checkedAt storedAt (probe : completion unit E) cache :
  (exists cached,
      mapGet "onboarding_fields" cache = Some cached
      /\ checkedAt - timestamp cached < CACHE_TTL
      /\ hasOnboardingFields checkedAt storedAt probe cache
         = (value cached, cache, []))
  \/ ((forall cached, mapGet "onboarding_fields" cache = Some cached ->
         CACHE_TTL <= checkedAt - timestamp cached)
      /\ hasOnboardingFields checkedAt storedAt probe cache
         = (resolved probe,
            mapSet "onboarding_fields" (mkCached (resolved probe) storedAt) cache,
            [probeOnboardingCompleted])).
Proof.
  unfold hasOnboardingFields.
  destruct (mapGet "onboarding_fields" cache) as [cached|] eqn:Hget.
  - destruct (checkedAt - timestamp cached <? CACHE_TTL) eqn:Hfresh.
    + left. exists cached. apply Z.ltb_lt in Hfresh. auto.
    + right. apply Z.ltb_ge in Hfresh. split.
      * intros c [= <-]. exact Hfresh.
      * destruct probe; reflexivity.
  - right. split; [discriminate|]. destruct probe; reflexivity.
Qed.

Lemma answers_from (calls : list (Call E)) :
  forall i cache call answer,
    nth_error calls i = Some call ->
    nth_error (answers calls cache) i = Some answer ->
    (exists cached,
        mapGet "onboarding_fields" cache = Some cached
        /\ answer = value cached
        /\ checked call - timestamp cached < CACHE_TTL)
    \/ (exists j source,
          (j <= i)%nat
          /\ nth_error calls j = Some source
          /\ answer = resolved (probe source)
          /\ (j = i \/ checked call - stored source < CACHE_TTL)).
Proof.
  induction calls as [|c calls IH]; intros i cache call answer Hcall Hanswer.
  - destruct i; discriminate.
  - cbn [answers] in Hanswer.
    destruct (hasOnboardingFields_cases (checked c) (stored c) (probe c) cache)
      as [(cached & Hget & Hfresh & Heq)|(_ & Heq)]; rewrite Heq in Hanswer.
    + destruct i as [|i]; cbn in Hcall, Hanswer.
      * injection Hcall as <-. injection Hanswer as <-.
        left. exists cached. auto.
      * destruct (IH i cache call answer Hcall Hanswer)
          as [Hcached|(j & source & Hj & Hsource & Hans & Hage)];
          [left; exact Hcached|].
        right. exists (S j), source. repeat split; [lia|exact Hsource|exact Hans|].
        destruct Hage as [->|Hage]; auto.
    + destruct i as [|i]; cbn in Hcall, Hanswer.
      * injection Hcall as <-. injection Hanswer as <-.
        right. exists 0%nat, c. repeat split; auto.
      * destruct (IH i _ call answer Hcall Hanswer)
          as [(cached & Hget & Hans & Hage)|(j & source & Hj & Hsource & Hans & Hage)].
        -- rewrite mapGet_mapSet in Hget. injection Hget as <-. cbn in Hans, Hage.
           right. exists 0%nat, c. repeat split; [lia|exact Hans|right; exact Hage].
        -- right. exists (S j), source. repeat split; [lia|exact Hsource|exact Hans|].
           destruct Hage as [->|Hage]; auto.
Qed.

(** X10. In a run of calls of [hasOnboardingFields] that starts with an
    empty cache, every answer is the outcome of the query of that call or
    of an earlier call of the run whose answer was cached less than 60
    seconds before (by the clock readings): no answer is older than
    [CACHE_TTL]. *)
Theorem hasOnboardingFields_answers_fresh (calls : list (Call E)) i call answer :
  nth_error calls i = Some call ->
  nth_error (answers calls emptyCache) i = Some answer ->
  exists j source,
    (j <= i)%nat
    /\ nth_error calls j = Some source
    /\ answer = resolved (probe source)
    /\ (j = i \/ checked call - stored source < CACHE_TTL).
Proof.
  intros Hcall Hanswer.
  destruct (answers_from calls i emptyCache call answer Hcall Hanswer)
    as [(cached & Hget & _)|H]; [discriminate|exact H].
Qed.

(** X11. A negative answer outlives a migration: after a call whose query
    failed, a call less than 60 seconds later answers [false] without asking
    the database, although the query would now succeed; once
    [clearFeatureCache] has been called the same call asks again and
    answers [true]. *)
Theorem hasOnboardingFields_stale_until_cleared
    checkedAt0 storedAt0 (e : E) checkedAt storedAt cache :
  checkedAt - storedAt0 < CACHE_TTL ->
  let before :=
    snd (fst (hasOnboardingFields checkedAt0 storedAt0 (Throw e)
                (clearFeatureCache cache))) in
  hasOnboardingFields (E := E) checkedAt storedAt (Return tt) before
  = (false, before, [])
  /\ hasOnboardingFields (E := E) checkedAt storedAt (Return tt)
       (clearFeatureCache before)
     = (true, [("onboarding_fields", mkCached true storedAt)],
        [probeOnboardingCompleted]).
Proof.
  intros Hfresh before. subst before. unfold clearFeatureCache, emptyCache.
  cbn. apply Z.ltb_lt in Hfresh. rewrite Hfresh. split; reflexivity.
Qed.

Ltac step_cases stepId :=
  destruct (String.eqb stepId "theme-editor") eqn:H1;
    [apply String.eqb_eq in H1; subst stepId|];
    [|destruct (String.eqb stepId "recommendations") eqn:H2;
        [apply String.eqb_eq in H2; subst stepId|]];
    [| |destruct (String.eqb stepId "first-bundle") eqn:H3;
          [apply String.eqb_eq in H3; subst stepId|]];
    [| | |destruct (String.eqb stepId "preview") eqn:H4;
            [apply String.eqb_eq in H4; subst stepId|]].

Ltac settle :=
  repeat match goal with
         | H : exists _, _ |- _ => destruct H as (? & ? & ?)
         | H : Some _ = Some _ |- _ => injection H as <-
         | H : forall row, Some ?r = Some row -> _ |- _ =>
             specialize (H r eq_refl)
         end;
  cbn in *; try discriminate; try reflexivity;
  try (eexists; split; reflexivity).

Lemma lastUpsert_app queries shop update create :
  lastUpsert (queries ++ [Upsert shop update create])
  = Some (shop, update, create).
Proof.
  induction queries as [|q queries IH]; cbn; [reflexivity|].
  cbn in IH. rewrite IH. reflexivity.
Qed.

Lemma lastUpsert_app2 queries q shop update create :
  lastUpsert (queries ++ [q; Upsert shop update create])
  = Some (shop, update, create).
Proof.
  change (queries ++ [q; Upsert shop update create])
    with (queries ++ [q] ++ [Upsert shop update create]).
  rewrite app_assoc. apply lastUpsert_app.
Qed.

Lemma lastUpsert_asked checkedAt storedAt (probe : completion unit E) cache :
  lastUpsert (snd (hasOnboardingFields checkedAt storedAt probe cache)) = None.
Proof.
  destruct (hasOnboardingFields_cases checkedAt storedAt probe cache)
    as [(cached & _ & _ & ->)|(_ & ->)]; reflexivity.
Qed.

(** X12. [updateOnboardingStep] resolves to [false] exactly when
    [hasOnboardingFields] answers [false] and the step is not
    [theme-editor], and then it writes nothing. It resolves to [true] only
    after an upsert for the shop that resolved, and the feature cache is
    left as [hasOnboardingFields] leaves it. *)
Theorem updateOnboardingStep_outcome checkedAt storedAt dates
    (db : Db E) shop stepId cache :
  let believed :=
    hasOnboardingFields checkedAt storedAt (queryRaw db) cache in
  let outcome :=
    updateOnboardingStep checkedAt storedAt dates db shop stepId cache in
  (fst (fst outcome) = Return false
   <-> fst (fst believed) = false /\ stepId <> "theme-editor")
  /\ (fst (fst outcome) = Return false -> snd outcome = snd believed)
  /\ (fst (fst outcome) = Return true ->
      exists update create,
        lastUpsert (snd outcome) = Some (shop, update, create)
        /\ upsert db shop update create = Return tt)
  /\ snd (fst outcome) = snd (fst believed).
Proof.
  intros believed outcome. subst believed outcome.
  unfold updateOnboardingStep.
  pose proof (lastUpsert_asked checkedAt storedAt (queryRaw db) cache) as Hasked.
  destruct (hasOnboardingFields checkedAt storedAt (queryRaw db) cache)
    as [[believed cache'] asked].
  cbn [fst snd] in *.
  destruct believed; cbn [negb].
  - destruct (findUnique db shop None) as [current|e]; cbn [fst snd].
    + match goal with
      | |- context [upsert db shop ?u ?c] =>
          generalize u, c; intros update create
      end.
      destruct (upsert db shop update create) as [[]|e'] eqn:Hup;
        repeat split; try discriminate; try (intros [? _]; discriminate).
      intros _. exists update, create. split; [apply lastUpsert_app2|exact Hup].
    + repeat split; try discriminate; intros [? _]; discriminate.
  - destruct (String.eqb stepId "theme-editor") eqn:Hstep; cbn [fst snd].
    + apply String.eqb_eq in Hstep.
      match goal with
      | |- context [upsert db shop ?u ?c] =>
          generalize u, c; intros update create
      end.
      destruct (upsert db shop update create) as [[]|e'] eqn:Hup;
        repeat split; try discriminate; try (intros [_ ?]; contradiction).
      intros _. exists update, create. split; [apply lastUpsert_app|exact Hup].
    + apply String.eqb_neq in Hstep. repeat split; try discriminate; auto.
Qed.

(** X13. When [hasOnboardingFields] answers [true] and [findUnique]
    resolves, [updateOnboardingStep] upserts for the shop, creating with
    the update data preceded by the shop. The update data mark the
    onboarding completed exactly when the shop has a row and each of the
    four steps is the step being recorded or already recorded in that
    row; for a shop without a row nothing is marked completed. *)
Theorem updateOnboardingStep_completes_iff checkedAt storedAt dates
    (db : Db E) shop stepId cache current :
  fst (fst (hasOnboardingFields checkedAt storedAt (queryRaw db) cache)) = true ->
  findUnique db shop None = Return current ->
  exists update,
    lastUpsert (snd (updateOnboardingStep checkedAt storedAt dates db shop
                       stepId cache))
    = Some (shop, update, ("shop", Text shop) :: update)
    /\ (field "onboardingCompleted" update = Some (Flag true)
        <-> exists row, current = Some row /\ allDone stepId row = true)
    /\ (field "onboardingCompleted" update = None
        <-> forall row, current = Some row -> allDone stepId row = false)
    /\ (field "onboardingCompleted" update = None
        <-> field "onboardingCompletedAt" update = None).
Proof.
  intros Hbelieved Hfound.
  unfold updateOnboardingStep.
  destruct (hasOnboardingFields checkedAt storedAt (queryRaw db) cache)
    as [[believed cache'] asked].
  cbn [fst snd] in Hbelieved. subst believed. cbn [negb].
  rewrite Hfound. unfold allDone, stepDone.
  destruct current as [row|].
  - destruct row as [[] [] [] []];
      cbn [onboardingStepThemeEditor onboardingStepRecommendations
             onboardingStepFirstBundle onboardingStepPreview];
      step_cases stepId;
      (cbn; rewrite lastUpsert_app2; eexists; split; [reflexivity|]; cbn;
       repeat split; intros; settle).
  - step_cases stepId;
      (cbn; rewrite lastUpsert_app2; eexists; split; [reflexivity|]; cbn;
       repeat split; intros; settle).
Qed.

(** X14. For a minute after a query that failed, the helpers act on the
    cached [false] whatever the database has become: [dismissOnboarding]
    resolves to [true] and [updateOnboardingStep] (for a step other than
    [theme-editor]) to [false] without any query, so nothing is written,
    and [getSettingsWithOnboarding] selects the four basic columns only. *)
Theorem stale_negative_drops_writes checkedAt0 storedAt0 (e : E)
    checkedAt storedAt dates (db : Db E) shop stepId cache :
  checkedAt - storedAt0 < CACHE_TTL ->
  stepId <> "theme-editor" ->
  let before :=
    snd (fst (hasOnboardingFields checkedAt0 storedAt0 (Throw e)
                (clearFeatureCache cache))) in
  dismissOnboarding checkedAt storedAt db shop before
  = (Return true, before, [])
  /\ updateOnboardingStep checkedAt storedAt dates db shop stepId before
     = (Return false, before, [])
  /\ getSettingsWithOnboarding checkedAt storedAt db shop before
     = (findUnique db shop (Some basicSelect), before,
        [FindUnique shop (Some basicSelect)]).
Proof.
  intros Hfresh Hstep before. subst before.
  unfold dismissOnboarding, updateOnboardingStep, getSettingsWithOnboarding.
  unfold clearFeatureCache, emptyCache, hasOnboardingFields.
  cbn [mapGet mapSet snd fst String.eqb Ascii.eqb Bool.eqb timestamp value].
  apply Z.ltb_lt in Hfresh. rewrite Hfresh. cbn [negb app].
  apply String.eqb_neq in Hstep. rewrite Hstep. repeat split.
Qed.

End WithDatabase.

Lemma stale_negative_drops_writes_witness :
  let before :=
    snd (fst (hasOnboardingFields 0 5 (Throw "no such column")
                (clearFeatureCache emptyCache))) in
  dismissOnboarding 59000 59005 migrated "shop.example" before
  = (Return true, before, [])
  /\ updateOnboardingStep 59000 59005 someDates migrated "shop.example"
       "preview" before
     = (Return false, before, [])
  /\ getSettingsWithOnboarding 59000 59005 migrated "shop.example" before
     = (findUnique migrated "shop.example" (Some basicSelect), before,
        [FindUnique "shop.example" (Some basicSelect)]).
Proof.
  apply (stale_negative_drops_writes 0 5 "no such column" 59000 59005
           someDates migrated "shop.example" "preview" emptyCache);
    [reflexivity|discriminate].
Defined.

Lemma hasOnboardingFields_answers_fresh_witness :
  exists j source,
    (j <= 1)%nat
    /\ nth_error [mkCall string 0 5 (Throw "no such column");
                  mkCall string 59000 59005 (Return tt)] j = Some source
    /\ false = resolved (probe source)
    /\ (j = 1%nat
        \/ checked (mkCall string 59000 59005 (Return tt)) - stored source
           < CACHE_TTL).
Proof.
  apply (hasOnboardingFields_answers_fresh
           [mkCall string 0 5 (Throw "no such column");
            mkCall string 59000 59005 (Return tt)] 1
           (mkCall string 59000 59005 (Return tt)) false);
    reflexivity.
Defined.

Lemma hasOnboardingFields_stale_until_cleared_witness :
  let before :=
    snd (fst (hasOnboardingFields 0 5 (Throw "no such column")
                (clearFeatureCache emptyCache))) in
  hasOnboardingFields (E := string) 59000 59005 (Return tt) before
  = (false, before, [])
  /\ hasOnboardingFields (E := string) 59000 59005 (Return tt)
       (clearFeatureCache before)
     = (true, [("onboarding_fields", mkCached true 59005)],
        [probeOnboardingCompleted]).
Proof.
  apply (hasOnboardingFields_stale_until_cleared 0 5 "no such column"
           59000 59005 emptyCache).
  reflexivity.
Defined.

Lemma updateOnboardingStep_completes_iff_witness :
  exists update,
    lastUpsert (snd (updateOnboardingStep 0 5 someDates migrated
                       "shop.example" "preview" emptyCache))
    = Some ("shop.example", update, ("shop", Text "shop.example") :: update)
    /\ (field "onboardingCompleted" update = Some (Flag true)
        <-> exists row,
              Some previewLeft = Some row /\ allDone "preview" row = true)
    /\ (field "onboardingCompleted" update = None
        <-> forall row,
              Some previewLeft = Some row -> allDone "preview" row = false)
    /\ (field "onboardingCompleted" update = None
        <-> field "onboardingCompletedAt" update = None).
Proof.
  apply (updateOnboardingStep_completes_iff 0 5 someDates migrated
           "shop.example" "preview" emptyCache (Some previewLeft));
    reflexivity.
Defined.

End DbMigrationFacts.
(** ** Authentication wrappers *)

Module AuthFacts.
Import Js RequestLimits Auth.

Lemma upTo_without stop s : without stop s = true -> upTo stop s = s.
Proof.
  induction s as [|c s IH]; cbn; [reflexivity|].
  intros H. apply andb_true_iff in H. destruct H as [Hc Hs].
  destruct (Ascii.eqb c stop); [discriminate|]. now rewrite IH.
Qed.

Lemma without_app c s t :
  without c (s ++ t) = without c s && without c t.
Proof.
  induction s as [|c' s IH]; cbn; [reflexivity|].
  now rewrite IH, andb_assoc.
Qed.

Lemma from_app start base rest :
  without start base = true ->
  from start (base ++ String start rest) = String start rest.
Proof.
  induction base as [|c base IH]; cbn.
  - now rewrite Ascii.eqb_refl.
  - intros H. apply andb_true_iff in H. destruct H as [Hc Hbase].
    destruct (Ascii.eqb c start); [discriminate|]. now apply IH.
Qed.

Lemma search_query base query :
  without "?" base = true -> without "#" base = true ->
  without "#" query = true -> query <> "" ->
  search (base ++ "?" ++ query) = ("?" ++ query)%string.
Proof.
  intros Hbase Hbase' Hquery Hne. unfold search.
  rewrite upTo_without
    by (rewrite without_app, Hbase'; cbn; now rewrite Hquery).
  cbn [append]. rewrite from_app by exact Hbase.
  destruct query; [congruence|reflexivity].
Qed.

Section WithShopify.

Context {AdminContext E : Type}.
Variable admin : Request -> completion AdminContext E.

(** X15. When authentication fails for a request that does not accept
    JSON, carries none of the three fetch markers and is not a [POST] (in
    any letter case), [enhancedAuthenticate] throws a redirect to [/auth]
    that keeps the query of the request's URL: for a URL [base?query]
    (with a non-empty query and no fragment) the location is
    [/auth?query]. *)
Theorem enhancedAuthenticate_redirect_keeps_query request base query e :
  admin request = Throw e ->
  isJsonAccept request = false ->
  isRemixFetch request = false ->
  sameLetters (method request) "POST" = false ->
  url request = (base ++ "?" ++ query)%string ->
  without "?" base = true -> without "#" base = true ->
  without "#" query = true -> query <> "" ->
  enhancedAuthenticate admin request
  = Throw (redirect ("/auth?" ++ query)).
Proof.
  intros Hadmin Hjson Hfetch Hpost Hurl Hbase Hbase' Hquery Hne.
  unfold enhancedAuthenticate. rewrite Hadmin, Hjson, Hfetch.
  unfold sameLetters in Hpost. change (toUpperCase "POST") with "POST" in Hpost.
  rewrite Hpost. cbn [orb]. rewrite Hurl, search_query by assumption.
  reflexivity.
Qed.

Section Wrappers.

Context {Args T X : Type}.
Variable request : Args -> Request.

(** X16. [withAuth] calls the loader only when authentication succeeded.
    When authentication fails, the wrapper does not reject, whatever the
    loader is: it resolves to the response that [enhancedAuthenticate]
    threw, the 401 [Session expired] or a redirect to [/auth] followed by
    the query of the URL. After a successful authentication the wrapper
    settles as the loader does, with one exception: a [Response] that the
    loader throws synchronously is returned. A loader that returns a
    rejected promise (an [async] loader that throws) makes the wrapper
    reject with the same value, also when that value is a [Response].
    [withAuthAction] behaves the same. *)
Theorem withAuth_outcome
    (loader : Args -> AdminContext -> Outcome T X) args :
  (forall e, admin (request args) = Throw e ->
     exists response,
       withAuth admin request loader args = Return (inr response)
       /\ enhancedAuthenticate admin (request args) = Throw response
       /\ (response = sessionExpired
           \/ response
              = redirect ("/auth" ++ search (url (request args)))))
  /\ (forall auth, admin (request args) = Return auth ->
        (forall t, loader args auth = Fulfils t ->
           withAuth admin request loader args = Return (inl t))
        /\ (forall e, loader args auth = Rejects e ->
              withAuth admin request loader args = Throw e)
        /\ (forall response, loader args auth = Throws (inl response) ->
              withAuth admin request loader args = Return (inr response))
        /\ (forall e, loader args auth = Throws (inr e) ->
              withAuth admin request loader args = Throw (inr e)))
  /\ withAuthAction admin request loader args
     = withAuth admin request loader args.
Proof.
  unfold withAuth, withAuthAction, enhancedAuthenticate.
  split; [|split; [|reflexivity]].
  - intros e He. rewrite He.
    destruct (isJsonAccept (request args) || isRemixFetch (request args)
              || String.eqb (toUpperCase (method (request args))) "POST");
      eexists; repeat split; auto.
  - intros auth Hauth. rewrite Hauth.
    repeat split; intros ? H; rewrite H; reflexivity.
Qed.

End Wrappers.

End WithShopify.

Lemma enhancedAuthenticate_redirect_keeps_query_witness :
  enhancedAuthenticate (AdminContext := unit) (fun _ => Throw tt)
    (pageLoad "https://app.example.com/app" "shop=a.myshopify.com&host=abc")
  = Throw (redirect "/auth?shop=a.myshopify.com&host=abc").
Proof.
  apply (enhancedAuthenticate_redirect_keeps_query (fun _ => Throw tt)
           (pageLoad "https://app.example.com/app" "shop=a.myshopify.com&host=abc")
           "https://app.example.com/app" "shop=a.myshopify.com&host=abc" tt);
    try reflexivity.
  discriminate.
Defined.

End AuthFacts.
(** ** The structured logger *)

Module LoggerFacts.
Import Js RequestLimits Logger.

Lemma prop_assign name k v o :
  prop name (assign k v o)
  = if String.eqb name k then Some v else prop name o.
Proof.
  induction o as [|[k' v'] o IH]; cbn; [reflexivity|].
  destruct (String.eqb k k') eqn:Hk; cbn.
  - apply String.eqb_eq in Hk. subst k'.
    destruct (String.eqb name k); reflexivity.
  - rewrite IH. destruct (String.eqb name k') eqn:Hn; [|reflexivity].
    apply String.eqb_eq in Hn. subst k'.
    destruct (String.eqb name k) eqn:Hnk; [|reflexivity].
    apply String.eqb_eq in Hnk. subst k. rewrite String.eqb_refl in Hk.
    discriminate.
Qed.

Lemma prop_absent name o : ~ In name (map fst o) -> prop name o = None.
Proof.
  induction o as [|[k v] o IH]; cbn; [reflexivity|].
  intros H. destruct (String.eqb name k) eqn:Hk.
  - apply String.eqb_eq in Hk. subst k. tauto.
  - apply IH. tauto.
Qed.

Lemma prop_spread name more : forall o,
  isObject more ->
  prop name (spread o more) = preferring name more (prop name o).
Proof.
  destruct more as [more|]; [|reflexivity]. cbn [spread preferring isObject].
  induction more as [|[k v] more IH]; intros o Hobj; cbn [fold_left].
  - reflexivity.
  - cbn [map fst] in Hobj. inversion Hobj as [|? ? Hk Hmore]; subst.
    cbn [fst snd]. rewrite IH by exact Hmore. rewrite prop_assign.
    cbn [prop]. destruct (String.eqb name k) eqn:Hname; [|reflexivity].
    apply String.eqb_eq in Hname. subst k.
    now rewrite prop_absent by exact Hk.
Qed.

Lemma isObject_spread o more :
  NoDup (map fst o) -> NoDup (map fst (spread o more)).
Proof.
  destruct more as [more|]; [|auto]. cbn [spread]. revert o.
  assert (Hassign : forall k v o, map fst (assign k v o)
                                  = if existsb (String.eqb k) (map fst o)
                                    then map fst o else map fst o ++ [k]).
  { intros k v o. induction o as [|[k' v'] o IHo]; cbn; [reflexivity|].
    destruct (String.eqb k k') eqn:Hk; cbn; [reflexivity|].
    rewrite IHo. destruct (existsb (String.eqb k) (map fst o)); reflexivity. }
  induction more as [|[k v] more IH]; intros o Ho; cbn [fold_left]; [exact Ho|].
  apply IH. cbn [fst snd]. rewrite Hassign.
  destruct (existsb (String.eqb k) (map fst o)) eqn:Hin; [exact Ho|].
  apply NoDup_app; [exact Ho|repeat constructor; intros []|].
  intros x Hx [Hk|[]]. subst x.
  assert (existsb (String.eqb k) (map fst o) = true); [|congruence].
  apply existsb_exists. exists k. split; [exact Hx|apply String.eqb_refl].
Qed.

Lemma serialisable_assign k v o :
  serialisable v = true -> serialisableObject o = true ->
  serialisableObject (assign k v o) = true.
Proof.
  unfold serialisableObject. intros Hv.
  induction o as [|[k' v'] o IH]; cbn [assign forallb snd].
  - now rewrite Hv.
  - intros H. apply andb_true_iff in H. destruct H as [Hv' Ho].
    destruct (String.eqb k k'); cbn [forallb snd].
    + now rewrite Hv, Ho.
    + now rewrite Hv', IH.
Qed.

Lemma serialisable_spread o more :
  serialisableObject o = true -> serialisableMetadata more = true ->
  serialisableObject (spread o more) = true.
Proof.
  destruct more as [more|]; [|auto]. cbn [spread serialisableMetadata].
  revert o. induction more as [|[k v] more IH]; intros o Ho Hmore;
    cbn [fold_left]; [exact Ho|].
  unfold serialisableObject in Hmore. cbn [forallb snd] in Hmore.
  apply andb_true_iff in Hmore. destruct Hmore as [Hv Hmore].
  apply IH; [|exact Hmore]. now apply serialisable_assign.
Qed.

Lemma prop_serialisable name o v :
  prop name o = Some v -> serialisableObject o = true -> serialisable v = true.
Proof.
  unfold serialisableObject.
  induction o as [|[k v'] o IH]; cbn [prop forallb snd]; [discriminate|].
  intros Hp H. apply andb_true_iff in H. destruct H as [Hv' Ho].
  destruct (String.eqb name k); [now injection Hp as <-|now apply IH].
Qed.

Lemma unserialisable_prop o :
  NoDup (map fst o) -> serialisableObject o = false ->
  exists name v, prop name o = Some v /\ serialisable v = false.
Proof.
  unfold serialisableObject.
  induction o as [|[k v] o IH]; cbn [forallb snd map fst prop]; [discriminate|].
  intros Hnd H. inversion Hnd as [|? ? Hk Ho]; subst.
  destruct (serialisable v) eqn:Hv.
  - destruct (IH Ho H) as (name & v' & Hp & Hv').
    exists name, v'. split; [|exact Hv'].
    destruct (String.eqb name k) eqn:Hname; [|exact Hp].
    apply String.eqb_eq in Hname. subst k.
    now rewrite (prop_absent name o Hk) in Hp.
  - exists k, v. now rewrite String.eqb_refl.
Qed.

Lemma unserialisable_spread o more :
  isObject more -> serialisableMetadata more = false ->
  serialisableObject (spread o more) = false.
Proof.
  intros Hobject Hbad. destruct more as [m|]; [|discriminate].
  destruct (unserialisable_prop m Hobject Hbad) as (name & v & Hp & Hv).
  destruct (serialisableObject (spread o (Some m))) eqn:Hall; [|reflexivity].
  assert (Hspread : prop name (spread o (Some m)) = Some v).
  { rewrite prop_spread by exact Hobject. cbn [preferring]. now rewrite Hp. }
  rewrite (prop_serialisable _ _ _ Hspread Hall) in Hv. discriminate.
Qed.

Section WithBuiltins.

Variable jsonText : object -> string.
Variable toISOString : Z -> string.
Variable pathname : string -> string.
Variable env : Env.ProcessEnv.

Lemma formatLog_returns now level message metadata :
  serialisableMetadata metadata = true ->
  exists text,
    formatLog jsonText toISOString env now level message metadata
    = Return text.
Proof.
  intros Hok. unfold formatLog, stringify.
  destruct (String.eqb (LOG_FORMAT env) "json").
  - rewrite serialisable_spread; [eauto|reflexivity|exact Hok].
  - destruct metadata as [m|]; [|eauto].
    cbn [serialisableMetadata] in Hok. rewrite Hok. eauto.
Qed.

Lemma formatLog_throws now level message metadata :
  isObject metadata -> serialisableMetadata metadata = false ->
  formatLog jsonText toISOString env now level message metadata
  = Throw TypeError.
Proof.
  intros Hobject Hbad. unfold formatLog, stringify.
  destruct (String.eqb (LOG_FORMAT env) "json").
  - now rewrite unserialisable_spread.
  - destruct metadata as [m|]; [|discriminate].
    cbn [serialisableMetadata] in Hbad. now rewrite Hbad.
Qed.

(** X17. Every line of a request logger goes to the method of the same
    name of [logger], with metadata in which a property of the call's
    metadata wins over one of the additional context, which wins over the
    logger's own [requestId] (the [x-request-id] header of the request, or
    a random UUID when there is none or it is empty) and [route]. *)
Theorem createRequestLogger_metadata request additionalContext randomUUID
    now message metadata :
  isObject additionalContext -> isObject metadata ->
  let requestLogger :=
    createRequestLogger jsonText toISOString pathname env request
      additionalContext randomUUID in
  let main := logger jsonText toISOString env in
  exists merged,
    debug requestLogger now message metadata
    = debug main now message (Some merged)
    /\ info requestLogger now message metadata
       = info main now message (Some merged)
    /\ warn requestLogger now message metadata
       = warn main now message (Some merged)
    /\ error requestLogger now message metadata
       = error main now message (Some merged)
    /\ forall name,
         prop name merged
         = preferring name metadata
             (preferring name additionalContext
                (prop name
                   [("requestId", Str (requestIdOf request randomUUID));
                    ("route", Str (pathname (url request)))])).
Proof.
  intros Hcontext Hmetadata requestLogger main. subst requestLogger main.
  unfold createRequestLogger. cbn [debug info warn error].
  eexists. repeat split. intros name.
  rewrite prop_spread by exact Hmetadata. f_equal.
  assert (Hbase :
            prop name (baseMetadata pathname request additionalContext randomUUID)
            = preferring name additionalContext
                (prop name
                   [("requestId", Str (requestIdOf request randomUUID));
                    ("route", Str (pathname (url request)))])).
  { unfold baseMetadata, requestIdOf. apply prop_spread. exact Hcontext. }
  rewrite prop_spread.
  - cbn [preferring prop]. rewrite Hbase.
    destruct (preferring name additionalContext _); reflexivity.
  - cbn [isObject]. unfold baseMetadata. apply isObject_spread.
    repeat constructor; cbn; intuition discriminate.
Qed.

(** X18. In the JSON format a log line is [JSON.stringify] of an object in
    which the properties of the metadata win over the line's own
    [timestamp], [level], [message] and [env]: metadata with a property
    [message] or [level] replace the message or the level of the line. *)
Theorem formatLog_json_metadata_wins now level message metadata :
  LOG_FORMAT env = "json" -> isObject metadata ->
  exists line,
    formatLog jsonText toISOString env now level message metadata
    = stringify jsonText line
    /\ forall name,
         prop name line
         = preferring name metadata
             (prop name
                [("timestamp", Str (toISOString now));
                 ("level", Str (levelText level));
                 ("message", Str message);
                 ("env", Str (NODE_ENV env))]).
Proof.
  intros Hformat Hmetadata. unfold formatLog. rewrite Hformat.
  cbn [String.eqb Ascii.eqb Bool.eqb]. eexists. split; [reflexivity|].
  intros name. now rewrite prop_spread.
Qed.

(** X19. A line of a level that is logged is formatted first and then
    written with the console method of its level: [logger.warn] and
    [logger.error] always get that far, so they write exactly one line when
    the metadata can be serialised, and throw the [TypeError] of
    [JSON.stringify] without writing when they cannot. [logger.debug],
    [logger.info] and [logger.log] do so only when [DEBUG_MODE] is set to
    exactly [true]; otherwise they return without formatting or writing
    anything, whatever the metadata, and so does the report of a
    performance logger. *)
Theorem logger_levels now message metadata args label startTime endTime more :
  let main := logger jsonText toISOString env in
  let line := formatLog jsonText toISOString env now in
  warn main now message metadata = report WARN (line WARN message metadata)
  /\ error main now message metadata
     = report ERROR (line ERROR message metadata)
  /\ (env "DEBUG_MODE" = Some "true" ->
      debug main now message metadata
      = report DEBUG (line DEBUG message metadata)
      /\ info main now message metadata
         = report INFO (line INFO message metadata)
      /\ log env args = [ConsoleLogArgs args])
  /\ (env "DEBUG_MODE" <> Some "true" ->
      debug main now message metadata = (Return tt, [])
      /\ info main now message metadata = (Return tt, [])
      /\ log env args = []
      /\ createPerfLogger jsonText toISOString env label metadata startTime
           endTime now more = (Return tt, []))
  /\ (serialisableMetadata metadata = true ->
      forall level, exists text, line level message metadata = Return text)
  /\ (isObject metadata -> serialisableMetadata metadata = false ->
      forall level, line level message metadata = Throw TypeError).
Proof.
  intros main line. subst main line.
  assert (Hoff : env "DEBUG_MODE" <> Some "true" -> DEBUG_MODE env = false).
  { unfold DEBUG_MODE. intros Hne.
    destruct (env "DEBUG_MODE") as [v|]; [|reflexivity].
    destruct (String.eqb v "true") eqn:Hv; [|reflexivity].
    apply String.eqb_eq in Hv. congruence. }
  assert (Hon : env "DEBUG_MODE" = Some "true" -> DEBUG_MODE env = true).
  { unfold DEBUG_MODE. now intros ->. }
  unfold createPerfLogger, logger, log, logMessage, shouldLog.
  cbn [debug info warn error negb].
  split; [|split; [|split; [|split; [|split]]]].
  - reflexivity.
  - reflexivity.
  - intros Hmode. rewrite (Hon Hmode). cbn [negb].
    split; [reflexivity|]. split; reflexivity.
  - intros Hmode. rewrite (Hoff Hmode). cbn [negb].
    split; [reflexivity|]. split; [reflexivity|]. split; reflexivity.
  - intros Hok level. apply formatLog_returns. exact Hok.
  - intros Hobject Hbad level. apply formatLog_throws; assumption.
Qed.

End WithBuiltins.

Lemma createRequestLogger_metadata_witness :
  let requestLogger :=
    createRequestLogger jsonTextStub RateLimiter.isoStub pathnameStub jsonEnv
      traced (Some [("shop", Str "a.myshopify.com")]) "uuid" in
  let main := logger jsonTextStub RateLimiter.isoStub jsonEnv in
  exists merged,
    debug requestLogger 0 "paid" (Some [("requestId", Str "mine")])
    = debug main 0 "paid" (Some merged)
    /\ info requestLogger 0 "paid" (Some [("requestId", Str "mine")])
       = info main 0 "paid" (Some merged)
    /\ warn requestLogger 0 "paid" (Some [("requestId", Str "mine")])
       = warn main 0 "paid" (Some merged)
    /\ error requestLogger 0 "paid" (Some [("requestId", Str "mine")])
       = error main 0 "paid" (Some merged)
    /\ forall name,
         prop name merged
         = preferring name (Some [("requestId", Str "mine")])
             (preferring name (Some [("shop", Str "a.myshopify.com")])
                (prop name
                   [("requestId", Str (requestIdOf traced "uuid"));
                    ("route", Str (pathnameStub (url traced)))])).
Proof.
  apply (createRequestLogger_metadata jsonTextStub RateLimiter.isoStub
           pathnameStub jsonEnv traced (Some [("shop", Str "a.myshopify.com")])
           "uuid" 0 "paid" (Some [("requestId", Str "mine")]));
    cbn; repeat constructor; cbn; tauto.
Defined.

Example logger_error_unserialisable :
  error (logger jsonTextStub RateLimiter.isoStub jsonEnv) 0 "failed"
    (Some [("amount", BigInt 5)])
  = (Throw TypeError, [])
  /\ error (logger jsonTextStub RateLimiter.isoStub jsonEnv) 0 "failed"
       (Some [("amount", Int 5)])
     = (Return tt, [ConsoleError "timestamp,level,message,env,amount"]).
Proof. split; reflexivity. Qed.

Lemma formatLog_json_metadata_wins_witness :
  exists line,
    formatLog jsonTextStub RateLimiter.isoStub jsonEnv 0 ERROR "failed"
      (Some [("level", Str "quiet")])
    = stringify jsonTextStub line
    /\ forall name,
         prop name line
         = preferring name (Some [("level", Str "quiet")])
             (prop name
                [("timestamp", Str (RateLimiter.isoStub 0));
                 ("level", Str (levelText ERROR));
                 ("message", Str "failed");
                 ("env", Str (NODE_ENV jsonEnv))]).
Proof.
  apply (formatLog_json_metadata_wins jsonTextStub RateLimiter.isoStub
           jsonEnv 0 ERROR "failed" (Some [("level", Str "quiet")]));
    [reflexivity|cbn; repeat constructor; cbn; tauto].
Defined.

End LoggerFacts.
